(** * A shallow embedding of the JS++ interpreter (lexer, parser, tree walker)

    The three stages of the pipeline are embedded from their C++ sources:
    - [Lexer]       from [lexer.h]
    - [Parser]      from [parser.h] / [parser.cpp]
    - [Interpreter] from [interpreter.h]
    - [entry_main]  from [entry.cpp]

    Conventions of the embedding.
    - A C++ [int] is a [Z]; the arithmetic of the interpreter wraps to 32 bits
      ([wrap32]); [size_t] cursors are [nat].
    - [std::string] is [string], a [char] is an [ascii].
    - A function that can recurse or loop without bound takes a
      [fuel : nat]; every call and every loop iteration takes one unit.
      Running out of fuel is a separate outcome and never stands for a
      result of the program.
    - A C++ exception is the outcome [Throw] carrying [what()].
    - Undefined behaviour that the source can reach (null dereference,
      out-of-range [operator[]], integer division by zero) is a separate
      outcome as well. *)

From Stdlib Require Import ZArith Ascii String DecimalString Lia.
From stdpp Require Import gmap strings list.

Set Warnings "-register-all".

Local Open Scope string_scope.

(** ** Characters and host helpers *)

Definition NUL : ascii := "000"%char.
Definition TAB : ascii := "009"%char.
Definition LF : ascii := "010"%char.
Definition CR : ascii := "013"%char.
Definition DQUOTE : ascii := "034"%char.

(** [source[i]] for [i <= source.size()]: the element at [size()] reads as
    the terminating NUL. *)
Definition char_at (s : string) (i : nat) : ascii :=
  match String.get i s with
  | Some c => c
  | None => NUL
  end.

(** The value of a [char] after integral promotion ([char] is signed on the
    targets of this program). *)
Definition char_int (c : ascii) : Z :=
  let n := Z.of_nat (nat_of_ascii c) in
  if (n <? 128)%Z then n else (n - 256)%Z.

(** The value of an ordinary character literal ['x'] used as a [case] label. *)
Definition char_const (c : ascii) : Z := Z.of_nat (nat_of_ascii c).

(** The value of a two-character literal such as ['<='] : an [int] made of the
    two character codes, the first one in the high byte. *)
Definition multichar_const (a b : ascii) : Z :=
  (256 * Z.of_nat (nat_of_ascii a) + Z.of_nat (nat_of_ascii b))%Z.

Definition char_between (lo c hi : ascii) : bool :=
  (nat_of_ascii lo <=? nat_of_ascii c)%nat && (nat_of_ascii c <=? nat_of_ascii hi)%nat.

Definition isdigit (c : ascii) : bool := char_between "0" c "9".

(** [std::to_string(int)] and [operator<<(int)]: decimal digits, with a
    leading minus sign for negative values. *)
Definition to_string (z : Z) : string := NilZero.string_of_int (Z.to_int z).

(** [v.push_back(x)] *)
Definition push_back {A : Type} (v : list A) (x : A) : list A := (v ++ [x])%list.

(** ** Tokens ([lexer.h]) *)

Module token_type.
Inductive t : Set :=
| Identifier | Number | String
| Let | Const | Class | Function
| Int | Double | Bool | Return
| Plus | Minus | Star | Slash
| Equal | EqualEqual | PlusPlus
| LParen | RParen | LBrace | RBrace
| Semicolon | Colon | Comma | Print | MinusMinus
| For | While | In | Less | Greater | BangEqual | LessEqual | GreaterEqual
| LBracket | RBracket
| End_ | Unexpected.

#[global] Instance eq_dec : EqDecision t.
Proof. solve_decision. Defined.
End token_type.

(** The [tokenToString] table; every enumerator has an entry, so the
    ["Unknown"] fallback of [tokenTypeToString] is never taken. *)
Definition tokenTypeToString (ty : token_type.t) : string :=
  match ty with
  | token_type.Identifier => "Identifier"
  | token_type.Number => "Number"
  | token_type.String => "String"
  | token_type.Let => "Let"
  | token_type.Const => "Const"
  | token_type.Class => "Class"
  | token_type.Function => "Function"
  | token_type.Int => "Int"
  | token_type.Print => "print"
  | token_type.Double => "Double"
  | token_type.Bool => "Bool"
  | token_type.Return => "Return"
  | token_type.Less => "Less"
  | token_type.Greater => "Greater"
  | token_type.GreaterEqual => "GreaterEqual"
  | token_type.BangEqual => "BangEqual"
  | token_type.LessEqual => "LessEqual"
  | token_type.LBracket => "LBracket"
  | token_type.RBracket => "RBracket"
  | token_type.Plus => "Plus"
  | token_type.Minus => "Minus"
  | token_type.For => "For"
  | token_type.In => "In"
  | token_type.While => "While"
  | token_type.Star => "Star"
  | token_type.Slash => "Slash"
  | token_type.Equal => "Equal"
  | token_type.EqualEqual => "EqualEqual"
  | token_type.PlusPlus => "PlusPlus"
  | token_type.MinusMinus => "MinusMinus"
  | token_type.LParen => "LParen"
  | token_type.RParen => "RParen"
  | token_type.LBrace => "LBrace"
  | token_type.RBrace => "RBrace"
  | token_type.Semicolon => "Semicolon"
  | token_type.Colon => "Colon"
  | token_type.Comma => "Comma"
  | token_type.End_ => "End"
  | token_type.Unexpected => "Unexpected"
  end.

Record Token : Set := mkToken {
  type : token_type.t;
  lexeme : string;
  line : Z;
  column : Z
}.

(** ** The lexer ([class Lexer]) *)

Module Lexer.

Record t : Set := mk {
  source : string;
  current : nat;
  start : nat;
  line : Z;
  column : Z;
  line_start : Z;
  column_start : Z
}.

(** [Lexer(const std::string& source)] *)
Definition new (src : string) : t :=
  {| source := src; current := 0; start := 0; line := 1; column := 1;
     line_start := 1; column_start := 1 |}.

Definition set_current (lx : t) (cur : nat) : t :=
  {| source := source lx; current := cur; start := start lx;
     line := line lx; column := column lx;
     line_start := line_start lx; column_start := column_start lx |}.

Definition set_position (lx : t) (cur : nat) (ln col : Z) : t :=
  {| source := source lx; current := cur; start := start lx;
     line := ln; column := col;
     line_start := line_start lx; column_start := column_start lx |}.

(** [start = current; line_start = line; column_start = column;] *)
Definition mark_start (lx : t) : t :=
  {| source := source lx; current := current lx; start := current lx;
     line := line lx; column := column lx;
     line_start := line lx; column_start := column lx |}.

Definition keywords : list (string * token_type.t) :=
  [ ("let", token_type.Let); ("const", token_type.Const);
    ("class", token_type.Class); ("function", token_type.Function);
    ("int", token_type.Int); ("double", token_type.Double);
    ("bool", token_type.Bool); ("for", token_type.For);
    ("while", token_type.While); ("in", token_type.In);
    ("print", token_type.Print); ("return", token_type.Return) ].

(** [keywords.find(text)] *)
Fixpoint keywords_find (tbl : list (string * token_type.t)) (text : string)
  : option token_type.t :=
  match tbl with
  | [] => None
  | (k, ty) :: tbl' => if String.eqb k text then Some ty else keywords_find tbl' text
  end.

Definition isAtEnd (lx : t) : bool := (String.length (source lx) <=? current lx)%nat.

(** Characters left to read; bounds the scanning loops, each of which
    consumes at least one character per iteration. *)
Definition remaining (lx : t) : nat := String.length (source lx) - current lx.

Definition advance (lx : t) : ascii * t :=
  if isAtEnd lx then (NUL, lx)
  else
    let c := char_at (source lx) (current lx) in
    if Ascii.eqb c LF
    then (c, set_position lx (S (current lx)) (line lx + 1) 1)
    else (c, set_position lx (S (current lx)) (line lx) (column lx + 1)).

Definition peek (lx : t) : ascii :=
  if isAtEnd lx then NUL else char_at (source lx) (current lx).

Definition peekNext (lx : t) : ascii :=
  if (String.length (source lx) <=? current lx + 1)%nat then NUL
  else char_at (source lx) (current lx + 1).

(** [match(expected)] *)
Definition match_ (expected : ascii) (lx : t) : bool * t :=
  if isAtEnd lx then (false, lx)
  else if negb (Ascii.eqb (char_at (source lx) (current lx)) expected) then (false, lx)
  else (true, snd (advance lx)).

Definition makeToken (ty : token_type.t) (lx : t) : Token :=
  mkToken ty (String.substring (start lx) (current lx - start lx) (source lx))
          (line_start lx) (column_start lx).

Definition errorToken (message : string) (lx : t) : Token :=
  mkToken token_type.Unexpected message (line_start lx) (column_start lx).

Definition isAlpha (c : ascii) : bool :=
  char_between "a" c "z" || char_between "A" c "Z" || Ascii.eqb c "_".

Definition isAlphaNumeric (c : ascii) : bool := isAlpha c || isdigit c.

(** [while (pred(peek())) advance();] *)
Fixpoint advance_while (pred : ascii -> bool) (k : nat) (lx : t) : t :=
  match k with
  | 0 => lx
  | S k' => if pred (peek lx) then advance_while pred k' (snd (advance lx)) else lx
  end.

(** [while (peek() != '\n' && !isAtEnd()) advance();] *)
Fixpoint skipLine (k : nat) (lx : t) : t :=
  match k with
  | 0 => lx
  | S k' =>
      if negb (Ascii.eqb (peek lx) LF) && negb (isAtEnd lx)
      then skipLine k' (snd (advance lx))
      else lx
  end.

Fixpoint skipWhitespace_loop (k : nat) (lx : t) : t :=
  match k with
  | 0 => lx
  | S k' =>
      let c := peek lx in
      if Ascii.eqb c " " || Ascii.eqb c CR || Ascii.eqb c TAB
      then skipWhitespace_loop k' (snd (advance lx))
      else if Ascii.eqb c LF
      then skipWhitespace_loop k' (snd (advance lx))
      else if Ascii.eqb c "/"
      then if Ascii.eqb (peekNext lx) "/"
           then skipWhitespace_loop k' (skipLine (S (remaining lx)) lx)
           else lx
      else lx
  end.

Definition skipWhitespace (lx : t) : t :=
  skipWhitespace_loop (S (remaining lx)) lx.

Definition identifier (lx : t) : Token * t :=
  let lx := advance_while isAlphaNumeric (S (remaining lx)) lx in
  let text := String.substring (start lx) (current lx - start lx) (source lx) in
  match keywords_find keywords text with
  | Some ty => (mkToken ty text (line_start lx) (column_start lx), lx)
  | None => (makeToken token_type.Identifier lx, lx)
  end.

Definition number (lx : t) : Token * t :=
  let lx := advance_while isdigit (S (remaining lx)) lx in
  let lx :=
    if Ascii.eqb (peek lx) "." && isdigit (peekNext lx)
    then advance_while isdigit (S (remaining lx)) (snd (advance lx))
    else lx in
  (makeToken token_type.Number lx, lx).

(** The scanning loop of [stringLiteral]: until the closing quote or the
    end of input, skip one character, two when the first is a backslash. *)
Fixpoint stringLiteral_loop (k : nat) (lx : t) : t :=
  match k with
  | 0 => lx
  | S k' =>
      if negb (Ascii.eqb (peek lx) DQUOTE) && negb (isAtEnd lx)
      then
        let lx1 := if Ascii.eqb (peek lx) "\" then snd (advance lx) else lx in
        stringLiteral_loop k' (snd (advance lx1))
      else lx
  end.

Definition stringLiteral (lx : t) : Token * t :=
  let lx := stringLiteral_loop (S (remaining lx)) lx in
  if isAtEnd lx then (errorToken "Unterminated string" lx, lx)
  else
    let lx := snd (advance lx) in
    (makeToken token_type.String lx, lx).

(** [handleSemicolon()], which calls back into [nextToken]. *)
Definition handleSemicolon (nextToken : t -> option (Token * t)) (lx : t)
  : option (Token * t) :=
  if (1 <? current lx)%nat && Ascii.eqb (char_at (source lx) (current lx - 2)) LF
  then nextToken (set_current lx (current lx - 1))
  else Some (makeToken token_type.Semicolon lx, lx).

(** [case x: return match(expected) ? makeToken(ty2) : makeToken(ty1);] *)
Definition one_or_two (expected : ascii) (ty2 ty1 : token_type.t) (lx : t)
  : option (Token * t) :=
  let '(m, lx') := match_ expected lx in
  if m then Some (makeToken ty2 lx', lx') else Some (makeToken ty1 lx', lx').

(** The body of [nextToken]; [self] is the function itself, for the call
    made by [handleSemicolon].  The [switch (c)] compares the promoted
    character with each [case] label in turn. *)
Definition nextToken_body (self : t -> option (Token * t)) (lx : t)
  : option (Token * t) :=
  let lx := mark_start (skipWhitespace lx) in
  if isAtEnd lx then Some (makeToken token_type.End_ lx, lx)
  else
    let '(c, lx) := advance lx in
    if isAlpha c then Some (identifier lx)
    else if isdigit c then Some (number lx)
    else if Ascii.eqb c DQUOTE then Some (stringLiteral lx)
    else
      let tok ty := Some (makeToken ty lx, lx) in
      let ci := char_int c in
      if (ci =? char_const "(")%Z then tok token_type.LParen
      else if (ci =? char_const ")")%Z then tok token_type.RParen
      else if (ci =? char_const "{")%Z then tok token_type.LBrace
      else if (ci =? char_const "[")%Z then tok token_type.LBracket
      else if (ci =? char_const "<")%Z then tok token_type.Less
      else if (ci =? multichar_const "<" "=")%Z then tok token_type.LessEqual
      else if (ci =? char_const ">")%Z then tok token_type.Greater
      else if (ci =? multichar_const ">" "=")%Z then tok token_type.GreaterEqual
      else if (ci =? char_const "]")%Z then tok token_type.RBracket
      else if (ci =? char_const "}")%Z then tok token_type.RBrace
      else if (ci =? char_const ";")%Z then handleSemicolon self lx
      else if (ci =? char_const ":")%Z then tok token_type.Colon
      else if (ci =? char_const ",")%Z then tok token_type.Comma
      else if (ci =? char_const "=")%Z
      then one_or_two "=" token_type.EqualEqual token_type.Equal lx
      else if (ci =? char_const "+")%Z
      then one_or_two "+" token_type.PlusPlus token_type.Plus lx
      else if (ci =? char_const "-")%Z
      then one_or_two "-" token_type.MinusMinus token_type.Minus lx
      else if (ci =? char_const "*")%Z then tok token_type.Star
      else if (ci =? char_const "/")%Z then tok token_type.Slash
      else Some (errorToken "Unexpected character" lx, lx).

(** [nextToken()].  [fuel] bounds the depth of the recursion through
    [handleSemicolon]; [None] means that the call has not returned within
    that depth. *)
Fixpoint nextToken (fuel : nat) (lx : t) : option (Token * t) :=
  match fuel with
  | 0 => None
  | S fuel' => nextToken_body (nextToken fuel') lx
  end.

(** All tokens up to and including the end-of-input or the first failure
    token; [k] bounds the number of tokens. *)
Fixpoint tokens (fuel : nat) (k : nat) (lx : t) : option (list Token) :=
  match k with
  | 0 => Some []
  | S k' =>
      match nextToken fuel lx with
      | None => None
      | Some (tk, lx') =>
          match type tk with
          | token_type.End_ | token_type.Unexpected => Some [tk]
          | _ => option_map (cons tk) (tokens fuel k' lx')
          end
      end
  end.

End Lexer.

(** ** Syntax trees ([parser.h]) *)

(** One constructor per [struct] derived from [ASTNode]; the first two
    arguments are the [line] and [column] of the base class (its [typeName]
    is determined by the constructor).  The three header slots of a [ForStmt]
    may hold [nullptr]. *)
Inductive ASTNode : Set :=
| FunctionDecl (line column : Z) (name : string) (params : list (string * string))
               (returnType : string) (body : list ASTNode)
| ReturnStmt (line column : Z) (expression : ASTNode)
| PrintStmt (line column : Z) (expression : ASTNode)
| BinaryExpr (line column : Z) (op : string) (left right : ASTNode)
| Identifier (line column : Z) (name : string)
| VarDecl (line column : Z) (name : string) (type_ : string) (initializer : ASTNode)
| AssignStmt (line column : Z) (name : string) (value : ASTNode)
| ExpressionStmt (line column : Z) (expr : ASTNode)
| NumberLiteral (line column : Z) (value : Z)
| ForStmt (line column : Z) (init condition increment : option ASTNode) (body : list ASTNode)
| ForEachStmt (line column : Z) (varName varType : string) (iterable : ASTNode)
              (body : list ASTNode)
| WhileStmt (line column : Z) (condition : ASTNode) (body : list ASTNode)
| IndexExpr (line column : Z) (array index : ASTNode)
| CallExpr (line column : Z) (funcName : string) (args : list ASTNode)
| ArrayLiteral (line column : Z) (elements : list ASTNode).

Definition INT_MAX : Z := 2147483647.
Definition INT_MIN : Z := -2147483648.

(** Value of the leading run of decimal digits of [s]. *)
Fixpoint leading_digits (s : string) (acc : Z) : Z :=
  match s with
  | String c s' =>
      if isdigit c
      then leading_digits s' (10 * acc + (Z.of_nat (nat_of_ascii c) - 48))%Z
      else acc
  | EmptyString => acc
  end.

(** [std::stoi] on a lexeme that begins with a digit, as every [Number]
    lexeme of the lexer does: the leading digits are converted, and a value
    that does not fit an [int] raises [std::out_of_range].  A lexeme without
    a leading digit raises [std::invalid_argument]. *)
Definition stoi (s : string) : Z + string :=
  match s with
  | String c _ =>
      if isdigit c
      then let v := leading_digits s 0 in
           if (v <=? INT_MAX)%Z then inl v else inr "stoi argument out of range"
      else inr "invalid stoi argument"
  | EmptyString => inr "invalid stoi argument"
  end.

(** ** The parser ([class Parser]) *)

Module Parser.

(** [Lexer& lexer; Token currentToken;] for a token source of type [L]. *)
Record t (L : Type) : Type := mk { lexer : L; currentToken : Token }.
Arguments mk {L} _ _.
Arguments lexer {L} _.
Arguments currentToken {L} _.

Inductive result (L A : Type) : Type :=
| Ok (a : A) (p : t L)        (* normal return, with the parser afterwards *)
| Throw (what : string)       (* an exception leaves the parser *)
| Crash                       (* a null [shared_ptr] is dereferenced *)
| Hang.                       (* the call did not return within the fuel *)
Arguments Ok {L A} _ _.
Arguments Throw {L A} _.
Arguments Crash {L A}.
Arguments Hang {L A}.

Definition bind {L A B} (r : result L A) (k : A -> t L -> result L B) : result L B :=
  match r with
  | Ok a p => k a p
  | Throw w => Throw w
  | Crash => Crash
  | Hang => Hang
  end.

Notation "'do' ( x , p ) <- r ; k" := (bind r (fun x p => k))
  (at level 10, x name, p name, r at level 100, k at level 200).

(** The operator tokens tested by the [while] of [parseBinaryExpression]. *)
Definition is_binary_operator (ty : token_type.t) : bool :=
  match ty with
  | token_type.Plus | token_type.Minus | token_type.Star | token_type.Slash
  | token_type.Less | token_type.Greater | token_type.EqualEqual
  | token_type.BangEqual | token_type.LessEqual | token_type.GreaterEqual => true
  | _ => false
  end.

Section WithTokenSource.

(** The parser only ever calls [lexer.nextToken()]; it is embedded over
    any such token source. *)
Context {L : Type}.
Variable nextToken : nat -> L -> option (Token * L).

(** [Parser(Lexer& lexer) : lexer(lexer) { currentToken = lexer.nextToken(); }] *)
Definition new (fuel : nat) (lx : L) : result L unit :=
  match nextToken fuel lx with
  | Some (tk, lx') => Ok tt (mk lx' tk)
  | None => Hang
  end.

Definition advance (fuel : nat) (p : t L) : result L unit :=
  match nextToken fuel (lexer p) with
  | Some (tk, lx') => Ok tt (mk lx' tk)
  | None => Hang
  end.

Definition expect (fuel : nat) (ty : token_type.t) (msg : string) (p : t L)
  : result L unit :=
  let cur := currentToken p in
  if bool_decide (type cur = ty) then advance fuel p
  else Throw (msg ++ ". Got: " ++ tokenTypeToString (type cur) ++ " at line "
                  ++ to_string (line cur) ++ ":" ++ to_string (column cur)).

Definition parseType (fuel : nat) (p : t L) : result L string :=
  let cur := currentToken p in
  match type cur with
  | token_type.Int | token_type.Double | token_type.Bool =>
      let ty := lexeme cur in
      do (_, p) <- advance fuel p;
      match type (currentToken p) with
      | token_type.LBracket =>
          do (_, p) <- advance fuel p;
          do (_, p) <- expect fuel token_type.RBracket "Expected ']' after '[' in type" p;
          Ok (ty ++ "[]") p
      | _ => Ok ty p
      end
  | _ => Throw ("Expected type. Got: " ++ tokenTypeToString (type cur))
  end.

Definition parseParam (fuel : nat) (p : t L) : result L (string * string) :=
  let cur := currentToken p in
  match type cur with
  | token_type.Identifier =>
      let name := lexeme cur in
      do (_, p) <- advance fuel p;
      do (_, p) <- expect fuel token_type.Colon "Expected colon after parameter name" p;
      do (ty, p) <- parseType fuel p;
      Ok (name, ty) p
  | _ => Throw "Expected identifier in parameter"
  end.

(** [parseExpression], [parseBinaryExpression] and the loops inside the
    latter call each other.  Each body is written once over the functions
    it calls, and the recursive knot is tied below with one unit of fuel
    per call.  [parseExprList] is the [do { push_back(parseExpression());
    if (Comma) advance(); else break; } while (true)] loop that the source
    repeats for call arguments and array elements; [postfix_loop] is the
    [while (true)] over call and index suffixes of an identifier;
    [binop_loop] is the final [while] over operator tokens. *)
Section Bodies.
Variable fuel : nat.
Variables parseExpression parseBinaryExpression : t L -> result L ASTNode.
Variables postfix_loop binop_loop : ASTNode -> t L -> result L ASTNode.
Variable parseExprList : list ASTNode -> t L -> result L (list ASTNode).

Definition parseExpression_body (p : t L) : result L ASTNode :=
  do (left, p) <- parseBinaryExpression p;
  let cur := currentToken p in
  match type cur with
  | token_type.Equal =>
      match left with
      | Identifier _ _ name =>
          do (_, p) <- advance fuel p;
          do (value, p) <- parseExpression p;
          Ok (AssignStmt (line cur) (column cur) name value) p
      | _ => Throw "Left side of assignment must be an identifier"
      end
  | token_type.PlusPlus | token_type.MinusMinus =>
      match left with
      | Identifier _ _ name =>
          let op := if bool_decide (type cur = token_type.PlusPlus) then "+" else "-" in
          do (_, p) <- advance fuel p;
          let one := NumberLiteral (line cur) (column cur) 1 in
          let bin := BinaryExpr (line cur) (column cur) op left one in
          Ok (AssignStmt (line cur) (column cur) name bin) p
      | _ => Throw "Left side of increment/decrement must be an identifier"
      end
  | _ => Ok left p
  end.

Definition parseBinaryExpression_body (p : t L) : result L ASTNode :=
  let cur := currentToken p in
  do (left, p) <-
    match type cur with
    | token_type.Identifier =>
        let left := Identifier (line cur) (column cur) (lexeme cur) in
        do (_, p) <- advance fuel p;
        postfix_loop left p
    | token_type.Number =>
        match stoi (lexeme cur) with
        | inr what => Throw what
        | inl value =>
            do (_, p) <- advance fuel p;
            Ok (NumberLiteral (line cur) (column cur) value) p
        end
    | token_type.LParen =>
        do (_, p) <- advance fuel p;
        do (left, p) <- parseExpression p;
        do (_, p) <- expect fuel token_type.RParen "Expected ')' after expression" p;
        Ok left p
    | token_type.LBracket =>
        do (_, p) <- advance fuel p;
        do (elements, p) <-
          match type (currentToken p) with
          | token_type.RBracket => Ok [] p
          | _ => parseExprList [] p
          end;
        do (_, p) <- expect fuel token_type.RBracket "Expected ']' after array literal" p;
        Ok (ArrayLiteral (line cur) (column cur) elements) p
    | _ =>
        Throw ("Unsupported expression: " ++ tokenTypeToString (type cur)
                 ++ " '" ++ lexeme cur ++ "'")
    end;
  binop_loop left p.

Definition postfix_loop_body (left : ASTNode) (p : t L) : result L ASTNode :=
  let cur := currentToken p in
  match type cur with
  | token_type.LParen =>
      do (_, p) <- advance fuel p;
      do (args, p) <-
        match type (currentToken p) with
        | token_type.RParen => Ok [] p
        | _ => parseExprList [] p
        end;
      do (_, p) <- expect fuel token_type.RParen "Expected ')' after function call" p;
      match left with
      | Identifier _ _ funcName =>
          postfix_loop (CallExpr (line cur) (column cur) funcName args) p
      | _ => Crash
      end
  | token_type.LBracket =>
      do (_, p) <- advance fuel p;
      do (indexExpr, p) <- parseExpression p;
      do (_, p) <- expect fuel token_type.RBracket "Expected ']' after array index" p;
      postfix_loop (IndexExpr (line cur) (column cur) left indexExpr) p
  | _ => Ok left p
  end.

Definition parseExprList_body (acc : list ASTNode) (p : t L)
  : result L (list ASTNode) :=
  do (e, p) <- parseExpression p;
  match type (currentToken p) with
  | token_type.Comma =>
      do (_, p) <- advance fuel p;
      parseExprList (push_back acc e) p
  | _ => Ok (push_back acc e) p
  end.

Definition binop_loop_body (left : ASTNode) (p : t L) : result L ASTNode :=
  let cur := currentToken p in
  if is_binary_operator (type cur)
  then
    do (_, p) <- advance fuel p;
    do (right, p) <- parseExpression p;
    binop_loop (BinaryExpr (line cur) (column cur) (lexeme cur) left right) p
  else Ok left p.
End Bodies.

Fixpoint parseExpression (fuel : nat) (p : t L) {struct fuel} : result L ASTNode :=
  match fuel with
  | 0 => Hang
  | S fuel =>
      parseExpression_body fuel (parseExpression fuel) (parseBinaryExpression fuel) p
  end

with parseBinaryExpression (fuel : nat) (p : t L) {struct fuel} : result L ASTNode :=
  match fuel with
  | 0 => Hang
  | S fuel =>
      parseBinaryExpression_body fuel (parseExpression fuel) (postfix_loop fuel)
                                 (binop_loop fuel) (parseExprList fuel) p
  end

with postfix_loop (fuel : nat) (left : ASTNode) (p : t L) {struct fuel}
  : result L ASTNode :=
  match fuel with
  | 0 => Hang
  | S fuel =>
      postfix_loop_body fuel (parseExpression fuel) (postfix_loop fuel)
                        (parseExprList fuel) left p
  end

with parseExprList (fuel : nat) (acc : list ASTNode) (p : t L) {struct fuel}
  : result L (list ASTNode) :=
  match fuel with
  | 0 => Hang
  | S fuel => parseExprList_body fuel (parseExpression fuel) (parseExprList fuel) acc p
  end

with binop_loop (fuel : nat) (left : ASTNode) (p : t L) {struct fuel}
  : result L ASTNode :=
  match fuel with
  | 0 => Hang
  | S fuel => binop_loop_body fuel (parseExpression fuel) (binop_loop fuel) left p
  end.

(** The parsers of the statement forms shared, token for token, by
    [parseBlock] and [parseStatement]. *)
Definition parseReturn (fuel : nat) (p : t L) : result L ASTNode :=
  let cur := currentToken p in
  do (_, p) <- advance fuel p;
  do (expr, p) <- parseExpression fuel p;
  do (_, p) <- expect fuel token_type.Semicolon "Expected ';' after return" p;
  Ok (ReturnStmt (line cur) (column cur) expr) p.

Definition parsePrint (fuel : nat) (p : t L) : result L ASTNode :=
  let cur := currentToken p in
  do (_, p) <- advance fuel p;
  do (_, p) <- expect fuel token_type.LParen "Expected '(' after print" p;
  do (expr, p) <- parseExpression fuel p;
  do (_, p) <- expect fuel token_type.RParen "Expected ')' after print expression" p;
  do (_, p) <- expect fuel token_type.Semicolon "Expected ';' after print" p;
  Ok (PrintStmt (line cur) (column cur) expr) p.

(** [let] name [:] type [=] expr, up to but excluding the closing [;].
    [check_name] tells whether the form tests that the name is an
    identifier ([parseStatement] does, [parseBlock] does not). *)
Definition parseLet (check_name : bool) (fuel : nat) (p : t L) : result L ASTNode :=
  let cur := currentToken p in
  do (_, p) <- advance fuel p;
  if check_name && negb (bool_decide (type (currentToken p) = token_type.Identifier))
  then Throw "Expected identifier after 'let'"
  else
    let name := lexeme (currentToken p) in
    do (_, p) <- advance fuel p;
    do (_, p) <- expect fuel token_type.Colon "Expected ':' after variable name" p;
    do (ty, p) <- parseType fuel p;
    do (_, p) <- expect fuel token_type.Equal "Expected '=' after type" p;
    do (initializer, p) <- parseExpression fuel p;
    Ok (VarDecl (line cur) (column cur) name ty initializer) p.

Fixpoint parseBlock (fuel : nat) (p : t L) {struct fuel} : result L (list ASTNode) :=
  match fuel with
  | 0 => Hang
  | S fuel =>
      do (_, p) <- expect fuel token_type.LBrace "Expected '{' to start block" p;
      do (body, p) <- block_loop fuel [] p;
      do (_, p) <- expect fuel token_type.RBrace "Expected '}' to end block" p;
      Ok body p
  end

(** [while (currentToken.type != RBrace && currentToken.type != End) ...] *)
with block_loop (fuel : nat) (body : list ASTNode) (p : t L) {struct fuel}
  : result L (list ASTNode) :=
  match fuel with
  | 0 => Hang
  | S fuel =>
      let cur := currentToken p in
      match type cur with
      | token_type.RBrace | token_type.End_ => Ok body p
      | token_type.Return =>
          do (returnNode, p) <- parseReturn fuel p;
          block_loop fuel (push_back body returnNode) p
      | token_type.For =>
          do (forStmt, p) <- parseStatement fuel p;
          block_loop fuel (push_back body forStmt) p
      | token_type.While =>
          do (whileStmt, p) <- parseStatement fuel p;
          block_loop fuel (push_back body whileStmt) p
      | token_type.Print =>
          do (printNode, p) <- parsePrint fuel p;
          block_loop fuel (push_back body printNode) p
      | token_type.Let =>
          do (varDecl, p) <- parseLet false fuel p;
          do (_, p) <- expect fuel token_type.Semicolon
                         "Expected ';' after variable declaration" p;
          block_loop fuel (push_back body varDecl) p
      | token_type.Identifier =>
          let name := lexeme cur in
          do (_, p) <- advance fuel p;
          match type (currentToken p) with
          | token_type.Equal =>
              do (_, p) <- advance fuel p;
              do (value, p) <- parseExpression fuel p;
              do (_, p) <- expect fuel token_type.Semicolon
                             "Expected ';' after assignment" p;
              block_loop fuel (push_back body (AssignStmt (line cur) (column cur) name value)) p
          | _ =>
              do (expr, p) <- parseExpression fuel p;
              do (_, p) <- expect fuel token_type.Semicolon
                             "Expected ';' after expression" p;
              block_loop fuel (push_back body (ExpressionStmt (line cur) (column cur) expr)) p
          end
      | _ =>
          Throw ("Unsupported statement in block: " ++ tokenTypeToString (type cur)
                   ++ " ('" ++ lexeme cur ++ "') at line " ++ to_string (line cur)
                   ++ ":" ++ to_string (column cur))
      end
  end

with parseStatement (fuel : nat) (p : t L) {struct fuel} : result L ASTNode :=
  match fuel with
  | 0 => Hang
  | S fuel =>
      let cur := currentToken p in
      match type cur with
      | token_type.Return => parseReturn fuel p
      | token_type.Print => parsePrint fuel p
      | token_type.Let =>
          do (varDecl, p) <- parseLet true fuel p;
          do (_, p) <- expect fuel token_type.Semicolon
                         "Expected ';' after variable declaration" p;
          Ok varDecl p
      | token_type.Identifier =>
          let name := lexeme cur in
          do (_, p) <- advance fuel p;
          match type (currentToken p) with
          | token_type.Equal =>
              do (_, p) <- advance fuel p;
              do (value, p) <- parseExpression fuel p;
              do (_, p) <- expect fuel token_type.Semicolon
                             "Expected ';' after assignment" p;
              Ok (AssignStmt (line cur) (column cur) name value) p
          | token_type.LParen =>
              do (_, p) <- advance fuel p;
              do (args, p) <-
                match type (currentToken p) with
                | token_type.RParen => Ok [] p
                | _ => parseExprList fuel [] p
                end;
              do (_, p) <- expect fuel token_type.RParen
                             "Expected ')' after function call" p;
              do (_, p) <- expect fuel token_type.Semicolon
                             "Expected ';' after function call" p;
              Ok (CallExpr (line cur) (column cur) name args) p
          | _ =>
              let exprStmt :=
                ExpressionStmt (line cur) (column cur)
                               (Identifier (line cur) (column cur) name) in
              do (_, p) <- expect fuel token_type.Semicolon
                             "Expected ';' after expression" p;
              Ok exprStmt p
          end
      | token_type.For =>
          do (_, p) <- advance fuel p;
          do (_, p) <- expect fuel token_type.LParen "Expected '(' after for" p;
          do (init, p) <-
            match type (currentToken p) with
            | token_type.Semicolon =>
                do (_, p) <- advance fuel p; Ok None p
            | token_type.Let =>
                do (varDecl, p) <- parseLet true fuel p;
                do (_, p) <- expect fuel token_type.Semicolon
                               "Expected ';' after for initializer" p;
                Ok (Some varDecl) p
            | token_type.Identifier =>
                let first := currentToken p in
                do (_, p) <- advance fuel p;
                do (_, p) <- expect fuel token_type.Equal
                               "Expected '=' after variable name" p;
                do (value, p) <- parseExpression fuel p;
                do (_, p) <- expect fuel token_type.Semicolon
                               "Expected ';' after for initializer" p;
                Ok (Some (AssignStmt (line first) (column first) (lexeme first) value)) p
            | _ => Throw "Unsupported for-loop initializer"
            end;
          do (condition, p) <-
            match type (currentToken p) with
            | token_type.Semicolon => Ok None p
            | _ => do (e, p) <- parseExpression fuel p; Ok (Some e) p
            end;
          do (_, p) <- expect fuel token_type.Semicolon
                         "Expected ';' after for condition" p;
          do (increment, p) <-
            match type (currentToken p) with
            | token_type.RParen => Ok None p
            | _ => do (e, p) <- parseExpression fuel p; Ok (Some e) p
            end;
          do (_, p) <- expect fuel token_type.RParen "Expected ')' after for increment" p;
          do (body, p) <- parseBlock fuel p;
          Ok (ForStmt (line cur) (column cur) init condition increment body) p
      | token_type.While =>
          do (_, p) <- advance fuel p;
          do (_, p) <- expect fuel token_type.LParen "Expected '(' after while" p;
          do (condition, p) <- parseExpression fuel p;
          do (_, p) <- expect fuel token_type.RParen "Expected ')' after while" p;
          do (body, p) <- parseBlock fuel p;
          Ok (WhileStmt (line cur) (column cur) condition body) p
      | _ => Throw "Unsupported statement at top level"
      end
  end.

(** The [while (true)] of [parseFunction] over the parameters. *)
Fixpoint parseParams (k : nat) (fuel : nat) (params : list (string * string)) (p : t L)
  : result L (list (string * string)) :=
  match k with
  | 0 => Hang
  | S k =>
      do (param, p) <- parseParam fuel p;
      match type (currentToken p) with
      | token_type.Comma =>
          do (_, p) <- advance fuel p;
          parseParams k fuel (push_back params param) p
      | _ => Ok (push_back params param) p
      end
  end.

Definition parseFunction (fuel : nat) (p : t L) : result L ASTNode :=
  do (_, p) <- expect fuel token_type.Function "Expected 'function' keyword" p;
  let cur := currentToken p in
  match type cur with
  | token_type.Identifier =>
      do (_, p) <- advance fuel p;
      do (_, p) <- expect fuel token_type.LParen "Expected '(' after function name" p;
      do (params, p) <-
        match type (currentToken p) with
        | token_type.RParen => Ok [] p
        | _ => parseParams fuel fuel [] p
        end;
      do (_, p) <- expect fuel token_type.RParen "Expected ')' after parameters" p;
      do (returnType, p) <-
        match type (currentToken p) with
        | token_type.Colon => do (_, p) <- advance fuel p; parseType fuel p
        | _ => Ok "void" p
        end;
      do (body, p) <- parseBlock fuel p;
      Ok (FunctionDecl (line cur) (column cur) (lexeme cur) params returnType body) p
  | _ => Throw "Expected function name"
  end.

Definition parseTopLevel (fuel : nat) (p : t L) : result L ASTNode :=
  match type (currentToken p) with
  | token_type.Function => parseFunction fuel p
  | _ => parseStatement fuel p
  end.

Definition isAtEnd (p : t L) : bool :=
  bool_decide (type (currentToken p) = token_type.End_).

End WithTokenSource.
End Parser.

(** ** The tree-walking interpreter ([class Interpreter]) *)

(** The 32-bit two's complement value of [z]: what the host's [int]
    holds after an addition, subtraction or multiplication. *)
Definition wrap32 (z : Z) : Z := ((z + 2 ^ 31) mod 2 ^ 32 - 2 ^ 31)%Z.

(** The target of a [std::shared_ptr<FunctionDecl>]. *)
Record FunctionDecl_t : Set := mkFunctionDecl {
  fd_line : Z;
  fd_column : Z;
  fd_name : string;
  fd_params : list (string * string);
  fd_returnType : string;
  fd_body : list ASTNode
}.

(** [std::dynamic_pointer_cast<FunctionDecl>(node)] *)
Definition as_FunctionDecl (node : ASTNode) : option FunctionDecl_t :=
  match node with
  | FunctionDecl l c name params returnType body =>
      Some (mkFunctionDecl l c name params returnType body)
  | _ => None
  end.

Module Interpreter.

(** The two members of the class, and the lines written to [std::cout] so
    far (each [<< std::endl] closes a line). *)
Record t : Type := mk {
  variables : gmap string Z;
  functions : gmap string FunctionDecl_t;
  cout : list string
}.

Definition new : t := {| variables := ∅; functions := ∅; cout := [] |}.

Definition set_variables (vars : gmap string Z) (st : t) : t :=
  {| variables := vars; functions := functions st; cout := cout st |}.

(** [variables[name] = value;] *)
Definition assign (name : string) (value : Z) (st : t) : t :=
  set_variables (<[name := value]> (variables st)) st.

(** [std::cout << val << std::endl;] *)
Definition print_line (val : Z) (st : t) : t :=
  {| variables := variables st; functions := functions st;
     cout := push_back (cout st) (to_string val) |}.

Definition addFunction (name : string) (func : FunctionDecl_t) (st : t) : t :=
  {| variables := variables st; functions := <[name := func]> (functions st);
     cout := cout st |}.

(** Behaviour the C++ standard leaves undefined and that a program of the
    language can trigger. *)
Inductive undefined_behaviour : Set :=
| OutOfRangeAccess      (* [args[i]] with [i >= args.size()] *)
| DivisionByZero        (* [left / right] with [right == 0] *)
| DivisionOverflow.     (* [INT_MIN / -1] *)

Inductive result (A : Type) : Type :=
| Ok (a : A) (st : t)                          (* normal return *)
| Throw (what : string) (st : t)               (* [std::runtime_error] in flight *)
| Undefined (ub : undefined_behaviour) (st : t)
| OutOfFuel.                                   (* no return within the fuel *)
Arguments Ok {A} _ _.
Arguments Throw {A} _ _.
Arguments Undefined {A} _ _.
Arguments OutOfFuel {A}.

Definition bind {A B} (r : result A) (k : A -> t -> result B) : result B :=
  match r with
  | Ok a st => k a st
  | Throw w st => Throw w st
  | Undefined ub st => Undefined ub st
  | OutOfFuel => OutOfFuel
  end.

Notation "'do' ( x , st ) <- r ; k" := (bind r (fun x st => k))
  (at level 10, x name, st name, r at level 100, k at level 200).

Definition bool_int (b : bool) : Z := if b then 1%Z else 0%Z.

(** The operator dispatch of [evalExpr] on the two operand values.  [+],
    [-] and [*] wrap to 32 bits as the host's [int] does; [/] is the
    host's truncating division, which is undefined for a zero divisor and
    for [INT_MIN / -1]. *)
Definition binary_op (op : string) (left right : Z) (st : t) : result Z :=
  if String.eqb op "+" then Ok (wrap32 (left + right)) st
  else if String.eqb op "-" then Ok (wrap32 (left - right)) st
  else if String.eqb op "*" then Ok (wrap32 (left * right)) st
  else if String.eqb op "/" then
    if (right =? 0)%Z then Undefined DivisionByZero st
    else if (left =? INT_MIN)%Z && (right =? -1)%Z then Undefined DivisionOverflow st
    else Ok (Z.quot left right) st
  else if String.eqb op "<" then Ok (bool_int (left <? right)%Z) st
  else if String.eqb op "<=" then Ok (bool_int (left <=? right)%Z) st
  else if String.eqb op ">" then Ok (bool_int (left >? right)%Z) st
  else if String.eqb op ">=" then Ok (bool_int (left >=? right)%Z) st
  else Throw ("Unsupported operator: " ++ op) st.

(** [evalArray]: both paths throw. *)
Definition evalArray {A} (node : ASTNode) (st : t) : result A :=
  match node with
  | Identifier _ _ name => Throw ("Array support not implemented yet for: " ++ name) st
  | _ => Throw "Unsupported iterable type" st
  end.

(** [for (size_t i = 0; i < func->params.size(); ++i)
      variables[func->params[i].first] = args[i];]
    from index [i] on; [params] holds the parameters not yet bound. *)
Fixpoint bind_params (params : list (string * string)) (i : nat) (args : list Z) (st : t)
  : result unit :=
  match params with
  | [] => Ok tt st
  | (name, _) :: params' =>
      match args !! i with
      | Some v => bind_params params' (S i) args (assign name v st)
      | None => Undefined OutOfRangeAccess st
      end
  end.

(** The members of the class call each other recursively; each call takes
    one unit of [fuel].
    - [evalArgs] is [for (auto& arg : call->args) argvals.push_back(evalExpr(arg));]
    - [execStatements] is [for (auto& s : body) execStatement(s);]
    - [for_loop] and [while_loop] are the condition/body/increment cycles
      of the two loop statements, entered after the initializer has run;
    - [execCommon] holds the branches that [execStatement] and the body
      loop of [execFunction] repeat word for word (every statement form
      except [ReturnStmt]); it answers [None] for a node of another form;
    - [function_body] is the [for (auto& stmt : func->body)] loop of
      [execFunction] and yields the final [returnValue].
    In [variables[name] = evalExpr(e)] the right operand is evaluated
    first, as C++17 sequences an assignment. *)
Fixpoint evalExpr (fuel : nat) (node : ASTNode) (st : t) {struct fuel} : result Z :=
  match fuel with
  | 0 => OutOfFuel
  | S fuel =>
      match node with
      | Identifier _ _ name =>
          match variables st !! name with
          | Some v => Ok v st
          | None => Throw ("Undefined variable: " ++ name) st
          end
      | BinaryExpr _ _ op l r =>
          do (left, st) <- evalExpr fuel l st;
          do (right, st) <- evalExpr fuel r st;
          binary_op op left right st
      | NumberLiteral _ _ value => Ok value st
      | CallExpr _ _ funcName args =>
          do (argvals, st) <- evalArgs fuel args [] st;
          callFunction fuel funcName argvals st
      | _ => Throw "Unknown expression type" st
      end
  end

with evalArgs (fuel : nat) (args : list ASTNode) (argvals : list Z) (st : t)
       {struct fuel} : result (list Z) :=
  match fuel with
  | 0 => OutOfFuel
  | S fuel =>
      match args with
      | [] => Ok argvals st
      | arg :: args' =>
          do (v, st) <- evalExpr fuel arg st;
          evalArgs fuel args' (push_back argvals v) st
      end
  end

with callFunction (fuel : nat) (name : string) (args : list Z) (st : t)
       {struct fuel} : result Z :=
  match fuel with
  | 0 => OutOfFuel
  | S fuel =>
      match functions st !! name with
      | None => Throw ("Function not found: " ++ name) st
      | Some func => execFunction fuel func args st
      end
  end

with execStatement (fuel : nat) (stmt : option ASTNode) (st : t)
       {struct fuel} : result unit :=
  match fuel with
  | 0 => OutOfFuel
  | S fuel =>
      match stmt with
      | None => Throw "Unsupported statement at top level" st
      | Some node =>
          match execCommon fuel node st with
          | Some r => r
          | None =>
              match node with
              | ReturnStmt _ _ expression =>
                  do (_, st) <- evalExpr fuel expression st;
                  Ok tt st
              | _ => Throw "Unsupported statement at top level" st
              end
          end
      end
  end

with execCommon (fuel : nat) (node : ASTNode) (st : t)
       {struct fuel} : option (result unit) :=
  match fuel with
  | 0 => Some OutOfFuel
  | S fuel =>
      match node with
      | ForStmt _ _ init condition increment body =>
          Some (do (_, st) <- execStatement fuel init st;
                for_loop fuel condition increment body st)
      | WhileStmt _ _ condition body =>
          Some (while_loop fuel condition body st)
      | ForEachStmt _ _ varName _ iterable body =>
          Some (evalArray iterable st)
      | CallExpr _ _ funcName args =>
          Some (do (argvals, st) <- evalArgs fuel args [] st;
                do (_, st) <- callFunction fuel funcName argvals st;
                Ok tt st)
      | PrintStmt _ _ expression =>
          Some (do (val, st) <- evalExpr fuel expression st;
                Ok tt (print_line val st))
      | VarDecl _ _ name _ initializer =>
          Some (do (v, st) <- evalExpr fuel initializer st;
                Ok tt (assign name v st))
      | AssignStmt _ _ name value =>
          Some (do (v, st) <- evalExpr fuel value st;
                Ok tt (assign name v st))
      | ExpressionStmt _ _ expr =>
          Some (do (_, st) <- evalExpr fuel expr st;
                Ok tt st)
      | _ => None
      end
  end

with execStatements (fuel : nat) (body : list ASTNode) (st : t)
       {struct fuel} : result unit :=
  match fuel with
  | 0 => OutOfFuel
  | S fuel =>
      match body with
      | [] => Ok tt st
      | s :: body' =>
          do (_, st) <- execStatement fuel (Some s) st;
          execStatements fuel body' st
      end
  end

with for_loop (fuel : nat) (condition increment : option ASTNode) (body : list ASTNode)
       (st : t) {struct fuel} : result unit :=
  match fuel with
  | 0 => OutOfFuel
  | S fuel =>
      do (c, st) <-
        match condition with
        | Some e => evalExpr fuel e st
        | None => Throw "Unknown expression type" st
        end;
      if (c =? 0)%Z then Ok tt st
      else
        do (_, st) <- execStatements fuel body st;
        do (_, st) <- execStatement fuel increment st;
        for_loop fuel condition increment body st
  end

with while_loop (fuel : nat) (condition : ASTNode) (body : list ASTNode) (st : t)
       {struct fuel} : result unit :=
  match fuel with
  | 0 => OutOfFuel
  | S fuel =>
      do (c, st) <- evalExpr fuel condition st;
      if (c =? 0)%Z then Ok tt st
      else
        do (_, st) <- execStatements fuel body st;
        while_loop fuel condition body st
  end

with function_body (fuel : nat) (body : list ASTNode) (returnValue : Z) (st : t)
       {struct fuel} : result Z :=
  match fuel with
  | 0 => OutOfFuel
  | S fuel =>
      match body with
      | [] => Ok returnValue st
      | stmt :: body' =>
          match stmt with
          | ReturnStmt _ _ expression =>
              (* returnValue = evalExpr(ret->expression); break; *)
              evalExpr fuel expression st
          | _ =>
              match execCommon fuel stmt st with
              | Some r => do (_, st) <- r; function_body fuel body' returnValue st
              | None => function_body fuel body' returnValue st
              end
          end
      end
  end

with execFunction (fuel : nat) (func : FunctionDecl_t) (args : list Z) (st : t)
       {struct fuel} : result Z :=
  match fuel with
  | 0 => OutOfFuel
  | S fuel =>
      let savedVariables := variables st in
      do (_, st) <- bind_params (fd_params func) 0 args st;
      do (returnValue, st) <- function_body fuel (fd_body func) 0 st;
      Ok returnValue (set_variables savedVariables st)
  end.

End Interpreter.

(** ** The driver ([main] of [entry.cpp]) *)

(** How a run of the process ends: it exits with a status after writing
    the given lines to [std::cout] and [std::cerr], it runs into undefined
    behaviour, or it does not end within the fuel. *)
Inductive outcome : Type :=
| Exited (status : Z) (out err : list string)
| Aborted (ub : Interpreter.undefined_behaviour) (out : list string)
| ParserCrashed (out : list string)
| NotTerminated.

(** The [catch (const std::exception& e)] handler. *)
Definition on_exception (what : string) (out : list string) : outcome :=
  Exited 1 out ["Error: " ++ what].

(** The code after the [while] loop of [main]. *)
Definition run_main (fuel : nat) (interp : Interpreter.t) : outcome :=
  match Interpreter.functions interp !! "main" with
  | Some _ =>
      match Interpreter.callFunction fuel "main" [] interp with
      | Interpreter.Ok result st =>
          Exited 0 (push_back (Interpreter.cout st) ("main() returned: " ++ to_string result)) []
      | Interpreter.Throw what st => on_exception what (Interpreter.cout st)
      | Interpreter.Undefined ub st => Aborted ub (Interpreter.cout st)
      | Interpreter.OutOfFuel => NotTerminated
      end
  | None => Exited 0 (Interpreter.cout interp) []
  end.

(** [while (!parser.isAtEnd()) { ... }], at most [k] rounds, followed by
    the call of [main]. *)
Fixpoint top_level_loop (k fuel : nat) (parser : Parser.t Lexer.t) (interp : Interpreter.t)
  : outcome :=
  match k with
  | 0 => NotTerminated
  | S k =>
      if Parser.isAtEnd parser then run_main fuel interp
      else
        match Parser.parseTopLevel Lexer.nextToken fuel parser with
        | Parser.Ok node parser =>
            match as_FunctionDecl node with
            | Some func =>
                top_level_loop k fuel parser (Interpreter.addFunction (fd_name func) func interp)
            | None =>
                match Interpreter.execStatement fuel (Some node) interp with
                | Interpreter.Ok _ interp => top_level_loop k fuel parser interp
                | Interpreter.Throw what st => on_exception what (Interpreter.cout st)
                | Interpreter.Undefined ub st => Aborted ub (Interpreter.cout st)
                | Interpreter.OutOfFuel => NotTerminated
                end
            end
        | Parser.Throw what => on_exception what (Interpreter.cout interp)
        | Parser.Crash => ParserCrashed (Interpreter.cout interp)
        | Parser.Hang => NotTerminated
        end
  end.

(** The body of [main] for a given source text [code]. *)
Definition entry_main (fuel : nat) (code : string) : outcome :=
  match Parser.new Lexer.nextToken fuel (Lexer.new code) with
  | Parser.Ok _ parser => top_level_loop fuel fuel parser Interpreter.new
  | Parser.Throw what => on_exception what []
  | Parser.Crash => ParserCrashed []
  | Parser.Hang => NotTerminated
  end.

(** The source text that [entry.cpp] passes, a raw string literal. *)
Definition entry_code : string :=
  "

        function main(): int 
        {
            for (let i: int = 0; i < 10; i++) {
                print(i);
            } //Our for loop

			return 0; //Our function return
        }

".

(** The same program on one line. *)
Definition canonical_code : string :=
  "function main(): int { for (let i: int = 0; i < 10; i++) { print(i); } return 0; }".

(** Parsing one expression / one top-level construct of a source text. *)
Definition parse_expression (fuel : nat) (code : string) : Parser.result Lexer.t ASTNode :=
  Parser.bind (Parser.new Lexer.nextToken fuel (Lexer.new code))
              (fun _ p => Parser.parseExpression Lexer.nextToken fuel p).

Definition parse_top_level (fuel : nat) (code : string) : Parser.result Lexer.t ASTNode :=
  Parser.bind (Parser.new Lexer.nextToken fuel (Lexer.new code))
              (fun _ p => Parser.parseTopLevel Lexer.nextToken fuel p).

(** * Vocabulary of the statements proved below *)

(** ** Lexer *)

(** A token kind other than the two that the [switch] cannot produce. *)
Definition ordinary (ty : token_type.t) : Prop :=
  ty <> token_type.LessEqual /\ ty <> token_type.GreaterEqual.

(** A character that [skipWhitespace] neither skips nor inspects further. *)
Definition starts_token (c : ascii) : bool :=
  negb (Ascii.eqb c " " || Ascii.eqb c CR || Ascii.eqb c TAB || Ascii.eqb c LF
        || Ascii.eqb c "/").

(** The state after [advance] has consumed a character other than a newline
    from a freshly marked token start. *)
Definition stepped (lx : Lexer.t) : Lexer.t :=
  Lexer.set_position (Lexer.mark_start lx) (S (Lexer.current lx))
                     (Lexer.line lx) (Lexer.column lx + 1).

(** The condition under which the loop of [skipWhitespace] returns. *)
Definition skipWhitespace_returns (lx : Lexer.t) : bool :=
  let c := Lexer.peek lx in
  negb (Ascii.eqb c " " || Ascii.eqb c CR || Ascii.eqb c TAB)
  && negb (Ascii.eqb c LF)
  && negb (Ascii.eqb c "/" && Ascii.eqb (Lexer.peekNext lx) "/").

(** ** Interpreter *)


(** The environment after binding [names] to [vals] position by position,
    as far as both lists reach. *)
Definition bind_all (names : list string) (vals : list Z) (st : Interpreter.t) : Interpreter.t :=
  foldl (fun s nv => Interpreter.assign nv.1 nv.2 s) st (zip names vals).

(** [std::dynamic_pointer_cast<ReturnStmt>(stmt) != nullptr] *)
Definition is_return (stmt : ASTNode) : bool :=
  match stmt with
  | ReturnStmt _ _ _ => true
  | _ => false
  end.

(** ** Parser *)

(** The node that [parseBinaryExpression] builds for a token that is a
    primary expression on its own. *)
Definition primary_node (tk : Token) : option ASTNode :=
  match type tk with
  | token_type.Number =>
      match stoi (lexeme tk) with
      | inl value => Some (NumberLiteral (line tk) (column tk) value)
      | inr _ => None
      end
  | token_type.Identifier => Some (Identifier (line tk) (column tk) (lexeme tk))
  | _ => None
  end.

(** A token after which [parseExpression] returns what it has. *)
Definition ends_expression (ty : token_type.t) : bool :=
  match ty with
  | token_type.Equal | token_type.PlusPlus | token_type.MinusMinus
  | token_type.LParen | token_type.LBracket => false
  | _ => negb (Parser.is_binary_operator ty)
  end.

(** [a op1 (b op2 (c ...))] for the first operand [a] and the following
    (operator token, operand) pairs. *)
Fixpoint right_nested (a : ASTNode) (rest : list (Token * ASTNode)) : ASTNode :=
  match rest with
  | [] => a
  | (op, b) :: rest' =>
      BinaryExpr (line op) (column op) (lexeme op) a (right_nested b rest')
  end.

(** The token source hands out [tk] and moves from [l] to [l']. *)
Definition yields {L : Type} (nextToken : nat -> L -> option (Token * L))
           (l : L) (tk : Token) (l' : L) : Prop :=
  forall n : nat, nextToken (S n) l = Some (tk, l').

(** From [l] the source hands out the operator and operand tokens of
    [rest] in order and then the token [stop]. *)
Fixpoint yields_chain {L : Type} (nextToken : nat -> L -> option (Token * L))
         (l : L) (rest : list (Token * (Token * ASTNode))) (stop : Token) (l' : L) : Prop :=
  match rest with
  | [] => yields nextToken l stop l'
  | (op, (tk, _)) :: rest' =>
      exists l1 l2 : L,
        yields nextToken l op l1 /\ yields nextToken l1 tk l2
        /\ yields_chain nextToken l2 rest' stop l'
  end.

(** Every operator token is one of the loop of [parseBinaryExpression] and
    every operand token is a primary expression with the given node. *)
Definition well_formed_chain (rest : list (Token * (Token * ASTNode))) : Prop :=
  Forall (fun x => Parser.is_binary_operator (type x.1) = true
                   /\ primary_node x.2.1 = Some x.2.2) rest.

(** The value a parser call returns, if it returns normally. *)
Definition parsed {L A : Type} (r : Parser.result L A) : option A :=
  match r with
  | Parser.Ok a _ => Some a
  | _ => None
  end.

(** The tree [1 - (2 - 3)], with the positions of the text [1 - 2 - 3]. *)
Definition tree_1_2_3 : ASTNode :=
  BinaryExpr 1 3 "-" (NumberLiteral 1 1 1)
             (BinaryExpr 1 7 "-" (NumberLiteral 1 5 2) (NumberLiteral 1 9 3)).

(** A lexer on the first line of [src] with the given cursor, token start
    and columns. *)
Definition lexer_at (src : string) (cur start : nat) (col col_start : Z) : Lexer.t :=
  {| Lexer.source := src; Lexer.current := cur; Lexer.start := start;
     Lexer.line := 1; Lexer.column := col;
     Lexer.line_start := 1; Lexer.column_start := col_start |}.

(** A token source that replays a prepared list of tokens and then keeps
    answering with the end-of-input token. *)
Definition replay (_ : nat) (ts : list Token) : option (Token * list Token) :=
  match ts with
  | [] => Some (mkToken token_type.End_ "" 0 0, [])
  | tk :: ts' => Some (tk, ts')
  end.

(** ** Sample programs and interpreter states *)

(** A [return] inside a loop body, followed by another statement. *)
Definition nested_return_code : string :=
  "function main(): int { for (let i: int = 0; i < 1; i++) { return 5; print(99); } return 7; }".

(** A call statement inside the block of [main], and the same statement at
    top level. *)
Definition call_in_block_code : string :=
  "function f(a: int): int { print(a); return a; } function main(): int { f(1); return 0; }".

Definition call_at_top_level_code : string :=
  "function f(a: int): int { print(a); return a; } f(1);".

(** The three characters [a], newline, [;]. *)
Definition newline_semicolon_code : string := String "a" (String LF (String ";" EmptyString)).

(** [function f(a: int): int { x = 5; let y: int = 1; print(x); return a + x; }] *)
Definition demo_f : FunctionDecl_t :=
  mkFunctionDecl 1 10 "f" [("a", "int")] "int"
    [ AssignStmt 1 27 "x" (NumberLiteral 1 31 5);
      VarDecl 1 34 "y" "int" (NumberLiteral 1 47 1);
      PrintStmt 1 50 (Identifier 1 56 "x");
      ReturnStmt 1 60 (BinaryExpr 1 69 "+" (Identifier 1 67 "a") (Identifier 1 71 "x")) ].

(** [function g(a: int): int { x = 2; print(b); return a; }] *)
Definition demo_g : FunctionDecl_t :=
  mkFunctionDecl 1 10 "g" [("a", "int")] "int"
    [ AssignStmt 1 27 "x" (NumberLiteral 1 31 2);
      PrintStmt 1 34 (Identifier 1 40 "b");
      ReturnStmt 1 44 (Identifier 1 51 "a") ].

(** An interpreter with [f] and [g] declared, the environment [vars] and
    the lines [out] already printed. *)
Definition demo_interp (vars : gmap string Z) (out : list string) : Interpreter.t :=
  {| Interpreter.variables := vars;
     Interpreter.functions := <["g" := demo_g]> (<["f" := demo_f]> ∅);
     Interpreter.cout := out |}.

(** ** Vocabulary of the further properties *)

(** The cursor after [k] calls of [advance]. *)
Definition advanced (k : nat) (lx : Lexer.t) : Lexer.t :=
  Nat.iter k (fun l => snd (Lexer.advance l)) lx.

(** Line and column reached from [(ln, col)] by reading the first [n]
    characters of [s]: a newline starts the next line at column 1, every
    other character moves one column to the right. *)
Fixpoint position_from (s : string) (n : nat) (ln col : Z) {struct n} : Z * Z :=
  match n with
  | 0 => (ln, col)
  | S n' =>
      match s with
      | String c s' =>
          if Ascii.eqb c LF then position_from s' n' (ln + 1) 1
          else position_from s' n' ln (col + 1)
      | EmptyString => (ln, col)
      end
  end.

(** The 1-based line and column of the character at offset [n] of [s]. *)
Definition position_of (s : string) (n : nat) : Z * Z := position_from s n 1 1.

(** The cursor is inside the text and its line and column are those of the
    character it points at. *)
Definition tracked (lx : Lexer.t) : Prop :=
  Lexer.current lx <= String.length (Lexer.source lx)
  /\ (Lexer.line lx, Lexer.column lx) = position_of (Lexer.source lx) (Lexer.current lx).

(** The state in which [nextToken] cannot return: after the blanks the next
    character is a semicolon whose predecessor is a newline. *)
Definition semicolon_after_newline (lx : Lexer.t) : Prop :=
  Lexer.peek (Lexer.skipWhitespace lx) = ";"%char
  /\ 1 <= Lexer.current (Lexer.skipWhitespace lx)
  /\ char_at (Lexer.source lx) (Lexer.current (Lexer.skipWhitespace lx) - 1) = LF.

(** [tk] was built by [makeToken] or [errorToken] in the state [lx]. *)
Definition well_made (tk : Token) (lx : Lexer.t) : Prop :=
  tk = Lexer.makeToken (type tk) lx \/ exists msg : string, tk = Lexer.errorToken msg lx.

(** [tk] and [lx'] come out of a scanner that started in [lx]: the token
    is built in [lx'], it is not the end-of-input token, and [lx'] is [lx]
    after some calls of [advance]. *)
Definition scanned (lx : Lexer.t) (tk : Token) (lx' : Lexer.t) : Prop :=
  well_made tk lx' /\ type tk <> token_type.End_ /\ exists j : nat, lx' = advanced j lx.

(** The token kinds for which [nextToken] has a branch. *)
Definition producible (ty : token_type.t) : bool :=
  match ty with
  | token_type.LessEqual | token_type.GreaterEqual | token_type.BangEqual => false
  | _ => true
  end.

(** One source text per producible kind, whose first token has that kind. *)
Definition kind_samples : list (token_type.t * string) :=
  [ (token_type.Identifier, "x1"); (token_type.Number, "3.14");
    (token_type.String, String DQUOTE (String "s" (String DQUOTE EmptyString)));
    (token_type.Let, "let"); (token_type.Const, "const"); (token_type.Class, "class");
    (token_type.Function, "function"); (token_type.Int, "int");
    (token_type.Double, "double"); (token_type.Bool, "bool");
    (token_type.Return, "return"); (token_type.Plus, "+"); (token_type.Minus, "-");
    (token_type.Star, "*"); (token_type.Slash, "/"); (token_type.Equal, "=");
    (token_type.EqualEqual, "=="); (token_type.PlusPlus, "++");
    (token_type.LParen, "("); (token_type.RParen, ")"); (token_type.LBrace, "{");
    (token_type.RBrace, "}"); (token_type.Semicolon, ";"); (token_type.Colon, ":");
    (token_type.Comma, ","); (token_type.Print, "print"); (token_type.MinusMinus, "--");
    (token_type.For, "for"); (token_type.While, "while"); (token_type.In, "in");
    (token_type.Less, "<"); (token_type.Greater, ">");
    (token_type.LBracket, "["); (token_type.RBracket, "]");
    (token_type.End_, ""); (token_type.Unexpected, "!=") ].

(** The first token of [text] has kind [ty] and its lexeme is all of [text]
    (for the failure token: the whole lexeme is the message). *)
Definition first_token_is (ty : token_type.t) (text : string) : bool :=
  match Lexer.nextToken 1 (Lexer.new text) with
  | Some (tk, _) =>
      bool_decide (type tk = ty)
      && (bool_decide (ty = token_type.Unexpected) || String.eqb (lexeme tk) text)
  | None => false
  end.

(** The token kinds of the keyword table. *)
Definition keyword_kind (ty : token_type.t) : bool :=
  existsb (fun kv => bool_decide (kv.2 = ty)) Lexer.keywords.

(** The kind of [tk] is the one that the keyword table gives for its
    lexeme, [Identifier] standing for a lexeme that is not in the table. *)
Definition kind_by_table (tk : Token) : Prop :=
  (type tk = token_type.Identifier ->
   Lexer.keywords_find Lexer.keywords (lexeme tk) = None)
  /\ (keyword_kind (type tk) = true ->
      Lexer.keywords_find Lexer.keywords (lexeme tk) = Some (type tk)).

(** [st'] has the function table of [st], its output starts with the
    output of [st], and every variable bound in [st] is bound in [st']. *)
Definition extends (st st' : Interpreter.t) : Prop :=
  Interpreter.functions st' = Interpreter.functions st
  /\ Interpreter.cout st `prefix_of` Interpreter.cout st'
  /\ dom (Interpreter.variables st) ⊆ dom (Interpreter.variables st').

(** The state in which a call ends, however it ends, extends [st]. *)
Definition outcome_extends {A : Type} (st : Interpreter.t) (r : Interpreter.result A) : Prop :=
  match r with
  | Interpreter.Ok _ st' | Interpreter.Throw _ st' | Interpreter.Undefined _ st' =>
      extends st st'
  | Interpreter.OutOfFuel => True
  end.

(** Source positions of the nodes of a counting loop. *)
Record loop_positions : Set := {
  at_init : Z * Z;
  at_less : Z * Z;  at_less_var : Z * Z;  at_bound : Z * Z;
  at_incr : Z * Z;  at_incr_var : Z * Z;
  at_print : Z * Z; at_print_var : Z * Z
}.

(** The three parts of a counting loop over the variable [i], as the parser
    builds them for [i < b], [i++] and [print(i);]. *)
Definition counting_condition (p : loop_positions) (i : string) (b : Z) : ASTNode :=
  BinaryExpr (at_less p).1 (at_less p).2 "<"
    (Identifier (at_less_var p).1 (at_less_var p).2 i)
    (NumberLiteral (at_bound p).1 (at_bound p).2 b).

Definition counting_increment (p : loop_positions) (i : string) : ASTNode :=
  AssignStmt (at_incr p).1 (at_incr p).2 i
    (BinaryExpr (at_incr p).1 (at_incr p).2 "+"
       (Identifier (at_incr_var p).1 (at_incr_var p).2 i)
       (NumberLiteral (at_incr p).1 (at_incr p).2 1)).

Definition counting_body (p : loop_positions) (i : string) : list ASTNode :=
  [PrintStmt (at_print p).1 (at_print p).2
     (Identifier (at_print_var p).1 (at_print_var p).2 i)].

(** The state [st] after [n] rounds of the loop: the [n] values [a],
    [a + 1], ... are printed and [i] holds [a + n]. *)
Definition counted (i : string) (a : Z) (n : nat) (st : Interpreter.t) : Interpreter.t :=
  {| Interpreter.variables := <[i := (a + Z.of_nat n)%Z]> (Interpreter.variables st);
     Interpreter.functions := Interpreter.functions st;
     Interpreter.cout :=
       (Interpreter.cout st
          ++ map (fun j => to_string (a + Z.of_nat j)) (seq 0 n))%list |}.

(** [for (let i: ty = a; i < b; i++) { print(i); }] as the parser builds it. *)
Definition counting_for (p : loop_positions) (l c : Z) (decl : Z * Z * string)
           (i : string) (a b : Z) : ASTNode :=
  ForStmt l c
    (Some (VarDecl decl.1.1 decl.1.2 i decl.2 (NumberLiteral (at_init p).1 (at_init p).2 a)))
    (Some (counting_condition p i b)) (Some (counting_increment p i))
    (counting_body p i).

(** The declaration [function name(params) { return x; }] as the table
    holds it. *)
Definition reader (l c : Z) (name : string) (params : list (string * string))
           (returnType : string) (at_return at_x : Z * Z) (x : string) : FunctionDecl_t :=
  {| fd_line := l; fd_column := c; fd_name := name; fd_params := params;
     fd_returnType := returnType;
     fd_body := [ReturnStmt at_return.1 at_return.2 (Identifier at_x.1 at_x.2 x)] |}.

(** What [parseExpression] builds for [name++] ([op] is [+]) and [name--]
    ([op] is [-]): the assignment [name = name op 1], placed at the
    operator token [tk]. *)
Definition step_assignment (var tk : Token) (op : string) : ASTNode :=
  AssignStmt (line tk) (column tk) (lexeme var)
    (BinaryExpr (line tk) (column tk) op
       (Identifier (line var) (column var) (lexeme var))
       (NumberLiteral (line tk) (column tk) 1)).

(** The operator and operand tokens of [* b + c - 4] behind a first
    operand at column 1, with the nodes of the operands. *)
Definition sample_chain : list (Token * (Token * ASTNode)) :=
  [ (mkToken token_type.Star "*" 1 3,
     (mkToken token_type.Identifier "b" 1 5, Identifier 1 5 "b"));
    (mkToken token_type.Plus "+" 1 7,
     (mkToken token_type.Identifier "c" 1 9, Identifier 1 9 "c"));
    (mkToken token_type.Minus "-" 1 11,
     (mkToken token_type.Number "4" 1 13, NumberLiteral 1 13 4)) ].

(** Two lines of source text: [a = 1] and, indented by two blanks, [bc]. *)
Definition two_lines : string :=
  "a = 1" ++ String LF "  bc".

(** The trees that can stand where the grammar has an expression: names,
    numbers, operators, calls, index and array forms, and the assignment
    that [parseExpression] builds for [=], [++] and [--]. *)
Fixpoint expression_tree (n : ASTNode) : bool :=
  match n with
  | Identifier _ _ _ | NumberLiteral _ _ _ => true
  | BinaryExpr _ _ _ l r => expression_tree l && expression_tree r
  | AssignStmt _ _ _ value => expression_tree value
  | IndexExpr _ _ array index => expression_tree array && expression_tree index
  | CallExpr _ _ _ args => forallb expression_tree args
  | ArrayLiteral _ _ elements => forallb expression_tree elements
  | _ => false
  end.

(** [f] holds of the tree, if there is one. *)
Definition optional (f : ASTNode -> bool) (n : option ASTNode) : bool :=
  match n with
  | Some x => f x
  | None => true
  end.

(** The initializer of a [for]: absent, a declaration or an assignment. *)
Definition for_initializer (n : option ASTNode) : bool :=
  match n with
  | None => true
  | Some (VarDecl _ _ _ _ e) | Some (AssignStmt _ _ _ e) => expression_tree e
  | Some _ => false
  end.

(** The trees that can stand where the grammar has a statement. *)
Fixpoint statement_tree (n : ASTNode) : bool :=
  match n with
  | ReturnStmt _ _ e | PrintStmt _ _ e | ExpressionStmt _ _ e => expression_tree e
  | VarDecl _ _ _ _ e | AssignStmt _ _ _ e => expression_tree e
  | CallExpr _ _ _ args => forallb expression_tree args
  | ForStmt _ _ init condition increment body =>
      for_initializer init && optional expression_tree condition
      && optional expression_tree increment && forallb statement_tree body
  | WhileStmt _ _ condition body => expression_tree condition && forallb statement_tree body
  | _ => false
  end.

(** What [parseTopLevel] can hand to the driver: a statement, or a function
    declaration whose body is a list of statements. *)
Definition top_level_tree (n : ASTNode) : bool :=
  match n with
  | FunctionDecl _ _ _ _ _ body => forallb statement_tree body
  | _ => statement_tree n
  end.

(** [good] holds of the value of [r] if [r] is a normal return. *)
Definition builds {L A : Type} (good : A -> Prop) (r : Parser.result L A) : Prop :=
  match r with
  | Parser.Ok a _ => good a
  | _ => True
  end.

(** The two messages of [evalArray]. *)
Definition array_error (what : string) : bool :=
  String.eqb what "Unsupported iterable type"
  || String.prefix "Array support not implemented yet for: " what.

(** The parser call does not end in one of the messages of [evalArray]. *)
Definition parser_quiet {L A : Type} (r : Parser.result L A) : Prop :=
  match r with
  | Parser.Throw what => array_error what = false
  | _ => True
  end.

(** The interpreter call does not end in one of the messages of
    [evalArray]. *)
Definition quiet {A : Type} (r : Interpreter.result A) : Prop :=
  match r with
  | Interpreter.Throw what _ => array_error what = false
  | _ => True
  end.

(** Every declared function has a body of statements. *)
Definition table_of_statements (st : Interpreter.t) : Prop :=
  forall (name : string) (func : FunctionDecl_t),
    Interpreter.functions st !! name = Some func ->
    forallb statement_tree (fd_body func) = true.

(** A tree that [execStatement] may be handed by a parsed program: a
    statement, or the expression in the increment place of a [for]. *)
Definition runnable (n : ASTNode) : bool := statement_tree n || expression_tree n.

(** * Properties *)

(** ** Lexer *)

Example lex_let :
  option_map (map (fun tk => (type tk, lexeme tk, line tk)))
    (Lexer.tokens 1 20 (Lexer.new "let x: int = 1 + 2;"))
  = Some [ (token_type.Let, "let", 1%Z); (token_type.Identifier, "x", 1%Z);
           (token_type.Colon, ":", 1%Z); (token_type.Int, "int", 1%Z);
           (token_type.Equal, "=", 1%Z); (token_type.Number, "1", 1%Z);
           (token_type.Plus, "+", 1%Z); (token_type.Number, "2", 1%Z);
           (token_type.Semicolon, ";", 1%Z); (token_type.End_, "", 1%Z) ].
Proof. vm_compute. reflexivity. Qed.

Lemma char_int_range (c : ascii) : (-128 <= char_int c < 128)%Z.
Proof.
  unfold char_int.
  pose proof (nat_ascii_bounded c) as Hb.
  destruct (Z.ltb_spec (Z.of_nat (nat_of_ascii c)) 128); lia.
Qed.

Lemma char_int_not_multichar (c a b : ascii) :
  (128 <= multichar_const a b)%Z -> (char_int c =? multichar_const a b)%Z = false.
Proof.
  intros H. apply Z.eqb_neq. pose proof (char_int_range c). lia.
Qed.

Lemma keywords_find_type (text : string) (ty : token_type.t) :
  Lexer.keywords_find Lexer.keywords text = Some ty ->
  ty <> token_type.LessEqual /\ ty <> token_type.GreaterEqual.
Proof.
  unfold Lexer.keywords. cbn [Lexer.keywords_find].
  repeat (destruct (String.eqb _ text); [intros [= <-]; split; discriminate |]).
  discriminate.
Qed.

Lemma identifier_type (lx : Lexer.t) tk lx' :
  Lexer.identifier lx = (tk, lx') -> ordinary (type tk).
Proof.
  unfold Lexer.identifier.
  destruct (Lexer.keywords_find _ _) eqn:E; intros [= <- _]; simpl.
  - exact (keywords_find_type _ _ E).
  - split; discriminate.
Qed.

Lemma number_type (lx : Lexer.t) tk lx' :
  Lexer.number lx = (tk, lx') -> ordinary (type tk).
Proof. unfold Lexer.number. intros [= <- _]. split; discriminate. Qed.

Lemma stringLiteral_type (lx : Lexer.t) tk lx' :
  Lexer.stringLiteral lx = (tk, lx') -> ordinary (type tk).
Proof.
  unfold Lexer.stringLiteral.
  destruct (Lexer.isAtEnd _); intros [= <- _]; split; discriminate.
Qed.

Lemma one_or_two_type (e : ascii) (ty2 ty1 : token_type.t) (lx : Lexer.t) tk lx' :
  ordinary ty2 -> ordinary ty1 ->
  Lexer.one_or_two e ty2 ty1 lx = Some (tk, lx') -> ordinary (type tk).
Proof.
  intros H2 H1. unfold Lexer.one_or_two.
  destruct (Lexer.match_ e lx) as [[] l]; intros [= <- _]; assumption.
Qed.

Lemma nextToken_ordinary (fuel : nat) :
  forall (lx : Lexer.t) (tk : Token) (lx' : Lexer.t),
    Lexer.nextToken fuel lx = Some (tk, lx') -> ordinary (type tk).
Proof.
  induction fuel as [|fuel IH]; intros lx tk lx'; [discriminate|].
  cbn [Lexer.nextToken]. unfold Lexer.nextToken_body.
  destruct (Lexer.isAtEnd _); [intros [= <- _]; split; discriminate|].
  destruct (Lexer.advance _) as [c lx1].
  destruct (Lexer.isAlpha c).
  { intros E. apply (identifier_type lx1 tk lx'). congruence. }
  destruct (isdigit c).
  { intros E. apply (number_type lx1 tk lx'). congruence. }
  destruct (Ascii.eqb c DQUOTE).
  { intros E. apply (stringLiteral_type lx1 tk lx'). congruence. }
  rewrite !char_int_not_multichar by (vm_compute; discriminate).
  repeat match goal with
  | |- (if ?b then _ else _) = _ -> _ => destruct b
  end;
  try (intros [= <- _]; split; discriminate);
  try (apply one_or_two_type; split; discriminate).
  unfold Lexer.handleSemicolon.
  destruct (_ && _); [apply IH | intros [= <- _]; split; discriminate].
Qed.

(** *** Stepping the lexer over a known character *)

Lemma get_char_at (s : string) (i : nat) :
  (i < String.length s)%nat -> String.get i s = Some (char_at s i).
Proof.
  revert i. induction s as [|a s IH]; intros i Hi; simpl in Hi; [lia|].
  destruct i as [|i]; [reflexivity|].
  unfold char_at. simpl. specialize (IH i ltac:(lia)).
  unfold char_at in IH. destruct (String.get i s); [reflexivity | discriminate].
Qed.

Lemma substring_one (s : string) (i : nat) :
  (i < String.length s)%nat ->
  String.substring i 1 s = String (char_at s i) EmptyString.
Proof.
  revert i. induction s as [|a s IH]; intros i Hi; simpl in Hi; [lia|].
  destruct i as [|i].
  - simpl. destruct s; reflexivity.
  - simpl. rewrite IH by lia. reflexivity.
Qed.

Lemma peek_visible (lx : Lexer.t) (c : ascii) :
  Lexer.peek lx = c -> c <> NUL ->
  Lexer.isAtEnd lx = false /\ char_at (Lexer.source lx) (Lexer.current lx) = c.
Proof.
  unfold Lexer.peek. destruct (Lexer.isAtEnd lx); intros H Hc; [congruence | auto].
Qed.

Lemma isAtEnd_false (lx : Lexer.t) :
  Lexer.isAtEnd lx = false -> (Lexer.current lx < String.length (Lexer.source lx))%nat.
Proof. unfold Lexer.isAtEnd. intros H. apply Nat.leb_gt in H. exact H. Qed.

Lemma skipWhitespace_at_token (lx : Lexer.t) :
  starts_token (Lexer.peek lx) = true -> Lexer.skipWhitespace lx = lx.
Proof.
  unfold starts_token, Lexer.skipWhitespace. cbn [Lexer.skipWhitespace_loop].
  destruct (Ascii.eqb (Lexer.peek lx) " "); [discriminate|].
  destruct (Ascii.eqb (Lexer.peek lx) CR); [discriminate|].
  destruct (Ascii.eqb (Lexer.peek lx) TAB); [discriminate|].
  destruct (Ascii.eqb (Lexer.peek lx) LF); [discriminate|].
  destruct (Ascii.eqb (Lexer.peek lx) "/"); [discriminate|].
  reflexivity.
Qed.

Lemma advance_marked (lx : Lexer.t) (c : ascii) :
  Lexer.peek lx = c -> c <> NUL -> c <> LF ->
  Lexer.advance (Lexer.mark_start lx) = (c, stepped lx).
Proof.
  intros Hp Hn Hl. destruct (peek_visible lx c Hp Hn) as [He Hc].
  unfold Lexer.advance.
  change (Lexer.isAtEnd (Lexer.mark_start lx)) with (Lexer.isAtEnd lx). rewrite He.
  change (char_at (Lexer.source (Lexer.mark_start lx)) (Lexer.current (Lexer.mark_start lx)))
    with (char_at (Lexer.source lx) (Lexer.current lx)).
  rewrite Hc. apply Ascii.eqb_neq in Hl. rewrite Hl. reflexivity.
Qed.

Lemma makeToken_stepped (ty : token_type.t) (lx : Lexer.t) :
  Lexer.isAtEnd lx = false ->
  Lexer.makeToken ty (stepped lx)
  = mkToken ty (String (char_at (Lexer.source lx) (Lexer.current lx)) EmptyString)
            (Lexer.line lx) (Lexer.column lx).
Proof.
  intros He. unfold Lexer.makeToken, stepped. simpl.
  replace (S (Lexer.current lx) - Lexer.current lx)%nat with 1%nat by lia.
  rewrite substring_one by (apply isAtEnd_false; exact He). reflexivity.
Qed.

Lemma advance_source (lx : Lexer.t) :
  Lexer.source (snd (Lexer.advance lx)) = Lexer.source lx.
Proof.
  unfold Lexer.advance. destruct (Lexer.isAtEnd lx); [reflexivity|].
  destruct (Ascii.eqb _ LF); reflexivity.
Qed.

Lemma skipLine_source (k : nat) :
  forall lx : Lexer.t, Lexer.source (Lexer.skipLine k lx) = Lexer.source lx.
Proof.
  induction k as [|k IH]; intros lx; [reflexivity|].
  cbn [Lexer.skipLine]. destruct (_ && _); [|reflexivity].
  rewrite IH. apply advance_source.
Qed.

Lemma skipWhitespace_loop_source (k : nat) :
  forall lx : Lexer.t, Lexer.source (Lexer.skipWhitespace_loop k lx) = Lexer.source lx.
Proof.
  induction k as [|k IH]; intros lx; [reflexivity|].
  cbn [Lexer.skipWhitespace_loop].
  repeat match goal with
  | |- context [if ?b then _ else _] => destruct b
  end; try reflexivity; rewrite IH;
    first [apply advance_source | apply skipLine_source].
Qed.

Lemma skipWhitespace_source (lx : Lexer.t) :
  Lexer.source (Lexer.skipWhitespace lx) = Lexer.source lx.
Proof. apply skipWhitespace_loop_source. Qed.

(** *** The scanning loops leave by their own condition

    Each scanning loop of the lexer is given [S (remaining lx)] rounds.
    The lemmas below show that this is enough: the state that the loop
    returns is one where the condition of the C++ loop is false. *)

Lemma peek_at_end (lx : Lexer.t) : Lexer.isAtEnd lx = true -> Lexer.peek lx = NUL.
Proof. unfold Lexer.peek. intros ->. reflexivity. Qed.

Lemma advance_remaining (lx : Lexer.t) :
  Lexer.isAtEnd lx = false ->
  S (Lexer.remaining (snd (Lexer.advance lx))) = Lexer.remaining lx.
Proof.
  intros He. pose proof (isAtEnd_false lx He) as Hlt.
  unfold Lexer.advance. rewrite He.
  destruct (Ascii.eqb _ LF); unfold Lexer.remaining; simpl; lia.
Qed.

Lemma advance_remaining_le (lx : Lexer.t) :
  Lexer.remaining (snd (Lexer.advance lx)) <= Lexer.remaining lx.
Proof.
  destruct (Lexer.isAtEnd lx) eqn:He.
  - unfold Lexer.advance. rewrite He. simpl. lia.
  - pose proof (advance_remaining lx He). lia.
Qed.

Lemma advance_while_exits (pred : ascii -> bool) (k : nat) :
  pred NUL = false ->
  forall lx : Lexer.t,
    Lexer.remaining lx < k ->
    pred (Lexer.peek (Lexer.advance_while pred k lx)) = false.
Proof.
  intros Hnul. induction k as [|k IH]; intros lx Hk; [lia|].
  cbn [Lexer.advance_while].
  destruct (pred (Lexer.peek lx)) eqn:Hp; [|exact Hp].
  destruct (Lexer.isAtEnd lx) eqn:He.
  - rewrite (peek_at_end lx He) in Hp. congruence.
  - apply IH. pose proof (advance_remaining lx He). lia.
Qed.

Lemma skipLine_exits (k : nat) :
  forall lx : Lexer.t,
    Lexer.remaining lx < k ->
    Lexer.peek (Lexer.skipLine k lx) = LF \/ Lexer.isAtEnd (Lexer.skipLine k lx) = true.
Proof.
  induction k as [|k IH]; intros lx Hk; [lia|].
  cbn [Lexer.skipLine].
  destruct (Ascii.eqb_spec (Lexer.peek lx) LF) as [Hp|Hp]; [left; exact Hp|].
  destruct (Lexer.isAtEnd lx) eqn:He; [right; exact He|].
  cbn [negb andb]. apply IH. pose proof (advance_remaining lx He). lia.
Qed.

Lemma skipLine_remaining_le (k : nat) :
  forall lx : Lexer.t, Lexer.remaining (Lexer.skipLine k lx) <= Lexer.remaining lx.
Proof.
  induction k as [|k IH]; intros lx; [reflexivity|].
  cbn [Lexer.skipLine]. destruct (_ && _); [|reflexivity].
  etransitivity; [apply IH | apply advance_remaining_le].
Qed.

Lemma stringLiteral_loop_exits (k : nat) :
  forall lx : Lexer.t,
    Lexer.remaining lx < k ->
    Lexer.peek (Lexer.stringLiteral_loop k lx) = DQUOTE
    \/ Lexer.isAtEnd (Lexer.stringLiteral_loop k lx) = true.
Proof.
  induction k as [|k IH]; intros lx Hk; [lia|].
  cbn [Lexer.stringLiteral_loop].
  destruct (Ascii.eqb_spec (Lexer.peek lx) DQUOTE) as [Hp|Hp]; [left; exact Hp|].
  destruct (Lexer.isAtEnd lx) eqn:He; [right; exact He|].
  cbn [negb andb]. apply IH.
  pose proof (advance_remaining lx He) as H1.
  destruct (Ascii.eqb (Lexer.peek lx) "\").
  - pose proof (advance_remaining_le (snd (Lexer.advance lx))). lia.
  - lia.
Qed.

Lemma skipWhitespace_loop_exits (k : nat) :
  forall lx : Lexer.t,
    Lexer.remaining lx < k ->
    skipWhitespace_returns (Lexer.skipWhitespace_loop k lx) = true.
Proof.
  induction k as [|k IH]; intros lx Hk; [lia|].
  cbn [Lexer.skipWhitespace_loop].
  assert (Hvisible : forall c : ascii, Lexer.peek lx = c -> c <> NUL ->
                      S (Lexer.remaining (snd (Lexer.advance lx))) = Lexer.remaining lx).
  { intros c Hp Hc. destruct (peek_visible lx c Hp Hc) as [He _].
    apply advance_remaining. exact He. }
  destruct (Ascii.eqb_spec (Lexer.peek lx) " ") as [H1|H1].
  { apply IH. pose proof (Hvisible _ H1 ltac:(discriminate)). lia. }
  destruct (Ascii.eqb_spec (Lexer.peek lx) CR) as [H2|H2].
  { apply IH. pose proof (Hvisible _ H2 ltac:(discriminate)). lia. }
  destruct (Ascii.eqb_spec (Lexer.peek lx) TAB) as [H3|H3].
  { apply IH. pose proof (Hvisible _ H3 ltac:(discriminate)). lia. }
  cbn [orb].
  destruct (Ascii.eqb_spec (Lexer.peek lx) LF) as [H4|H4].
  { apply IH. pose proof (Hvisible _ H4 ltac:(discriminate)). lia. }
  assert (Hspace : skipWhitespace_returns lx
                   = negb (Ascii.eqb (Lexer.peek lx) "/"
                           && Ascii.eqb (Lexer.peekNext lx) "/")).
  { unfold skipWhitespace_returns.
    apply Ascii.eqb_neq in H1, H2, H3, H4. rewrite H1, H2, H3, H4. reflexivity. }
  destruct (Ascii.eqb_spec (Lexer.peek lx) "/") as [H5|H5].
  - destruct (Ascii.eqb_spec (Lexer.peekNext lx) "/") as [H6|H6].
    + apply IH.
      destruct (peek_visible lx _ H5 ltac:(discriminate)) as [He _].
      assert (Hstep : Lexer.skipLine (S (Lexer.remaining lx)) lx
                      = Lexer.skipLine (Lexer.remaining lx) (snd (Lexer.advance lx))).
      { cbn [Lexer.skipLine]. rewrite H5, He. reflexivity. }
      rewrite Hstep.
      pose proof (skipLine_remaining_le (Lexer.remaining lx) (snd (Lexer.advance lx))).
      pose proof (advance_remaining lx He). lia.
    + rewrite Hspace. reflexivity.
  - rewrite Hspace. reflexivity.
Qed.

(** [skipWhitespace] stops where the C++ loop returns, and the scanners of
    identifiers, numbers and strings stop where their loops do. *)
Lemma skipWhitespace_exits (lx : Lexer.t) :
  skipWhitespace_returns (Lexer.skipWhitespace lx) = true.
Proof. apply skipWhitespace_loop_exits. lia. Qed.

Lemma identifier_scans_to_the_end (lx : Lexer.t) :
  Lexer.isAlphaNumeric (Lexer.peek (snd (Lexer.identifier lx))) = false.
Proof.
  unfold Lexer.identifier.
  destruct (Lexer.keywords_find _ _); cbn [snd];
    apply advance_while_exits; solve [reflexivity | lia].
Qed.

(** A semicolon that directly follows a newline: [handleSemicolon] steps the
    cursor back onto the semicolon and calls [nextToken], which reads the
    same semicolon again. *)
Lemma nextToken_semicolon_after_newline (fuel : nat) :
  forall lx : Lexer.t,
    Lexer.peek lx = ";"%char ->
    (1 <= Lexer.current lx)%nat ->
    char_at (Lexer.source lx) (Lexer.current lx - 1) = LF ->
    Lexer.nextToken fuel lx = None.
Proof.
  induction fuel as [|fuel IH]; intros lx Hp Hc Hn; [reflexivity|].
  cbn [Lexer.nextToken]. unfold Lexer.nextToken_body.
  rewrite skipWhitespace_at_token by (rewrite Hp; reflexivity).
  destruct (peek_visible lx _ Hp ltac:(discriminate)) as [He Hch].
  change (Lexer.isAtEnd (Lexer.mark_start lx)) with (Lexer.isAtEnd lx). rewrite He.
  rewrite (advance_marked lx _ Hp) by discriminate.
  match goal with
  | |- ?lhs = _ =>
      change lhs with (Lexer.handleSemicolon (Lexer.nextToken fuel) (stepped lx))
  end.
  unfold Lexer.handleSemicolon.
  change (Lexer.current (stepped lx)) with (S (Lexer.current lx)).
  change (Lexer.source (stepped lx)) with (Lexer.source lx).
  replace (S (Lexer.current lx) - 2)%nat with (Lexer.current lx - 1)%nat by lia.
  replace (S (Lexer.current lx) - 1)%nat with (Lexer.current lx) by lia.
  rewrite Hn.
  replace (1 <? S (Lexer.current lx))%nat with true by (symmetry; apply Nat.ltb_lt; lia).
  change (true && Ascii.eqb LF LF) with true. cbv iota.
  apply IH.
  - unfold Lexer.peek in *. exact Hp.
  - exact Hc.
  - exact Hn.
Qed.

(** A [<] or [>] directly followed by one [=]: two calls, two tokens. *)
Lemma nextToken_angle_then_equal (c : ascii) (ty : token_type.t) (lx : Lexer.t) :
  (c = "<"%char /\ ty = token_type.Less) \/ (c = ">"%char /\ ty = token_type.Greater) ->
  Lexer.peek lx = c ->
  Lexer.peekNext lx = "="%char ->
  char_at (Lexer.source lx) (Lexer.current lx + 2) <> "="%char ->
  forall n m : nat,
    Lexer.nextToken (S n) lx
    = Some (mkToken ty (String c EmptyString) (Lexer.line lx) (Lexer.column lx), stepped lx)
    /\ exists lx2 : Lexer.t,
        Lexer.nextToken (S m) (stepped lx)
        = Some (mkToken token_type.Equal "=" (Lexer.line lx) (Lexer.column lx + 1), lx2)
        /\ Lexer.current lx2 = (Lexer.current lx + 2)%nat.
Proof.
  intros Hc Hp Hq Hr n m.
  assert (Hnn : c <> NUL) by (destruct Hc as [[-> _]|[-> _]]; discriminate).
  assert (Hnl : c <> LF) by (destruct Hc as [[-> _]|[-> _]]; discriminate).
  destruct (peek_visible lx c Hp Hnn) as [He Hch].
  assert (Hq' : Lexer.peek (stepped lx) = "="%char).
  { revert Hq. unfold Lexer.peekNext, Lexer.peek, Lexer.isAtEnd. simpl.
    replace (Lexer.current lx + 1)%nat with (S (Lexer.current lx)) by lia.
    destruct (_ <=? _)%nat; [discriminate | auto]. }
  destruct (peek_visible _ _ Hq' ltac:(discriminate)) as [He' Hch'].
  split.
  - cbn [Lexer.nextToken]. unfold Lexer.nextToken_body.
    rewrite skipWhitespace_at_token
      by (rewrite Hp; destruct Hc as [[-> _]|[-> _]]; reflexivity).
    change (Lexer.isAtEnd (Lexer.mark_start lx)) with (Lexer.isAtEnd lx). rewrite He.
    rewrite (advance_marked lx c Hp Hnn Hnl).
    destruct Hc as [[-> ->]|[-> ->]].
    + match goal with
      | |- ?lhs = _ =>
          change lhs with (Some (Lexer.makeToken token_type.Less (stepped lx), stepped lx))
      end.
      rewrite (makeToken_stepped _ lx He), Hch. reflexivity.
    + match goal with
      | |- ?lhs = _ =>
          change lhs with (Some (Lexer.makeToken token_type.Greater (stepped lx), stepped lx))
      end.
      rewrite (makeToken_stepped _ lx He), Hch. reflexivity.
  - cbn [Lexer.nextToken]. unfold Lexer.nextToken_body.
    rewrite skipWhitespace_at_token by (rewrite Hq'; reflexivity).
    change (Lexer.isAtEnd (Lexer.mark_start (stepped lx)))
      with (Lexer.isAtEnd (stepped lx)). rewrite He'.
    rewrite (advance_marked _ _ Hq') by discriminate.
    match goal with
    | |- (exists l, ?lhs = _ /\ _) =>
        change lhs with (Lexer.one_or_two "=" token_type.EqualEqual token_type.Equal
                           (stepped (stepped lx)))
    end.
    unfold Lexer.one_or_two, Lexer.match_.
    assert (Hm : (if Lexer.isAtEnd (stepped (stepped lx)) then true
                  else negb (Ascii.eqb (char_at (Lexer.source (stepped (stepped lx)))
                                                (Lexer.current (stepped (stepped lx)))) "="))
                 = true).
    { destruct (Lexer.isAtEnd (stepped (stepped lx))); [reflexivity|].
      change (Lexer.source (stepped (stepped lx))) with (Lexer.source lx).
      change (Lexer.current (stepped (stepped lx))) with (S (S (Lexer.current lx))).
      replace (S (S (Lexer.current lx))) with (Lexer.current lx + 2)%nat by lia.
      apply Ascii.eqb_neq in Hr. rewrite Hr. reflexivity. }
    exists (stepped (stepped lx)). split.
    + destruct (Lexer.isAtEnd (stepped (stepped lx))).
      * rewrite (makeToken_stepped _ _ He'), Hch'. reflexivity.
      * destruct (negb _); [|discriminate].
        rewrite (makeToken_stepped _ _ He'), Hch'. reflexivity.
    + simpl. lia.
Qed.

(** An unterminated string gives a failure token. *)
Example lex_unterminated_string :
  forall fuel : nat,
    option_map fst (Lexer.nextToken (S fuel) (Lexer.new (String DQUOTE "abc")))
    = Some (mkToken token_type.Unexpected "Unterminated string" 1 1).
Proof. intros fuel. reflexivity. Qed.

(** Claim C8.  No call of [nextToken] returns a token of kind [LessEqual]
    or [GreaterEqual], whatever the input: the labels ['<='] and ['>='] of
    the [switch] are two-character constants that no single [char] equals.
    A [<] (or [>]) directly followed by one [=] is scanned as a [Less] (or
    [Greater]) token with lexeme [<] (or [>]) followed by an [Equal] token
    with lexeme [=]; in particular the texts [<=] and [>=] give exactly
    these two tokens and then the end of input. *)
Theorem lexer_never_yields_LessEqual_GreaterEqual :
  (forall (fuel : nat) (lx lx' : Lexer.t) (tk : Token),
      Lexer.nextToken fuel lx = Some (tk, lx') ->
      type tk <> token_type.LessEqual /\ type tk <> token_type.GreaterEqual)
  /\ (forall (c : ascii) (ty : token_type.t) (lx : Lexer.t),
        (c = "<"%char /\ ty = token_type.Less) \/ (c = ">"%char /\ ty = token_type.Greater) ->
        Lexer.peek lx = c ->
        Lexer.peekNext lx = "="%char ->
        char_at (Lexer.source lx) (Lexer.current lx + 2) <> "="%char ->
        forall n m : nat,
          Lexer.nextToken (S n) lx
          = Some (mkToken ty (String c EmptyString) (Lexer.line lx) (Lexer.column lx),
                  stepped lx)
          /\ exists lx2 : Lexer.t,
              Lexer.nextToken (S m) (stepped lx)
              = Some (mkToken token_type.Equal "=" (Lexer.line lx) (Lexer.column lx + 1), lx2)
              /\ Lexer.current lx2 = (Lexer.current lx + 2)%nat)
  /\ option_map (map (fun tk => (type tk, lexeme tk))) (Lexer.tokens 1 5 (Lexer.new "<="))
     = Some [ (token_type.Less, "<"); (token_type.Equal, "="); (token_type.End_, "") ]
  /\ option_map (map (fun tk => (type tk, lexeme tk))) (Lexer.tokens 1 5 (Lexer.new ">="))
     = Some [ (token_type.Greater, ">"); (token_type.Equal, "="); (token_type.End_, "") ].
Proof.
  split; [|split; [|split; vm_compute; reflexivity]].
  - intros fuel lx lx' tk H. exact (nextToken_ordinary fuel lx tk lx' H).
  - intros c ty lx. apply nextToken_angle_then_equal.
Qed.

Lemma lexer_never_yields_LessEqual_GreaterEqual_witness :
  (Lexer.nextToken 1 (Lexer.new "<=")
   = Some (mkToken token_type.Less "<" 1 1, stepped (Lexer.new "<="))
   /\ token_type.Less <> token_type.LessEqual /\ token_type.Less <> token_type.GreaterEqual)
  /\ Lexer.peek (Lexer.new "<=") = "<"%char
  /\ Lexer.peekNext (Lexer.new "<=") = "="%char
  /\ char_at "<=" 2 <> "="%char
  /\ exists lx2 : Lexer.t,
      Lexer.nextToken 1 (stepped (Lexer.new "<="))
      = Some (mkToken token_type.Equal "=" 1 2, lx2)
      /\ Lexer.current lx2 = 2.
Proof.
  assert (Hfirst : Lexer.nextToken 1 (Lexer.new "<=")
                   = Some (mkToken token_type.Less "<" 1 1, stepped (Lexer.new "<=")))
    by reflexivity.
  assert (Hnext : char_at "<=" 2 <> "="%char) by discriminate.
  split; [split; [exact Hfirst|]|].
  - exact (proj1 lexer_never_yields_LessEqual_GreaterEqual 1 (Lexer.new "<=") _ _ Hfirst).
  - split; [reflexivity|]. split; [reflexivity|]. split; [exact Hnext|].
    exact (proj2 (proj1 (proj2 lexer_never_yields_LessEqual_GreaterEqual)
                    "<"%char token_type.Less (Lexer.new "<=")
                    (or_introl (conj eq_refl eq_refl)) eq_refl eq_refl Hnext 0 0)).
Defined.

(** Claim C7, at the inputs where the source departs from it.  When the
    next character after the skipped whitespace is a semicolon that directly
    follows a newline, the call of [nextToken] does not return at any
    recursion depth: [handleSemicolon] moves the cursor back onto the
    semicolon and calls [nextToken], which reads the same semicolon again. *)
Theorem nextToken_loops_on_semicolon_after_newline :
  forall lx : Lexer.t,
    Lexer.peek (Lexer.skipWhitespace lx) = ";"%char ->
    (1 <= Lexer.current (Lexer.skipWhitespace lx))%nat ->
    char_at (Lexer.source lx) (Lexer.current (Lexer.skipWhitespace lx) - 1) = LF ->
    forall fuel : nat, Lexer.nextToken fuel lx = None.
Proof.
  intros lx Hp Hc Hn fuel.
  assert (Hsrc : Lexer.source (Lexer.skipWhitespace lx) = Lexer.source lx)
    by apply skipWhitespace_source.
  assert (Hsame : Lexer.nextToken fuel lx = Lexer.nextToken fuel (Lexer.skipWhitespace lx)).
  { destruct fuel as [|fuel]; [reflexivity|].
    cbn [Lexer.nextToken]. unfold Lexer.nextToken_body.
    rewrite (skipWhitespace_at_token (Lexer.skipWhitespace lx))
      by (rewrite Hp; reflexivity).
    reflexivity. }
  rewrite Hsame.
  apply nextToken_semicolon_after_newline; [exact Hp | exact Hc |].
  rewrite Hsrc. exact Hn.
Qed.

Lemma nextToken_loops_on_semicolon_after_newline_witness :
  Lexer.peek (Lexer.skipWhitespace (lexer_at newline_semicolon_code 1 0 2 1)) = ";"%char
  /\ (1 <= Lexer.current (Lexer.skipWhitespace (lexer_at newline_semicolon_code 1 0 2 1)))%nat
  /\ char_at newline_semicolon_code
       (Lexer.current (Lexer.skipWhitespace (lexer_at newline_semicolon_code 1 0 2 1)) - 1)
     = LF
  /\ Lexer.nextToken 1000 (lexer_at newline_semicolon_code 1 0 2 1) = None.
Proof.
  assert (H1 : Lexer.peek (Lexer.skipWhitespace (lexer_at newline_semicolon_code 1 0 2 1))
               = ";"%char) by reflexivity.
  assert (H2 : (1 <= Lexer.current
                       (Lexer.skipWhitespace (lexer_at newline_semicolon_code 1 0 2 1)))%nat)
    by (vm_compute; lia).
  assert (H3 : char_at newline_semicolon_code
                 (Lexer.current
                    (Lexer.skipWhitespace (lexer_at newline_semicolon_code 1 0 2 1)) - 1)
               = LF) by reflexivity.
  split; [exact H1|]. split; [exact H2|]. split; [exact H3|].
  exact (nextToken_loops_on_semicolon_after_newline
           (lexer_at newline_semicolon_code 1 0 2 1) H1 H2 H3 1000).
Defined.

(** On the text [a], newline, [;] the first call returns the identifier and
    leaves the lexer in the state from which the second call never returns. *)
Example newline_semicolon_first_token :
  forall fuel : nat,
    Lexer.nextToken (S fuel) (Lexer.new newline_semicolon_code)
    = Some (mkToken token_type.Identifier "a" 1 1, lexer_at newline_semicolon_code 1 0 2 1).
Proof. intros fuel. reflexivity. Qed.

(** ** Interpreter *)

(** *** Expression evaluation *)



(** The host's division truncates toward zero. *)
Example division_truncates :
  forall st : Interpreter.t,
    Interpreter.binary_op "/" 7 2 st = Interpreter.Ok 3%Z st
    /\ Interpreter.binary_op "/" (-7) 2 st = Interpreter.Ok (-3)%Z st.
Proof. intros st. split; reflexivity. Qed.

(** *** Function invocation *)

Lemma execFunction_S (fuel : nat) (func : FunctionDecl_t) (args : list Z) (st : Interpreter.t) :
  Interpreter.execFunction (S fuel) func args st
  = Interpreter.bind (Interpreter.bind_params (fd_params func) 0 args st) (fun _ st1 =>
      Interpreter.bind (Interpreter.function_body fuel (fd_body func) 0 st1) (fun rv st2 =>
        Interpreter.Ok rv (Interpreter.set_variables (Interpreter.variables st) st2))).
Proof. reflexivity. Qed.

Lemma callFunction_S (fuel : nat) (name : string) (args : list Z) (st : Interpreter.t) :
  Interpreter.callFunction (S fuel) name args st
  = match Interpreter.functions st !! name with
    | None => Interpreter.Throw ("Function not found: " ++ name) st
    | Some func => Interpreter.execFunction fuel func args st
    end.
Proof. reflexivity. Qed.

Lemma execFunction_restores (fuel : nat) (func : FunctionDecl_t) (args : list Z)
      (st st' : Interpreter.t) (v : Z) :
  Interpreter.execFunction fuel func args st = Interpreter.Ok v st' ->
  Interpreter.variables st' = Interpreter.variables st.
Proof.
  destruct fuel as [|fuel]; [discriminate|].
  rewrite execFunction_S.
  destruct (Interpreter.bind_params _ _ _ _) as [[] st1| | |]; try discriminate.
  cbn [Interpreter.bind].
  destruct (Interpreter.function_body _ _ _ _) as [rv st2| | |]; try discriminate.
  cbn [Interpreter.bind]. intros [= _ <-]. reflexivity.
Qed.

Lemma callFunction_restores (fuel : nat) (name : string) (args : list Z)
      (st st' : Interpreter.t) (v : Z) :
  Interpreter.callFunction fuel name args st = Interpreter.Ok v st' ->
  Interpreter.variables st' = Interpreter.variables st.
Proof.
  destruct fuel as [|fuel]; [discriminate|].
  rewrite callFunction_S.
  destruct (Interpreter.functions st !! name) as [func|]; [|discriminate].
  apply execFunction_restores.
Qed.

(** The sample declarations are what the parser builds for their texts. *)
Example demo_functions_parse :
  forall k : nat,
    option_bind _ _ as_FunctionDecl
      (parsed (parse_top_level (30 + k)
         "function f(a: int): int { x = 5; let y: int = 1; print(x); return a + x; }"))
    = Some demo_f
    /\ option_bind _ _ as_FunctionDecl
         (parsed (parse_top_level (30 + k)
            "function g(a: int): int { x = 2; print(b); return a; }"))
       = Some demo_g.
Proof. intros k. split; vm_compute; reflexivity. Qed.

(** Claim C2.  When a call returns normally, the variable environment
    afterwards is the environment before the call: a variable that was
    unbound before is unbound again, and a variable that was bound has its
    old value, whatever the body did to it. *)
Theorem call_restores_environment :
  forall (fuel : nat) (name : string) (args : list Z) (st st' : Interpreter.t) (v : Z),
    Interpreter.callFunction fuel name args st = Interpreter.Ok v st' ->
    Interpreter.variables st' = Interpreter.variables st
    /\ (forall x : string,
          Interpreter.variables st !! x = None -> Interpreter.variables st' !! x = None)
    /\ (forall (x : string) (old : Z),
          Interpreter.variables st !! x = Some old ->
          Interpreter.variables st' !! x = Some old).
Proof.
  intros fuel name args st st' v H.
  rewrite (callFunction_restores _ _ _ _ _ _ H). auto.
Qed.

(** *** Expressions leave the environment as it was

    The only way for an expression to touch [variables] is a call, and a
    call that returns puts the saved environment back. *)

Lemma evalExpr_S (fuel : nat) (node : ASTNode) (st : Interpreter.t) :
  Interpreter.evalExpr (S fuel) node st
  = match node with
    | Identifier _ _ name =>
        match Interpreter.variables st !! name with
        | Some v => Interpreter.Ok v st
        | None => Interpreter.Throw ("Undefined variable: " ++ name) st
        end
    | BinaryExpr _ _ op l r =>
        Interpreter.bind (Interpreter.evalExpr fuel l st) (fun a st1 =>
          Interpreter.bind (Interpreter.evalExpr fuel r st1) (fun b st2 =>
            Interpreter.binary_op op a b st2))
    | NumberLiteral _ _ value => Interpreter.Ok value st
    | CallExpr _ _ funcName args =>
        Interpreter.bind (Interpreter.evalArgs fuel args [] st) (fun argvals st1 =>
          Interpreter.callFunction fuel funcName argvals st1)
    | _ => Interpreter.Throw "Unknown expression type" st
    end.
Proof. destruct node; reflexivity. Qed.

Lemma evalArgs_S (fuel : nat) (args : list ASTNode) (argvals : list Z) (st : Interpreter.t) :
  Interpreter.evalArgs (S fuel) args argvals st
  = match args with
    | [] => Interpreter.Ok argvals st
    | arg :: args' =>
        Interpreter.bind (Interpreter.evalExpr fuel arg st) (fun v st1 =>
          Interpreter.evalArgs fuel args' (push_back argvals v) st1)
    end.
Proof. destruct args; reflexivity. Qed.

Lemma binary_op_state (op : string) (a b v : Z) (st st' : Interpreter.t) :
  Interpreter.binary_op op a b st = Interpreter.Ok v st' -> st' = st.
Proof.
  unfold Interpreter.binary_op.
  repeat match goal with
  | |- context [if ?c then _ else _] => destruct c
  end; intros H; try discriminate H; injection H as _ <-; reflexivity.
Qed.

Lemma expressions_keep_environment (fuel : nat) :
  (forall (node : ASTNode) (st st' : Interpreter.t) (v : Z),
      Interpreter.evalExpr fuel node st = Interpreter.Ok v st' ->
      Interpreter.variables st' = Interpreter.variables st)
  /\ (forall (args : list ASTNode) (argvals vs : list Z) (st st' : Interpreter.t),
        Interpreter.evalArgs fuel args argvals st = Interpreter.Ok vs st' ->
        Interpreter.variables st' = Interpreter.variables st).
Proof.
  induction fuel as [|fuel [IHe IHa]]; (split; [intros node st st' v H | intros args argvals vs st st' H]);
    try discriminate H.
  - rewrite evalExpr_S in H. destruct node; try discriminate H.
    + destruct (Interpreter.evalExpr fuel node1 st) as [a st1| | |] eqn:E1;
        try discriminate H. cbn [Interpreter.bind] in H.
      destruct (Interpreter.evalExpr fuel node2 st1) as [b st2| | |] eqn:E2;
        try discriminate H. cbn [Interpreter.bind] in H.
      apply binary_op_state in H. subst st'.
      rewrite (IHe _ _ _ _ E2). exact (IHe _ _ _ _ E1).
    + destruct (Interpreter.variables st !! name); [|discriminate H].
      injection H as _ <-. reflexivity.
    + injection H as _ <-. reflexivity.
    + destruct (Interpreter.evalArgs fuel args [] st) as [vs st1| | |] eqn:E1;
        try discriminate H. cbn [Interpreter.bind] in H.
      rewrite (callFunction_restores _ _ _ _ _ _ H). exact (IHa _ _ _ _ _ E1).
  - rewrite evalArgs_S in H. destruct args as [|arg args].
    + injection H as _ <-. reflexivity.
    + destruct (Interpreter.evalExpr fuel arg st) as [a st1| | |] eqn:E1;
        try discriminate H. cbn [Interpreter.bind] in H.
      rewrite (IHa _ _ _ _ _ H). exact (IHe _ _ _ _ E1).
Qed.

(** *** Parameter binding *)

Lemma bind_params_enough (params : list (string * string)) :
  forall (i : nat) (args : list Z) (st : Interpreter.t),
    i + length params <= length args ->
    Interpreter.bind_params params i args st
    = Interpreter.Ok tt (bind_all params.*1 (drop i args) st).
Proof.
  induction params as [|[name ty] params IH]; intros i args st Hlen; [reflexivity|].
  cbn [length] in Hlen. cbn [Interpreter.bind_params].
  destruct (args !! i) as [v|] eqn:Hv.
  - rewrite IH by lia.
    rewrite (drop_S args v i Hv). reflexivity.
  - apply lookup_ge_None in Hv. lia.
Qed.

Lemma bind_params_short (params : list (string * string)) :
  forall (i : nat) (args : list Z) (st : Interpreter.t),
    i <= length args -> length args < i + length params ->
    exists st' : Interpreter.t,
      Interpreter.bind_params params i args st
      = Interpreter.Undefined Interpreter.OutOfRangeAccess st'.
Proof.
  induction params as [|[name ty] params IH]; intros i args st Hi Hlen;
    cbn [length] in Hlen; [lia|].
  cbn [Interpreter.bind_params].
  destruct (args !! i) as [v|] eqn:Hv.
  - apply lookup_lt_Some in Hv. apply IH; lia.
  - eexists. reflexivity.
Qed.

Lemma bind_all_take (names : list string) (vals : list Z) (st : Interpreter.t) :
  bind_all names (take (length names) vals) st = bind_all names vals st.
Proof.
  unfold bind_all. f_equal.
  revert vals. induction names as [|n names IH]; intros [|v vals]; try reflexivity.
  cbn. f_equal. apply IH.
Qed.

(** Claim C9.  Parameter binding reads [args] at the positions
    [0 .. params.size()-1] only.  With at least as many arguments as
    parameters every access is in range, the i-th parameter receives the
    i-th argument and arguments beyond the parameters are never read; with
    fewer arguments, binding (and hence the call, which makes no arity check)
    reads [args] out of range. *)
Theorem bind_params_indexing :
  forall (func : FunctionDecl_t) (args : list Z) (st : Interpreter.t),
    (length (fd_params func) <= length args ->
       Interpreter.bind_params (fd_params func) 0 args st
       = Interpreter.Ok tt (bind_all (fd_params func).*1 args st)
       /\ Interpreter.bind_params (fd_params func) 0 args st
          = Interpreter.bind_params (fd_params func) 0
              (take (length (fd_params func)) args) st)
    /\ (length args < length (fd_params func) ->
        (exists st' : Interpreter.t,
            Interpreter.bind_params (fd_params func) 0 args st
            = Interpreter.Undefined Interpreter.OutOfRangeAccess st')
        /\ forall (fuel : nat) (name : string),
            Interpreter.functions st !! name = Some func ->
            exists st' : Interpreter.t,
              Interpreter.callFunction (S (S fuel)) name args st
              = Interpreter.Undefined Interpreter.OutOfRangeAccess st').
Proof.
  intros func args st. split.
  - intros Hlen. split.
    + rewrite bind_params_enough by (simpl; lia). reflexivity.
    + rewrite !bind_params_enough; simpl; try lia.
      * rewrite <- (bind_all_take _ args), length_fmap. reflexivity.
      * rewrite length_take. lia.
  - intros Hlen.
    destruct (bind_params_short (fd_params func) 0 args st ltac:(lia) ltac:(lia))
      as [st' E].
    split; [exists st'; exact E|].
    intros fuel name Hf. exists st'.
    rewrite callFunction_S, Hf, execFunction_S, E. reflexivity.
Qed.

(** *** Faults inside a call *)

(** Claim C10.  When the body of a called function throws, the call throws
    the same exception and the environment is the one at the point of the
    fault, with the parameter bindings and the assignments made so far: the
    saved environment is not put back. *)
Theorem fault_in_call_keeps_environment :
  forall (fuel : nat) (name : string) (func : FunctionDecl_t) (args : list Z)
         (st st1 st2 : Interpreter.t) (what : string),
    Interpreter.functions st !! name = Some func ->
    Interpreter.bind_params (fd_params func) 0 args st = Interpreter.Ok tt st1 ->
    Interpreter.function_body fuel (fd_body func) 0 st1 = Interpreter.Throw what st2 ->
    Interpreter.callFunction (S (S fuel)) name args st = Interpreter.Throw what st2.
Proof.
  intros fuel name func args st st1 st2 what Hf Hb Hbody.
  rewrite callFunction_S, Hf, execFunction_S, Hb. cbn [Interpreter.bind].
  rewrite Hbody. reflexivity.
Qed.

(** *** [return] as a direct statement of a function body *)

Lemma function_body_S (fuel : nat) (body : list ASTNode) (rv : Z) (st : Interpreter.t) :
  Interpreter.function_body (S fuel) body rv st
  = match body with
    | [] => Interpreter.Ok rv st
    | stmt :: body' =>
        match stmt with
        | ReturnStmt _ _ expression => Interpreter.evalExpr fuel expression st
        | _ =>
            match Interpreter.execCommon fuel stmt st with
            | Some r =>
                Interpreter.bind r (fun _ st1 => Interpreter.function_body fuel body' rv st1)
            | None => Interpreter.function_body fuel body' rv st
            end
        end
    end.
Proof. reflexivity. Qed.

(** The statements behind a direct [return] have no influence on the
    outcome of the body. *)
Lemma function_body_cut (pre : list ASTNode) :
  forall (fuel : nat) (l c : Z) (e : ASTNode) (post : list ASTNode) (rv : Z)
         (st : Interpreter.t),
    Interpreter.function_body fuel (pre ++ ReturnStmt l c e :: post) rv st
    = Interpreter.function_body fuel (pre ++ [ReturnStmt l c e]) rv st.
Proof.
  induction pre as [|s pre IH]; intros fuel l c e post rv st.
  - destruct fuel; reflexivity.
  - destruct fuel as [|fuel]; [reflexivity|].
    cbn [app]. rewrite !function_body_S.
    destruct s; try reflexivity;
      (destruct (Interpreter.execCommon fuel _ st) as [[[] st1| | |]|];
       cbn [Interpreter.bind]; auto).
Qed.

(** A direct [return] ends the body with the value of its expression. *)
Lemma function_body_return (fuel : nat) (l c : Z) (e : ASTNode) (post : list ASTNode)
      (rv : Z) (st : Interpreter.t) :
  Interpreter.function_body (S fuel) (ReturnStmt l c e :: post) rv st
  = Interpreter.evalExpr fuel e st.
Proof. reflexivity. Qed.

(** A body without a direct [return] yields the initial [returnValue]. *)
Lemma function_body_no_return (body : list ASTNode) :
  forall (fuel : nat) (rv v : Z) (st st' : Interpreter.t),
    forallb (fun s => negb (is_return s)) body = true ->
    Interpreter.function_body fuel body rv st = Interpreter.Ok v st' ->
    v = rv.
Proof.
  induction body as [|s body IH]; intros fuel rv v st st' Hnr H.
  - destruct fuel; [discriminate|]. rewrite function_body_S in H. congruence.
  - destruct fuel as [|fuel]; [discriminate|].
    cbn [forallb] in Hnr. apply andb_prop in Hnr as [Hs Hnr].
    rewrite function_body_S in H.
    destruct s; try discriminate Hs;
      (destruct (Interpreter.execCommon fuel _ st) as [[[] st1| | |]|];
       cbn [Interpreter.bind] in H; try discriminate; eauto).
Qed.

Lemma call_restores_environment_witness :
  Interpreter.callFunction 10 "f" [7%Z] (demo_interp {["x" := 1%Z]} [])
  = Interpreter.Ok 12%Z (demo_interp {["x" := 1%Z]} ["5"])
  /\ Interpreter.variables (demo_interp {["x" := 1%Z]} ["5"])
     = Interpreter.variables (demo_interp {["x" := 1%Z]} [])
  /\ (forall x : string,
        Interpreter.variables (demo_interp {["x" := 1%Z]} []) !! x = None ->
        Interpreter.variables (demo_interp {["x" := 1%Z]} ["5"]) !! x = None)
  /\ (forall (x : string) (old : Z),
        Interpreter.variables (demo_interp {["x" := 1%Z]} []) !! x = Some old ->
        Interpreter.variables (demo_interp {["x" := 1%Z]} ["5"]) !! x = Some old).
Proof.
  assert (H : Interpreter.callFunction 10 "f" [7%Z] (demo_interp {["x" := 1%Z]} [])
              = Interpreter.Ok 12%Z (demo_interp {["x" := 1%Z]} ["5"]))
    by (vm_compute; reflexivity).
  split; [exact H|].
  exact (call_restores_environment 10 "f" [7%Z] _ _ 12%Z H).
Defined.

Lemma fault_in_call_keeps_environment_witness :
  Interpreter.functions (demo_interp {["x" := 1%Z]} []) !! "g" = Some demo_g
  /\ Interpreter.bind_params (fd_params demo_g) 0 [5%Z] (demo_interp {["x" := 1%Z]} [])
     = Interpreter.Ok tt (demo_interp (<["a" := 5%Z]> {["x" := 1%Z]}) [])
  /\ Interpreter.function_body 8 (fd_body demo_g) 0
       (demo_interp (<["a" := 5%Z]> {["x" := 1%Z]}) [])
     = Interpreter.Throw "Undefined variable: b"
         (demo_interp (<["x" := 2%Z]> (<["a" := 5%Z]> {["x" := 1%Z]})) [])
  /\ Interpreter.callFunction 10 "g" [5%Z] (demo_interp {["x" := 1%Z]} [])
     = Interpreter.Throw "Undefined variable: b"
         (demo_interp (<["x" := 2%Z]> (<["a" := 5%Z]> {["x" := 1%Z]})) []).
Proof.
  assert (H1 : Interpreter.functions (demo_interp {["x" := 1%Z]} []) !! "g" = Some demo_g)
    by (vm_compute; reflexivity).
  assert (H2 : Interpreter.bind_params (fd_params demo_g) 0 [5%Z]
                 (demo_interp {["x" := 1%Z]} [])
               = Interpreter.Ok tt (demo_interp (<["a" := 5%Z]> {["x" := 1%Z]}) []))
    by reflexivity.
  assert (H3 : Interpreter.function_body 8 (fd_body demo_g) 0
                 (demo_interp (<["a" := 5%Z]> {["x" := 1%Z]}) [])
               = Interpreter.Throw "Undefined variable: b"
                   (demo_interp (<["x" := 2%Z]> (<["a" := 5%Z]> {["x" := 1%Z]})) []))
    by (vm_compute; reflexivity).
  split; [exact H1|]. split; [exact H2|]. split; [exact H3|].
  exact (fault_in_call_keeps_environment 8 "g" demo_g [5%Z] _ _ _ _ H1 H2 H3).
Defined.

(** After the fault the parameter [a] and the assignment to [x] are still
    in the environment of the caller. *)
Example fault_leaves_bindings_visible :
  exists st : Interpreter.t,
    Interpreter.callFunction 10 "g" [5%Z] (demo_interp {["x" := 1%Z]} [])
    = Interpreter.Throw "Undefined variable: b" st
    /\ Interpreter.variables st !! "a" = Some 5%Z
    /\ Interpreter.variables st !! "x" = Some 2%Z
    /\ Interpreter.variables (demo_interp {["x" := 1%Z]} []) !! "a" = None
    /\ Interpreter.variables (demo_interp {["x" := 1%Z]} []) !! "x" = Some 1%Z.
Proof.
  exists (demo_interp (<["x" := 2%Z]> (<["a" := 5%Z]> {["x" := 1%Z]})) []).
  repeat split; vm_compute; reflexivity.
Qed.

Lemma bind_params_indexing_witness :
  (length (fd_params demo_f) <= length [7%Z; 8%Z]
   /\ Interpreter.bind_params (fd_params demo_f) 0 [7%Z; 8%Z] (demo_interp ∅ [])
      = Interpreter.Ok tt (bind_all ["a"] [7%Z; 8%Z] (demo_interp ∅ []))
   /\ Interpreter.bind_params (fd_params demo_f) 0 [7%Z; 8%Z] (demo_interp ∅ [])
      = Interpreter.bind_params (fd_params demo_f) 0 [7%Z] (demo_interp ∅ []))
  /\ (length (@nil Z) < length (fd_params demo_f)
      /\ (exists st' : Interpreter.t,
             Interpreter.bind_params (fd_params demo_f) 0 [] (demo_interp ∅ [])
             = Interpreter.Undefined Interpreter.OutOfRangeAccess st')
      /\ exists st' : Interpreter.t,
          Interpreter.callFunction 2 "f" [] (demo_interp ∅ [])
          = Interpreter.Undefined Interpreter.OutOfRangeAccess st').
Proof.
  assert (Hle : length (fd_params demo_f) <= length [7%Z; 8%Z]) by (simpl; lia).
  assert (Hlt : length (@nil Z) < length (fd_params demo_f)) by (simpl; lia).
  pose proof (bind_params_indexing demo_f [7%Z; 8%Z] (demo_interp ∅ [])) as [Hmany _].
  pose proof (bind_params_indexing demo_f [] (demo_interp ∅ [])) as [_ Hfew].
  split.
  - split; [exact Hle|]. exact (Hmany Hle).
  - split; [exact Hlt|]. destruct (Hfew Hlt) as [Hb Hc].
    split; [exact Hb|]. exact (Hc 0 "f" ltac:(vm_compute; reflexivity)).
Defined.


(** ** Parser *)

(** *** Operator chains *)

Section Chains.
Context {L : Type}.
Variable nextToken : nat -> L -> option (Token * L).

Lemma parseExpression_S (n : nat) (p : Parser.t L) :
  Parser.parseExpression nextToken (S n) p
  = Parser.parseExpression_body nextToken n (Parser.parseExpression nextToken n)
      (Parser.parseBinaryExpression nextToken n) p.
Proof. reflexivity. Qed.

Lemma parseBinaryExpression_S (n : nat) (p : Parser.t L) :
  Parser.parseBinaryExpression nextToken (S n) p
  = Parser.parseBinaryExpression_body nextToken n (Parser.parseExpression nextToken n)
      (Parser.postfix_loop nextToken n) (Parser.binop_loop nextToken n)
      (Parser.parseExprList nextToken n) p.
Proof. reflexivity. Qed.

Lemma postfix_loop_S (n : nat) (left : ASTNode) (p : Parser.t L) :
  Parser.postfix_loop nextToken (S n) left p
  = Parser.postfix_loop_body nextToken n (Parser.parseExpression nextToken n)
      (Parser.postfix_loop nextToken n) (Parser.parseExprList nextToken n) left p.
Proof. reflexivity. Qed.

Lemma binop_loop_S (n : nat) (left : ASTNode) (p : Parser.t L) :
  Parser.binop_loop nextToken (S n) left p
  = Parser.binop_loop_body nextToken n (Parser.parseExpression nextToken n)
      (Parser.binop_loop nextToken n) left p.
Proof. reflexivity. Qed.

Lemma advance_yields (n : nat) (l l' : L) (cur tk : Token) :
  yields nextToken l tk l' ->
  Parser.advance nextToken (S n) (Parser.mk l cur) = Parser.Ok tt (Parser.mk l' tk).
Proof. intros H. unfold Parser.advance. cbn. rewrite H. reflexivity. Qed.

Lemma binop_loop_done (n : nat) (left : ASTNode) (p : Parser.t L) :
  Parser.is_binary_operator (type (Parser.currentToken p)) = false ->
  Parser.binop_loop nextToken (S n) left p = Parser.Ok left p.
Proof.
  intros H. rewrite binop_loop_S. unfold Parser.binop_loop_body.
  rewrite H. reflexivity.
Qed.

Lemma postfix_loop_done (n : nat) (left : ASTNode) (p : Parser.t L) :
  type (Parser.currentToken p) <> token_type.LParen ->
  type (Parser.currentToken p) <> token_type.LBracket ->
  Parser.postfix_loop nextToken (S n) left p = Parser.Ok left p.
Proof.
  intros H1 H2. rewrite postfix_loop_S. unfold Parser.postfix_loop_body.
  destruct (type (Parser.currentToken p)); congruence.
Qed.

(** The primary-expression part of [parseBinaryExpression] on a one-token
    operand, up to the operator loop. *)
Lemma parseBinaryExpression_primary (n : nat) (l l' : L) (tk nxt : Token) (e : ASTNode) :
  primary_node tk = Some e ->
  yields nextToken l nxt l' ->
  type nxt <> token_type.LParen ->
  type nxt <> token_type.LBracket ->
  Parser.parseBinaryExpression nextToken (S (S n)) (Parser.mk l tk)
  = Parser.binop_loop nextToken (S n) e (Parser.mk l' nxt).
Proof.
  intros He Hy H1 H2. unfold primary_node in He.
  rewrite parseBinaryExpression_S. unfold Parser.parseBinaryExpression_body.
  cbn [Parser.currentToken].
  destruct (type tk); try discriminate.
  - injection He as <-.
    rewrite (advance_yields _ _ _ _ _ Hy). cbn [Parser.bind].
    rewrite postfix_loop_done by assumption. reflexivity.
  - destruct (stoi (lexeme tk)); [|discriminate]. injection He as <-.
    rewrite (advance_yields _ _ _ _ _ Hy). reflexivity.
Qed.

Lemma parseExpression_tail (n : nat) (p p' : Parser.t L) (e : ASTNode) :
  Parser.parseBinaryExpression nextToken n p = Parser.Ok e p' ->
  ends_expression (type (Parser.currentToken p')) = true ->
  Parser.parseExpression nextToken (S n) p = Parser.Ok e p'.
Proof.
  intros H Hs. rewrite parseExpression_S. unfold Parser.parseExpression_body.
  rewrite H. cbn [Parser.bind].
  destruct (type (Parser.currentToken p')); try discriminate; reflexivity.
Qed.

Lemma ends_expression_not_operator (ty : token_type.t) :
  ends_expression ty = true ->
  Parser.is_binary_operator ty = false
  /\ ty <> token_type.LParen /\ ty <> token_type.LBracket.
Proof. destruct ty; cbn; intros H; try discriminate; repeat split; discriminate. Qed.

Lemma operator_not_postfix (ty : token_type.t) :
  Parser.is_binary_operator ty = true ->
  ty <> token_type.LParen /\ ty <> token_type.LBracket.
Proof. destruct ty; cbn; intros H; try discriminate; split; discriminate. Qed.

(** An operator chain of any length parses into the right-nested tree. *)
Lemma parseExpression_chain (rest : list (Token * (Token * ASTNode))) :
  forall (l l' : L) (first stop : Token) (a : ASTNode) (k : nat),
    primary_node first = Some a ->
    well_formed_chain rest ->
    yields_chain nextToken l rest stop l' ->
    ends_expression (type stop) = true ->
    Parser.parseExpression nextToken (3 + 3 * length rest + k) (Parser.mk l first)
    = Parser.Ok (right_nested a (map (fun x => (x.1, x.2.2)) rest)) (Parser.mk l' stop).
Proof.
  induction rest as [|[op [tk b]] rest IH]; intros l l' first stop a k Ha Hwf Hy Hs.
  - cbn [length Nat.mul Nat.add map right_nested].
    destruct (ends_expression_not_operator _ Hs) as (Hop & Hp1 & Hp2).
    apply parseExpression_tail; [|exact Hs].
    rewrite (parseBinaryExpression_primary _ _ _ _ _ _ Ha Hy Hp1 Hp2).
    apply binop_loop_done. exact Hop.
  - destruct Hy as (l1 & l2 & Hy1 & Hy2 & Hy3).
    apply Forall_cons in Hwf as [[Hop Hb] Hwf]. cbn [fst snd] in Hop, Hb.
    destruct (operator_not_postfix _ Hop) as [Hp1 Hp2].
    destruct (ends_expression_not_operator _ Hs) as (Hsop & _ & _).
    pose proof (IH l2 l' tk stop b k Hb Hwf Hy3 Hs) as IH'.
    set (m := 2 + 3 * length rest + k) in *.
    change (3 + 3 * length rest + k) with (S m) in IH'.
    replace (3 + 3 * length ((op, (tk, b)) :: rest) + k)
      with (S (S (S (S m)))) by (cbn [length]; lia).
    apply parseExpression_tail; [|exact Hs].
    rewrite (parseBinaryExpression_primary _ _ _ _ _ _ Ha Hy1 Hp1 Hp2).
    rewrite binop_loop_S. unfold Parser.binop_loop_body.
    cbn [Parser.currentToken]. rewrite Hop.
    rewrite (advance_yields _ _ _ _ _ Hy2). cbn [Parser.bind].
    rewrite IH'. cbn [Parser.bind map right_nested fst snd].
    rewrite binop_loop_done by exact Hsop. reflexivity.
Qed.

End Chains.

(** ** The pipeline *)

(** Claim C3.  For operands [a], [b], [c] that are single number or
    identifier tokens and any two operator tokens [op1], [op2] of the
    operator loop, the tokens [a op1 b op2 c] parse as [a op1 (b op2 c)],
    over any token source; the text [1 - 2 - 3] parses as [1 - (2 - 3)],
    which evaluates to 2. *)
Theorem binary_chain_right_associative :
  (forall (L : Type) (nextToken : nat -> L -> option (Token * L))
          (l1 l2 l3 l4 l5 l6 : L) (ta op1 tb op2 tc stop : Token) (a b c : ASTNode),
      primary_node ta = Some a -> primary_node tb = Some b -> primary_node tc = Some c ->
      Parser.is_binary_operator (type op1) = true ->
      Parser.is_binary_operator (type op2) = true ->
      ends_expression (type stop) = true ->
      yields nextToken l1 op1 l2 -> yields nextToken l2 tb l3 ->
      yields nextToken l3 op2 l4 -> yields nextToken l4 tc l5 ->
      yields nextToken l5 stop l6 ->
      forall fuel : nat, 9 <= fuel ->
        Parser.parseExpression nextToken fuel (Parser.mk l1 ta)
        = Parser.Ok (BinaryExpr (line op1) (column op1) (lexeme op1) a
                       (BinaryExpr (line op2) (column op2) (lexeme op2) b c))
                    (Parser.mk l6 stop))
  /\ (forall k : nat, parsed (parse_expression (9 + k) "1 - 2 - 3") = Some tree_1_2_3)
  /\ forall (k : nat) (st : Interpreter.t),
      Interpreter.evalExpr (3 + k) tree_1_2_3 st = Interpreter.Ok 2%Z st.
Proof.
  split; [|split; [intros k; vm_compute; reflexivity | intros k st; reflexivity]].
  intros L nextToken l1 l2 l3 l4 l5 l6 ta op1 tb op2 tc stop a b c
         Ha Hb Hc Ho1 Ho2 Hs Y1 Y2 Y3 Y4 Y5 fuel Hfuel.
  replace fuel with (3 + 3 * length [(op1, (tb, b)); (op2, (tc, c))] + (fuel - 9))
    by (cbn [length]; lia).
  rewrite (parseExpression_chain nextToken [(op1, (tb, b)); (op2, (tc, c))]
             l1 l6 ta stop a (fuel - 9) Ha).
  - reflexivity.
  - repeat constructor; assumption.
  - cbn. eauto 10.
  - exact Hs.
Qed.

Lemma binary_chain_right_associative_witness :
  Parser.parseExpression Lexer.nextToken 9
    (Parser.mk (lexer_at "1 - 2 - 3" 1 0 2 1) (mkToken token_type.Number "1" 1 1))
  = Parser.Ok tree_1_2_3
      (Parser.mk (lexer_at "1 - 2 - 3" 9 9 10 10) (mkToken token_type.End_ "" 1 10)).
Proof.
  apply (proj1 binary_chain_right_associative Lexer.t Lexer.nextToken
           (lexer_at "1 - 2 - 3" 1 0 2 1) (lexer_at "1 - 2 - 3" 3 2 4 3)
           (lexer_at "1 - 2 - 3" 5 4 6 5) (lexer_at "1 - 2 - 3" 7 6 8 7)
           (lexer_at "1 - 2 - 3" 9 8 10 9) (lexer_at "1 - 2 - 3" 9 9 10 10)
           (mkToken token_type.Number "1" 1 1) (mkToken token_type.Minus "-" 1 3)
           (mkToken token_type.Number "2" 1 5) (mkToken token_type.Minus "-" 1 7)
           (mkToken token_type.Number "3" 1 9) (mkToken token_type.End_ "" 1 10)
           (NumberLiteral 1 1 1) (NumberLiteral 1 5 2) (NumberLiteral 1 9 3));
    try reflexivity; try (intros n; reflexivity); lia.
Defined.

Example chain_of_comparison_tokens :
  Parser.parseExpression replay 9
    (Parser.mk [ mkToken token_type.LessEqual "<=" 1 3; mkToken token_type.Identifier "b" 1 6;
                 mkToken token_type.BangEqual "!=" 1 8; mkToken token_type.Number "3" 1 11 ]
               (mkToken token_type.Identifier "a" 1 1))
  = Parser.Ok (BinaryExpr 1 3 "<=" (Identifier 1 1 "a")
                 (BinaryExpr 1 8 "!=" (Identifier 1 6 "b") (NumberLiteral 1 11 3)))
              (Parser.mk [] (mkToken token_type.End_ "" 0 0)).
Proof. reflexivity. Qed.

(** Claim C4.  The driver run on the canonical program, on one line or as
    laid out in [entry.cpp], prints 0 to 9 on separate lines in increasing
    order, then the line reporting that [main] returned 0, and exits with
    status 0. *)
Theorem canonical_program_prints_0_to_9 :
  forall k : nat,
    entry_main (40 + k) canonical_code
    = Exited 0 ["0"; "1"; "2"; "3"; "4"; "5"; "6"; "7"; "8"; "9"; "main() returned: 0"] []
    /\ entry_main (40 + k) entry_code
       = Exited 0 ["0"; "1"; "2"; "3"; "4"; "5"; "6"; "7"; "8"; "9"; "main() returned: 0"] [].
Proof. intros k. split; vm_compute; reflexivity. Qed.

(** Claim C1, at an input where the source departs from it.  A [return]
    inside a loop body is run by [execStatement], which only evaluates its
    expression: the statement after it still runs (99 is printed), the loop
    goes on, and the call yields the value of a later [return] (7, not 5). *)
Theorem return_inside_loop_does_not_return :
  forall k : nat,
    entry_main (40 + k) nested_return_code = Exited 0 ["99"; "main() returned: 7"] [].
Proof. intros k. vm_compute. reflexivity. Qed.

(** Claim C6, at an input where the source departs from it.  Inside a
    block, [parseBlock] consumes the identifier of [f(1);] and parses the
    rest as an expression: the statement becomes the expression statement
    [(1)], the callee is lost and [f] is never called.  The same text at top
    level, parsed by [parseStatement], is a call of [f]. *)
Theorem call_statement_in_block_is_not_a_call :
  forall k : nat,
    parsed (parse_top_level (20 + k) "function main(): int { f(1); return 0; }")
    = Some (FunctionDecl 1 10 "main" [] "int"
              [ ExpressionStmt 1 24 (NumberLiteral 1 26 1);
                ReturnStmt 1 30 (NumberLiteral 1 37 0) ])
    /\ entry_main (40 + k) call_in_block_code = Exited 0 ["main() returned: 0"] []
    /\ parsed (parse_top_level (20 + k) "f(1);")
       = Some (CallExpr 1 1 "f" [NumberLiteral 1 3 1])
    /\ entry_main (40 + k) call_at_top_level_code = Exited 0 ["1"] [].
Proof. intros k. repeat split; vm_compute; reflexivity. Qed.

(** A declaration with one parameter and a [return] of a sum. *)
Example parse_function_declaration :
  forall k : nat,
    parsed (parse_top_level (20 + k) "function f(a: int): int { return a + 1; }")
    = Some (FunctionDecl 1 10 "f" [("a", "int")] "int"
              [ ReturnStmt 1 27
                  (BinaryExpr 1 36 "+" (Identifier 1 34 "a") (NumberLiteral 1 38 1)) ]).
Proof. intros k. vm_compute. reflexivity. Qed.

(** Calling a function that was never declared is a runtime fault that
    names the function. *)
Example call_of_undeclared_function :
  forall k : nat,
    entry_main (20 + k) "nothing(1);" = Exited 1 [] ["Error: Function not found: nothing"].
Proof. intros k. vm_compute. reflexivity. Qed.

(** There is one precedence tier: [2 * 3 + 4] is [2 * (3 + 4)]. *)
Example single_precedence_tier :
  forall k : nat,
    parsed (parse_expression (9 + k) "2 * 3 + 4")
    = Some (BinaryExpr 1 3 "*" (NumberLiteral 1 1 2)
              (BinaryExpr 1 7 "+" (NumberLiteral 1 5 3) (NumberLiteral 1 9 4)))
    /\ forall st : Interpreter.t,
        Interpreter.evalExpr (3 + k)
          (BinaryExpr 1 3 "*" (NumberLiteral 1 1 2)
             (BinaryExpr 1 7 "+" (NumberLiteral 1 5 3) (NumberLiteral 1 9 4))) st
        = Interpreter.Ok 14%Z st.
Proof. intros k. split; [vm_compute; reflexivity | intros st; reflexivity]. Qed.

(** Other forms of a call statement inside a block do not parse at all. *)
Example call_without_arguments_in_block :
  forall k : nat,
    parse_top_level (20 + k) "function main(): int { f(); return 0; }"
    = Parser.Throw "Unsupported expression: RParen ')'"
    /\ parse_top_level (20 + k) "function main(): int { f(1, 2); return 0; }"
       = Parser.Throw "Expected ')' after expression. Got: Comma at line 1:27".
Proof. intros k. split; vm_compute; reflexivity. Qed.

(** * Further properties of the code *)

(** ** The lexer: termination, progress and the tokens it hands out *)

Lemma advanced_S (k : nat) (lx : Lexer.t) :
  advanced (S k) lx = advanced k (snd (Lexer.advance lx)).
Proof. unfold advanced. rewrite Nat.iter_succ_r. reflexivity. Qed.

Lemma advanced_add (j k : nat) (lx : Lexer.t) :
  advanced k (advanced j lx) = advanced (j + k) lx.
Proof.
  revert lx. induction j as [|j IH]; intros lx; [reflexivity|].
  cbn [Nat.add]. rewrite !advanced_S. apply IH.
Qed.

Lemma advance_while_advanced (pred : ascii -> bool) (k : nat) :
  forall lx : Lexer.t, exists j : nat, Lexer.advance_while pred k lx = advanced j lx.
Proof.
  induction k as [|k IH]; intros lx; [exists 0; reflexivity|].
  cbn [Lexer.advance_while]. destruct (pred _); [|exists 0; reflexivity].
  destruct (IH (snd (Lexer.advance lx))) as [j Hj].
  exists (S j). rewrite advanced_S. exact Hj.
Qed.

Lemma skipLine_advanced (k : nat) :
  forall lx : Lexer.t, exists j : nat, Lexer.skipLine k lx = advanced j lx.
Proof.
  induction k as [|k IH]; intros lx; [exists 0; reflexivity|].
  cbn [Lexer.skipLine]. destruct (_ && _); [|exists 0; reflexivity].
  destruct (IH (snd (Lexer.advance lx))) as [j Hj].
  exists (S j). rewrite advanced_S. exact Hj.
Qed.

Lemma skipWhitespace_loop_advanced (k : nat) :
  forall lx : Lexer.t, exists j : nat, Lexer.skipWhitespace_loop k lx = advanced j lx.
Proof.
  induction k as [|k IH]; intros lx; [exists 0; reflexivity|].
  cbn [Lexer.skipWhitespace_loop].
  assert (Hstep : exists j, Lexer.skipWhitespace_loop k (snd (Lexer.advance lx))
                            = advanced j lx).
  { destruct (IH (snd (Lexer.advance lx))) as [j Hj].
    exists (S j). rewrite advanced_S. exact Hj. }
  destruct (_ || _); [exact Hstep|].
  destruct (Ascii.eqb _ LF); [exact Hstep|].
  destruct (Ascii.eqb _ "/"); [|exists 0; reflexivity].
  destruct (Ascii.eqb _ "/"); [|exists 0; reflexivity].
  destruct (skipLine_advanced (S (Lexer.remaining lx)) lx) as [i Hi].
  destruct (IH (Lexer.skipLine (S (Lexer.remaining lx)) lx)) as [j Hj].
  exists (i + j). rewrite Hj, Hi. apply advanced_add.
Qed.

Lemma skipWhitespace_advanced (lx : Lexer.t) :
  exists j : nat, Lexer.skipWhitespace lx = advanced j lx.
Proof. apply skipWhitespace_loop_advanced. Qed.

Lemma stringLiteral_loop_advanced (k : nat) :
  forall lx : Lexer.t, exists j : nat, Lexer.stringLiteral_loop k lx = advanced j lx.
Proof.
  induction k as [|k IH]; intros lx; [exists 0; reflexivity|].
  cbn [Lexer.stringLiteral_loop]. destruct (_ && _); [|exists 0; reflexivity].
  destruct (Ascii.eqb _ "\").
  - destruct (IH (snd (Lexer.advance (snd (Lexer.advance lx))))) as [j Hj].
    exists (S (S j)). rewrite !advanced_S. exact Hj.
  - destruct (IH (snd (Lexer.advance lx))) as [j Hj].
    exists (S j). rewrite advanced_S. exact Hj.
Qed.

Lemma keywords_find_not_End (text : string) (ty : token_type.t) :
  Lexer.keywords_find Lexer.keywords text = Some ty ->
  ty <> token_type.End_ /\ ty <> token_type.Unexpected.
Proof.
  unfold Lexer.keywords. cbn [Lexer.keywords_find].
  repeat (destruct (String.eqb _ text); [intros [= <-]; split; discriminate |]).
  discriminate.
Qed.

Lemma identifier_scanned (lx : Lexer.t) (tk : Token) (lx' : Lexer.t) :
  Lexer.identifier lx = (tk, lx') -> scanned lx tk lx'.
Proof.
  unfold Lexer.identifier. cbv zeta.
  destruct (advance_while_advanced Lexer.isAlphaNumeric (S (Lexer.remaining lx)) lx)
    as [j Hj].
  destruct (Lexer.keywords_find _ _) eqn:E; intros [= <- <-].
  - split; [left; reflexivity|]. split; [|exists j; exact Hj].
    exact (proj1 (keywords_find_not_End _ _ E)).
  - split; [left; reflexivity|]. split; [discriminate|exists j; exact Hj].
Qed.

Lemma number_scanned (lx : Lexer.t) (tk : Token) (lx' : Lexer.t) :
  Lexer.number lx = (tk, lx') -> scanned lx tk lx'.
Proof.
  unfold Lexer.number. cbv zeta.
  destruct (advance_while_advanced isdigit (S (Lexer.remaining lx)) lx) as [j Hj].
  rewrite Hj.
  destruct (_ && _).
  - destruct (advance_while_advanced isdigit
                (S (Lexer.remaining (advanced j lx)))
                (snd (Lexer.advance (advanced j lx)))) as [i Hi].
    rewrite Hi.
    intros [= <- <-]. split; [left; reflexivity|]. split; [discriminate|].
    exists (j + S i). rewrite <- advanced_add, advanced_S. reflexivity.
  - intros [= <- <-]. split; [left; reflexivity|]. split; [discriminate|].
    exists j. reflexivity.
Qed.

Lemma stringLiteral_scanned (lx : Lexer.t) (tk : Token) (lx' : Lexer.t) :
  Lexer.stringLiteral lx = (tk, lx') -> scanned lx tk lx'.
Proof.
  unfold Lexer.stringLiteral. cbv zeta.
  destruct (stringLiteral_loop_advanced (S (Lexer.remaining lx)) lx) as [j Hj].
  rewrite Hj.
  destruct (Lexer.isAtEnd _); intros [= <- <-].
  - split; [right; eexists; reflexivity|]. split; [discriminate|].
    exists j. reflexivity.
  - split; [left; reflexivity|]. split; [discriminate|].
    exists (j + 1). rewrite <- advanced_add. reflexivity.
Qed.

Lemma one_or_two_scanned (e : ascii) (ty2 ty1 : token_type.t) (lx : Lexer.t)
      (tk : Token) (lx' : Lexer.t) :
  ty2 <> token_type.End_ -> ty1 <> token_type.End_ ->
  Lexer.one_or_two e ty2 ty1 lx = Some (tk, lx') -> scanned lx tk lx'.
Proof.
  intros H2 H1. unfold Lexer.one_or_two, Lexer.match_.
  destruct (Lexer.isAtEnd lx).
  { intros [= <- <-]. split; [left; reflexivity|]. split; [exact H1|].
    exists 0. reflexivity. }
  destruct (negb _).
  { intros [= <- <-]. split; [left; reflexivity|]. split; [exact H1|].
    exists 0. reflexivity. }
  intros [= <- <-]. split; [left; reflexivity|]. split; [exact H2|].
  exists 1. reflexivity.
Qed.

Lemma char_int_is_const (c k : ascii) :
  (nat_of_ascii k < 128)%nat -> char_int c = char_const k -> c = k.
Proof.
  intros Hk H. unfold char_int, char_const in H.
  pose proof (nat_ascii_bounded c) as Hb.
  destruct (Z.ltb_spec (Z.of_nat (nat_of_ascii c)) 128) as [Hlt|Hge]; [|lia].
  apply Nat2Z.inj in H.
  rewrite <- (ascii_nat_embedding c), <- (ascii_nat_embedding k), H. reflexivity.
Qed.

Lemma advance_not_at_end (lx : Lexer.t) :
  Lexer.isAtEnd lx = false ->
  fst (Lexer.advance lx) = char_at (Lexer.source lx) (Lexer.current lx)
  /\ Lexer.source (snd (Lexer.advance lx)) = Lexer.source lx
  /\ Lexer.current (snd (Lexer.advance lx)) = S (Lexer.current lx).
Proof.
  intros He. unfold Lexer.advance. rewrite He.
  destruct (Ascii.eqb _ LF); repeat split.
Qed.

(** [handleSemicolon] either returns the [Semicolon] token at once or does
    not return: the call it makes never comes back. *)
Lemma handleSemicolon_direct (fuel : nat) (lx : Lexer.t) (r : Token * Lexer.t) :
  (Lexer.current lx <= String.length (Lexer.source lx))%nat ->
  (1 <= Lexer.current lx)%nat ->
  char_at (Lexer.source lx) (Lexer.current lx - 1) = ";"%char ->
  Lexer.handleSemicolon (Lexer.nextToken fuel) lx = Some r ->
  r = (Lexer.makeToken token_type.Semicolon lx, lx)
  /\ ((1 <? Lexer.current lx)%nat
      && Ascii.eqb (char_at (Lexer.source lx) (Lexer.current lx - 2)) LF) = false.
Proof.
  intros Hlen Hcur Hsemi. unfold Lexer.handleSemicolon.
  destruct (_ && _) eqn:Hc; [|intros [= <-]; split; reflexivity].
  apply andb_prop in Hc as [Hc1 Hc2].
  apply Nat.ltb_lt in Hc1. apply Ascii.eqb_eq in Hc2.
  rewrite nextToken_semicolon_after_newline; [discriminate| | |].
  - unfold Lexer.peek, Lexer.isAtEnd. simpl.
    replace (String.length (Lexer.source lx) <=? Lexer.current lx - 1)%nat
      with false by (symmetry; apply Nat.leb_gt; lia).
    exact Hsemi.
  - simpl. lia.
  - simpl. replace (Lexer.current lx - 1 - 1)%nat with (Lexer.current lx - 2)%nat by lia.
    exact Hc2.
Qed.

(** The two ways in which [nextToken] returns. *)
Lemma nextToken_shape (fuel : nat) (lx : Lexer.t) (tk : Token) (lx' : Lexer.t) :
  Lexer.nextToken fuel lx = Some (tk, lx') ->
  let lx0 := Lexer.mark_start (Lexer.skipWhitespace lx) in
  (Lexer.isAtEnd lx0 = true /\ tk = Lexer.makeToken token_type.End_ lx0 /\ lx' = lx0)
  \/ (Lexer.isAtEnd lx0 = false /\ scanned (snd (Lexer.advance lx0)) tk lx').
Proof.
  destruct fuel as [|fuel]; [discriminate|].
  cbn [Lexer.nextToken]. unfold Lexer.nextToken_body. intros H. cbv zeta in H |- *.
  set (lx0 := Lexer.mark_start (Lexer.skipWhitespace lx)) in *.
  destruct (Lexer.isAtEnd lx0) eqn:He.
  { left. injection H as <- <-. repeat split. }
  right. split; [reflexivity|].
  destruct (advance_not_at_end lx0 He) as (Hc & Hsrc & Hcur).
  destruct (Lexer.advance lx0) as [c lx1]. cbn [fst snd] in *.
  destruct (Lexer.isAlpha c); [apply identifier_scanned; congruence|].
  destruct (isdigit c); [apply number_scanned; congruence|].
  destruct (Ascii.eqb c DQUOTE); [apply stringLiteral_scanned; congruence|].
  rewrite !char_int_not_multichar in H by (vm_compute; discriminate).
  repeat match type of H with
  | (if ?b then _ else _) = _ => destruct b eqn:?
  end;
  try (injection H as <- <-; split; [left; reflexivity|]; split;
       [discriminate | exists 0; reflexivity]);
  try (apply one_or_two_scanned in H; [exact H | discriminate | discriminate]).
  - match goal with
    | E : (char_int c =? char_const ";")%Z = true |- _ =>
        apply Z.eqb_eq in E; apply char_int_is_const in E; [|vm_compute; lia]
    end.
    subst c.
    pose proof (isAtEnd_false lx0 He) as Hlt.
    apply handleSemicolon_direct in H as [[= -> ->] _].
    + split; [left; reflexivity|]. split; [discriminate | exists 0; reflexivity].
    + rewrite Hsrc, Hcur. lia.
    + rewrite Hcur. lia.
    + rewrite Hsrc, Hcur. replace (S (Lexer.current lx0) - 1)%nat with (Lexer.current lx0) by lia.
      symmetry. exact Hc.
  - injection H as <- <-. split; [right; eexists; reflexivity|].
    split; [discriminate | exists 0; reflexivity].
Qed.

Lemma advance_fields (lx : Lexer.t) :
  Lexer.source (snd (Lexer.advance lx)) = Lexer.source lx
  /\ Lexer.start (snd (Lexer.advance lx)) = Lexer.start lx
  /\ Lexer.line_start (snd (Lexer.advance lx)) = Lexer.line_start lx
  /\ Lexer.column_start (snd (Lexer.advance lx)) = Lexer.column_start lx
  /\ Lexer.current lx <= Lexer.current (snd (Lexer.advance lx))
  /\ (Lexer.current lx <= String.length (Lexer.source lx) ->
      Lexer.current (snd (Lexer.advance lx)) <= String.length (Lexer.source lx)).
Proof.
  unfold Lexer.advance. destruct (Lexer.isAtEnd lx) eqn:He.
  - cbn [snd]. repeat split; auto.
  - apply isAtEnd_false in He.
    destruct (Ascii.eqb _ LF); cbn; repeat split; lia.
Qed.

Lemma advanced_fields (k : nat) :
  forall lx : Lexer.t,
    Lexer.source (advanced k lx) = Lexer.source lx
    /\ Lexer.start (advanced k lx) = Lexer.start lx
    /\ Lexer.line_start (advanced k lx) = Lexer.line_start lx
    /\ Lexer.column_start (advanced k lx) = Lexer.column_start lx
    /\ Lexer.current lx <= Lexer.current (advanced k lx)
    /\ (Lexer.current lx <= String.length (Lexer.source lx) ->
        Lexer.current (advanced k lx) <= String.length (Lexer.source lx)).
Proof.
  induction k as [|k IH]; intros lx; [repeat split; auto|].
  rewrite advanced_S.
  destruct (IH (snd (Lexer.advance lx))) as (H1 & H2 & H3 & H4 & H5 & H6).
  destruct (advance_fields lx) as (A1 & A2 & A3 & A4 & A5 & A6).
  rewrite H1, H2, H3, H4, A1, A2, A3, A4. rewrite A1 in H6.
  repeat split; auto; lia.
Qed.

Lemma position_from_step (s : string) :
  forall (n : nat) (ln col : Z),
    n < String.length s ->
    position_from s (S n) ln col
    = (if Ascii.eqb (char_at s n) LF
       then (fst (position_from s n ln col) + 1, 1)
       else (fst (position_from s n ln col), snd (position_from s n ln col) + 1))%Z.
Proof.
  induction s as [|c s IH]; intros n ln col Hn; cbn [String.length] in Hn; [lia|].
  destruct n as [|n].
  - cbn. unfold char_at. cbn. destruct (Ascii.eqb c LF); reflexivity.
  - assert (Hc : char_at (String c s) (S n) = char_at s n) by reflexivity.
    rewrite Hc.
    change (position_from (String c s) (S (S n)) ln col)
      with (if Ascii.eqb c LF then position_from s (S n) (ln + 1) 1
            else position_from s (S n) ln (col + 1)).
    change (position_from (String c s) (S n) ln col)
      with (if Ascii.eqb c LF then position_from s n (ln + 1) 1
            else position_from s n ln (col + 1)).
    destruct (Ascii.eqb c LF); apply IH; lia.
Qed.

Lemma advance_tracked (lx : Lexer.t) : tracked lx -> tracked (snd (Lexer.advance lx)).
Proof.
  intros [Hlen Hpos]. unfold Lexer.advance.
  destruct (Lexer.isAtEnd lx) eqn:He; [split; assumption|].
  apply isAtEnd_false in He.
  unfold tracked, position_of in *.
  destruct (Ascii.eqb (char_at (Lexer.source lx) (Lexer.current lx)) LF) eqn:Hc;
    cbn [snd Lexer.set_position Lexer.source Lexer.current Lexer.line Lexer.column];
    (split; [lia|]); rewrite position_from_step by exact He; rewrite Hc, <- Hpos;
    reflexivity.
Qed.

Lemma advanced_tracked (k : nat) :
  forall lx : Lexer.t, tracked lx -> tracked (advanced k lx).
Proof.
  induction k as [|k IH]; intros lx H; [exact H|].
  rewrite advanced_S. apply IH, advance_tracked, H.
Qed.

Lemma mark_start_tracked (lx : Lexer.t) : tracked lx -> tracked (Lexer.mark_start lx).
Proof. intros H. exact H. Qed.

Lemma skipWhitespace_tracked (lx : Lexer.t) : tracked lx -> tracked (Lexer.skipWhitespace lx).
Proof.
  intros H. destruct (skipWhitespace_advanced lx) as [j ->]. apply advanced_tracked, H.
Qed.

(** Property X1.  [nextToken] returns from every lexer state except the
    one in which, after whitespace and comments, the next character is a
    [;] directly behind a line feed: in every other state there is a
    result that the call yields whatever recursion depth it is allowed. *)
Theorem nextToken_returns_elsewhere :
  forall lx : Lexer.t,
    ~ semicolon_after_newline lx ->
    exists r : Token * Lexer.t, forall n : nat, Lexer.nextToken (S n) lx = Some r.
Proof.
  intros lx Hno.
  assert (Hbody : forall self : Lexer.t -> option (Token * Lexer.t),
             Lexer.nextToken_body self lx = Lexer.nextToken_body (fun _ => None) lx
             /\ Lexer.nextToken_body (fun _ => None) lx <> None).
  { intros self. unfold Lexer.nextToken_body. cbv zeta.
    set (lx0 := Lexer.mark_start (Lexer.skipWhitespace lx)).
    destruct (Lexer.isAtEnd lx0) eqn:He; [split; [reflexivity|discriminate]|].
    destruct (advance_not_at_end lx0 He) as (Hc & Hsrc & Hcur).
    destruct (Lexer.advance lx0) as [c lx1]. cbn [fst snd] in *.
    destruct (Lexer.isAlpha c); [split; [reflexivity|discriminate]|].
    destruct (isdigit c); [split; [reflexivity|discriminate]|].
    destruct (Ascii.eqb c DQUOTE); [split; [reflexivity|discriminate]|].
    assert (Hone : forall e ty2 ty1, Lexer.one_or_two e ty2 ty1 lx1 <> None).
    { intros e ty2 ty1. unfold Lexer.one_or_two.
      destruct (Lexer.match_ e lx1) as [[] l]; discriminate. }
    repeat match goal with
    | |- context [if ?b then _ else _] =>
        lazymatch b with
        | (char_int c =? _)%Z => destruct b eqn:?
        end
    end; try (split; [reflexivity|first [discriminate | apply Hone]]).
    match goal with
    | E : (char_int c =? char_const ";")%Z = true |- _ =>
        apply Z.eqb_eq in E; apply char_int_is_const in E; [|vm_compute; lia]
    end.
    match goal with
    | E : c = ";"%char |- _ => rewrite E in *; clear E
    end.
    unfold Lexer.handleSemicolon.
    destruct (_ && _) eqn:Hcond; [|split; [reflexivity|discriminate]].
    exfalso. apply Hno.
    apply andb_prop in Hcond as [Hc1 Hc2].
    apply Nat.ltb_lt in Hc1. apply Ascii.eqb_eq in Hc2.
    rewrite Hsrc, Hcur in Hc2. rewrite Hcur in Hc1.
    change (Lexer.source lx0) with (Lexer.source (Lexer.skipWhitespace lx)) in *.
    change (Lexer.current lx0) with (Lexer.current (Lexer.skipWhitespace lx)) in *.
    change (Lexer.isAtEnd lx0) with (Lexer.isAtEnd (Lexer.skipWhitespace lx)) in He.
    rewrite skipWhitespace_source in *.
    split; [|split].
    - unfold Lexer.peek. rewrite He, skipWhitespace_source. symmetry. exact Hc.
    - lia.
    - replace (Lexer.current (Lexer.skipWhitespace lx) - 1)
        with (S (Lexer.current (Lexer.skipWhitespace lx)) - 2) by lia.
      exact Hc2. }
  destruct (Lexer.nextToken_body (fun _ => None) lx) as [r|] eqn:E.
  - exists r. intros n. cbn [Lexer.nextToken].
    exact (proj1 (Hbody (Lexer.nextToken n))).
  - destruct (Hbody (fun _ => None)) as [_ H]. congruence.
Qed.

Lemma nextToken_returns_elsewhere_witness :
  ~ semicolon_after_newline (Lexer.new "x;")
  /\ exists r : Token * Lexer.t, forall n : nat, Lexer.nextToken (S n) (Lexer.new "x;") = Some r.
Proof.
  assert (H : ~ semicolon_after_newline (Lexer.new "x;"))
    by (intros (H & _); vm_compute in H; discriminate H).
  split; [exact H|].
  exact (nextToken_returns_elsewhere (Lexer.new "x;") H).
Defined.

(** Property X2.  From a cursor inside the source, a call of [nextToken]
    that returns leaves the source text as it was and the cursor inside
    it; the cursor never moves back, it moves forward for every token
    other than the end-of-input token, and it stands at the end of the
    source when that token is returned. *)
Theorem nextToken_progress :
  forall (fuel : nat) (lx lx' : Lexer.t) (tk : Token),
    Lexer.current lx <= String.length (Lexer.source lx) ->
    Lexer.nextToken fuel lx = Some (tk, lx') ->
    Lexer.source lx' = Lexer.source lx
    /\ Lexer.current lx <= Lexer.current lx'
    /\ Lexer.current lx' <= String.length (Lexer.source lx)
    /\ (type tk <> token_type.End_ -> Lexer.current lx < Lexer.current lx')
    /\ (type tk = token_type.End_ -> Lexer.current lx' = String.length (Lexer.source lx)).
Proof.
  intros fuel lx lx' tk Hlen H.
  destruct (skipWhitespace_advanced lx) as [j Hj].
  destruct (advanced_fields j lx) as (S1 & _ & _ & _ & S5 & S6).
  rewrite <- Hj in S1, S5, S6. specialize (S6 Hlen).
  apply nextToken_shape in H. cbv zeta in H.
  destruct H as [(He & -> & ->) | (He & Hwm & Hty & k & ->)].
  - change (Lexer.isAtEnd (Lexer.skipWhitespace lx) = true) in He.
    unfold Lexer.isAtEnd in He. apply Nat.leb_le in He. rewrite S1 in He.
    change (Lexer.source (Lexer.mark_start (Lexer.skipWhitespace lx)))
      with (Lexer.source (Lexer.skipWhitespace lx)).
    change (Lexer.current (Lexer.mark_start (Lexer.skipWhitespace lx)))
      with (Lexer.current (Lexer.skipWhitespace lx)).
    repeat split; try assumption; try lia. intros Hne. contradiction Hne. reflexivity.
  - destruct (advance_not_at_end _ He) as (_ & A1 & A2).
    destruct (advanced_fields k (snd (Lexer.advance
                (Lexer.mark_start (Lexer.skipWhitespace lx)))))
      as (K1 & _ & _ & _ & K5 & K6).
    apply isAtEnd_false in He.
    cbn [Lexer.mark_start Lexer.source Lexer.current] in A1, A2, He.
    rewrite A1, A2 in *. rewrite S1 in *.
    repeat split; try assumption; try lia. congruence.
Qed.

Lemma nextToken_progress_witness :
  Lexer.nextToken 1 (lexer_at "let x" 3 0 4 1)
  = Some (mkToken token_type.Identifier "x" 1 5, lexer_at "let x" 5 4 6 5)
  /\ Lexer.current (lexer_at "let x" 3 0 4 1) < Lexer.current (lexer_at "let x" 5 4 6 5).
Proof.
  split; [reflexivity|].
  refine (proj1 (proj2 (proj2 (proj2 (nextToken_progress 1 (lexer_at "let x" 3 0 4 1)
            (lexer_at "let x" 5 4 6 5) (mkToken token_type.Identifier "x" 1 5) _ eq_refl)))) _).
  - cbn. lia.
  - discriminate.
Defined.

(** Property X3.  Once [nextToken] has returned the end-of-input token,
    every later call returns the same token and leaves the lexer as it
    is. *)
Theorem end_of_input_is_absorbing :
  forall (fuel : nat) (lx lx' : Lexer.t) (tk : Token),
    Lexer.nextToken fuel lx = Some (tk, lx') ->
    type tk = token_type.End_ ->
    forall n : nat, Lexer.nextToken (S n) lx' = Some (tk, lx').
Proof.
  intros fuel lx lx' tk H Hty n.
  apply nextToken_shape in H. cbv zeta in H.
  destruct H as [(He & -> & ->) | (_ & _ & Hne & _)]; [|contradiction].
  set (lx0 := Lexer.mark_start (Lexer.skipWhitespace lx)) in *.
  cbn [Lexer.nextToken]. unfold Lexer.nextToken_body. cbv zeta.
  rewrite (skipWhitespace_at_token lx0) by (rewrite (peek_at_end lx0 He); reflexivity).
  change (Lexer.mark_start lx0) with lx0. rewrite He. reflexivity.
Qed.

Lemma end_of_input_is_absorbing_witness :
  Lexer.nextToken 1 (lexer_at "x " 1 0 2 1)
  = Some (mkToken token_type.End_ "" 1 3, lexer_at "x " 2 2 3 3)
  /\ Lexer.nextToken 5 (lexer_at "x " 2 2 3 3)
     = Some (mkToken token_type.End_ "" 1 3, lexer_at "x " 2 2 3 3).
Proof.
  split; [reflexivity|].
  exact (end_of_input_is_absorbing 1 (lexer_at "x " 1 0 2 1) (lexer_at "x " 2 2 3 3)
           (mkToken token_type.End_ "" 1 3) eq_refl eq_refl 4).
Defined.

(** Where a returned token starts and what it carries. *)
Lemma nextToken_token_fields (fuel : nat) (lx lx' : Lexer.t) (tk : Token) :
  Lexer.nextToken fuel lx = Some (tk, lx') ->
  Lexer.source lx' = Lexer.source lx
  /\ Lexer.start lx' = Lexer.current (Lexer.skipWhitespace lx)
  /\ line tk = Lexer.line (Lexer.skipWhitespace lx)
  /\ column tk = Lexer.column (Lexer.skipWhitespace lx)
  /\ (type tk <> token_type.Unexpected ->
      lexeme tk = String.substring (Lexer.start lx') (Lexer.current lx' - Lexer.start lx')
                                   (Lexer.source lx))
  /\ (tracked lx -> tracked lx').
Proof.
  intros H. apply nextToken_shape in H. cbv zeta in H.
  set (lx0 := Lexer.mark_start (Lexer.skipWhitespace lx)) in *.
  assert (Hsrc0 : Lexer.source lx0 = Lexer.source lx) by apply skipWhitespace_source.
  assert (Hfields : forall l : Lexer.t,
             Lexer.source l = Lexer.source lx0 ->
             Lexer.start l = Lexer.start lx0 ->
             Lexer.line_start l = Lexer.line_start lx0 ->
             Lexer.column_start l = Lexer.column_start lx0 ->
             well_made tk l ->
             Lexer.source l = Lexer.source lx
             /\ Lexer.start l = Lexer.current (Lexer.skipWhitespace lx)
             /\ line tk = Lexer.line (Lexer.skipWhitespace lx)
             /\ column tk = Lexer.column (Lexer.skipWhitespace lx)
             /\ (type tk <> token_type.Unexpected ->
                 lexeme tk = String.substring (Lexer.start l)
                               (Lexer.current l - Lexer.start l) (Lexer.source lx))).
  { intros l L1 L2 L3 L4 Hwm. rewrite Hsrc0 in L1.
    split; [exact L1|]. split; [exact L2|].
    destruct Hwm as [Hmk | [msg Hmk]]; rewrite Hmk;
      cbn [line column lexeme type Lexer.makeToken Lexer.errorToken];
      rewrite L3, L4.
    - rewrite L1. repeat split.
    - repeat split. intros Hne. contradiction Hne. reflexivity. }
  destruct H as [(He & -> & ->) | (He & Hwm & Hty & k & ->)].
  - destruct (Hfields lx0 eq_refl eq_refl eq_refl eq_refl (or_introl eq_refl))
      as (F1 & F2 & F3 & F4 & F5).
    split; [exact F1|]. split; [exact F2|]. split; [exact F3|]. split; [exact F4|].
    split; [exact F5|].
    intros Ht. apply mark_start_tracked, skipWhitespace_tracked, Ht.
  - destruct (advanced_fields k (snd (Lexer.advance lx0))) as (K1 & K2 & K3 & K4 & _ & _).
    destruct (advance_fields lx0) as (A1 & A2 & A3 & A4 & _ & _).
    destruct (Hfields _ (eq_trans K1 A1) (eq_trans K2 A2) (eq_trans K3 A3)
                (eq_trans K4 A4) Hwm) as (F1 & F2 & F3 & F4 & F5).
    split; [exact F1|]. split; [exact F2|]. split; [exact F3|]. split; [exact F4|].
    split; [exact F5|].
    intros Ht. apply advanced_tracked, advance_tracked, mark_start_tracked,
                 skipWhitespace_tracked, Ht.
Qed.

Lemma tracked_new (src : string) : tracked (Lexer.new src).
Proof. split; [cbn; lia | reflexivity]. Qed.

(** Property X4.  As long as the lexer's line and column are those of its
    cursor (as they are for a new lexer), they stay so across [nextToken];
    the line and column of the returned token are those of its first
    character, counting lines from 1 by the line feeds before it and
    columns from 1 within the line; and the lexeme of every token other
    than the failure token is the source text from that character to the
    cursor. *)
Theorem token_position_and_lexeme :
  forall (fuel : nat) (lx lx' : Lexer.t) (tk : Token),
    tracked lx ->
    Lexer.nextToken fuel lx = Some (tk, lx') ->
    tracked lx'
    /\ (line tk, column tk) = position_of (Lexer.source lx) (Lexer.start lx')
    /\ (type tk <> token_type.Unexpected ->
        lexeme tk = String.substring (Lexer.start lx') (Lexer.current lx' - Lexer.start lx')
                                     (Lexer.source lx)).
Proof.
  intros fuel lx lx' tk Ht H.
  destruct (nextToken_token_fields fuel lx lx' tk H) as (F1 & F2 & F3 & F4 & F5 & F6).
  split; [exact (F6 Ht)|]. split; [|exact F5].
  destruct (skipWhitespace_tracked lx Ht) as [_ Hpos].
  rewrite F3, F4, F2, Hpos, skipWhitespace_source. reflexivity.
Qed.

Lemma token_position_and_lexeme_witness :
  tracked (Lexer.new two_lines)
  /\ tracked {| Lexer.source := two_lines; Lexer.current := 5; Lexer.start := 4;
                Lexer.line := 1; Lexer.column := 6;
                Lexer.line_start := 1; Lexer.column_start := 5 |}
  /\ Lexer.nextToken 1 {| Lexer.source := two_lines; Lexer.current := 5; Lexer.start := 4;
                           Lexer.line := 1; Lexer.column := 6;
                           Lexer.line_start := 1; Lexer.column_start := 5 |}
     = Some (mkToken token_type.Identifier "bc" 2 3,
             {| Lexer.source := two_lines; Lexer.current := 10; Lexer.start := 8;
                Lexer.line := 2; Lexer.column := 5;
                Lexer.line_start := 2; Lexer.column_start := 3 |})
  /\ (2%Z, 3%Z) = position_of two_lines 8.
Proof.
  assert (Ht : tracked {| Lexer.source := two_lines; Lexer.current := 5; Lexer.start := 4;
                          Lexer.line := 1; Lexer.column := 6;
                          Lexer.line_start := 1; Lexer.column_start := 5 |})
    by (split; [vm_compute; lia | reflexivity]).
  split; [apply tracked_new|]. split; [exact Ht|]. split; [reflexivity|].
  exact (proj1 (proj2 (token_position_and_lexeme 1 _
                  {| Lexer.source := two_lines; Lexer.current := 10; Lexer.start := 8;
                     Lexer.line := 2; Lexer.column := 5;
                     Lexer.line_start := 2; Lexer.column_start := 3 |}
                  (mkToken token_type.Identifier "bc" 2 3) Ht eq_refl))).
Defined.

Lemma keywords_find_kind (tbl : list (string * token_type.t)) (text : string)
      (ty : token_type.t) :
  Lexer.keywords_find tbl text = Some ty -> In ty (map snd tbl).
Proof.
  induction tbl as [|[k t] tbl IH]; [discriminate|].
  cbn [Lexer.keywords_find map snd In].
  destruct (String.eqb k text); [intros [= ->]; left; reflexivity | right; auto].
Qed.

Lemma identifier_kind (lx : Lexer.t) :
  type (fst (Lexer.identifier lx)) = token_type.Identifier
  \/ In (type (fst (Lexer.identifier lx))) (map snd Lexer.keywords).
Proof.
  unfold Lexer.identifier. cbv zeta.
  destruct (Lexer.keywords_find _ _) eqn:E; cbn [fst type].
  - right. exact (keywords_find_kind _ _ _ E).
  - left. reflexivity.
Qed.

(** A [Number] token starts at a digit. *)
Lemma nextToken_Number_starts_at_digit (fuel : nat) (lx lx' : Lexer.t) (tk : Token) :
  Lexer.nextToken fuel lx = Some (tk, lx') ->
  type tk = token_type.Number ->
  Lexer.isAtEnd (Lexer.skipWhitespace lx) = false
  /\ isdigit (char_at (Lexer.source lx) (Lexer.current (Lexer.skipWhitespace lx))) = true.
Proof.
  intros H Hty. pose proof H as Hshape. apply nextToken_shape in Hshape.
  cbv zeta in Hshape.
  destruct fuel as [|fuel]; [discriminate|].
  cbn [Lexer.nextToken] in H. unfold Lexer.nextToken_body in H. cbv zeta in H.
  set (lx0 := Lexer.mark_start (Lexer.skipWhitespace lx)) in *.
  destruct (Lexer.isAtEnd lx0) eqn:He.
  { injection H as <- _. discriminate Hty. }
  split; [exact He|].
  destruct (advance_not_at_end lx0 He) as (Hc & Hsrc & Hcur).
  change (Lexer.source lx0) with (Lexer.source (Lexer.skipWhitespace lx)) in Hc.
  change (Lexer.current lx0) with (Lexer.current (Lexer.skipWhitespace lx)) in Hc.
  rewrite skipWhitespace_source in Hc. rewrite <- Hc.
  destruct (Lexer.advance lx0) as [c lx1]. cbn [fst snd] in *.
  destruct (Lexer.isAlpha c).
  { exfalso. pose proof (identifier_kind lx1) as Hk.
    injection H as H. rewrite H in Hk. cbn [fst] in Hk. rewrite Hty in Hk.
    destruct Hk as [Hk|Hk]; [discriminate Hk|].
    cbn in Hk. repeat (destruct Hk as [Hk|Hk]; [discriminate Hk|]). exact Hk. }
  destruct (isdigit c); [reflexivity|]. exfalso.
  destruct (Ascii.eqb c DQUOTE).
  { injection H as H. unfold Lexer.stringLiteral in H. cbv zeta in H.
    match type of H with
    | context [if Lexer.isAtEnd ?l then _ else _] => destruct (Lexer.isAtEnd l)
    end; injection H as <- _; discriminate Hty. }
  destruct Hshape as [(He' & _) | (_ & Hwm & _ & k & Hk)]; [congruence|].
  rewrite !char_int_not_multichar in H by (vm_compute; discriminate).
  assert (Hone : forall e ty2 ty1 l,
             ty2 <> token_type.Number -> ty1 <> token_type.Number ->
             Lexer.one_or_two e ty2 ty1 l = Some (tk, lx') -> False).
  { intros e ty2 ty1 l H2 H1. unfold Lexer.one_or_two.
    destruct (Lexer.match_ e l) as [[] l']; intros [= <- _]; cbn in Hty; congruence. }
  repeat match type of H with
  | (if ?b then _ else _) = _ => destruct b eqn:?
  end;
  try (injection H as <- _; discriminate Hty);
  try (apply Hone in H; [exact H | discriminate | discriminate]).
  unfold Lexer.handleSemicolon in H.
  destruct (_ && _) eqn:Hcond in H; [|injection H as <- _; discriminate Hty].
  match goal with
  | E : (char_int c =? char_const ";")%Z = true |- _ =>
      apply Z.eqb_eq in E; apply char_int_is_const in E; [|vm_compute; lia]
  end.
  apply andb_prop in Hcond as [Hc1 Hc2].
  apply Nat.ltb_lt in Hc1. apply Ascii.eqb_eq in Hc2.
  pose proof (isAtEnd_false lx0 He) as Hlt.
  rewrite nextToken_semicolon_after_newline in H; [discriminate H| | |].
  - unfold Lexer.peek, Lexer.isAtEnd. cbn [Lexer.set_current Lexer.source Lexer.current].
    rewrite Hsrc, Hcur.
    replace (S (Lexer.current lx0) - 1) with (Lexer.current lx0) by lia.
    replace (String.length (Lexer.source lx0) <=? Lexer.current lx0)%nat
      with false by (symmetry; apply Nat.leb_gt; lia).
    change (Lexer.source lx0) with (Lexer.source (Lexer.skipWhitespace lx)).
    change (Lexer.current lx0) with (Lexer.current (Lexer.skipWhitespace lx)).
    rewrite skipWhitespace_source. congruence.
  - cbn [Lexer.set_current Lexer.current]. lia.
  - cbn [Lexer.set_current Lexer.source Lexer.current].
    replace (Lexer.current lx1 - 1 - 1) with (Lexer.current lx1 - 2) by lia. exact Hc2.
Qed.

Lemma substring_cons (s : string) :
  forall (i n : nat),
    i < String.length s ->
    String.substring i (S n) s = String (char_at s i) (String.substring (S i) n s).
Proof.
  induction s as [|c s IH]; intros i n Hi; cbn [String.length] in Hi; [lia|].
  destruct i as [|i].
  - reflexivity.
  - cbn [String.substring]. rewrite IH by lia. reflexivity.
Qed.

Lemma leading_digits_nonneg (s : string) :
  forall acc : Z, (0 <= acc)%Z -> (0 <= leading_digits s acc)%Z.
Proof.
  induction s as [|c s IH]; intros acc Hacc; cbn [leading_digits]; [exact Hacc|].
  destruct (isdigit c) eqn:Hd; [|exact Hacc].
  apply IH. unfold isdigit, char_between in Hd.
  apply andb_prop in Hd as [Hd _]. apply Nat.leb_le in Hd.
  change (nat_of_ascii "0") with 48 in Hd. lia.
Qed.

(** Property X5.  The lexeme of a [Number] token starts with a digit, so
    the conversion that [parseBinaryExpression] applies to it either
    yields a value between 0 and [INT_MAX] or fails with the out-of-range
    error; it never fails for want of a digit. *)
Theorem number_token_converts :
  forall (fuel : nat) (lx lx' : Lexer.t) (tk : Token),
    Lexer.nextToken fuel lx = Some (tk, lx') ->
    type tk = token_type.Number ->
    (exists c rest, lexeme tk = String c rest /\ isdigit c = true)
    /\ ((exists v : Z, stoi (lexeme tk) = inl v /\ (0 <= v <= INT_MAX)%Z)
        \/ stoi (lexeme tk) = inr "stoi argument out of range").
Proof.
  intros fuel lx lx' tk H Hty.
  destruct (nextToken_Number_starts_at_digit fuel lx lx' tk H Hty) as [He Hd].
  destruct (nextToken_token_fields fuel lx lx' tk H) as (F1 & F2 & _ & _ & F5 & _).
  specialize (F5 ltac:(rewrite Hty; discriminate)).
  assert (Hprog : Lexer.start lx' < Lexer.current lx').
  { rewrite F2.
    apply nextToken_shape in H. cbv zeta in H.
    destruct H as [(He' & _) | (_ & _ & _ & k & ->)];
      [change (Lexer.isAtEnd (Lexer.skipWhitespace lx) = true) in He'; congruence|].
    destruct (advanced_fields k (snd (Lexer.advance
                (Lexer.mark_start (Lexer.skipWhitespace lx))))) as (_ & _ & _ & _ & K5 & _).
    destruct (advance_not_at_end (Lexer.mark_start (Lexer.skipWhitespace lx)) He)
      as (_ & _ & A2).
    rewrite A2 in K5. exact K5. }
  apply isAtEnd_false in He. rewrite skipWhitespace_source in He. rewrite <- F2 in He, Hd.
  assert (Hlex : lexeme tk
                 = String (char_at (Lexer.source lx) (Lexer.start lx'))
                     (String.substring (S (Lexer.start lx'))
                        (Lexer.current lx' - Lexer.start lx' - 1) (Lexer.source lx))).
  { rewrite F5.
    replace (Lexer.current lx' - Lexer.start lx')
      with (S (Lexer.current lx' - Lexer.start lx' - 1)) at 1 by lia.
    apply substring_cons. exact He. }
  split; [eexists _, _; split; [exact Hlex | exact Hd]|].
  rewrite Hlex. unfold stoi. rewrite Hd.
  match goal with |- context [leading_digits ?s 0] => set (v := leading_digits s 0) end.
  destruct (Z.leb_spec v INT_MAX) as [Hle|Hgt].
  - left. exists v. split; [reflexivity|]. split; [|exact Hle].
    apply leading_digits_nonneg. lia.
  - right. reflexivity.
Qed.

Lemma number_token_converts_witness :
  Lexer.nextToken 1 (Lexer.new "99999999999;")
  = Some (mkToken token_type.Number "99999999999" 1 1, lexer_at "99999999999;" 11 0 12 1)
  /\ ((exists v : Z, stoi "99999999999" = inl v /\ (0 <= v <= INT_MAX)%Z)
      \/ stoi "99999999999" = inr "stoi argument out of range").
Proof.
  split; [reflexivity|].
  exact (proj2 (number_token_converts 1 (Lexer.new "99999999999;")
                  (lexer_at "99999999999;" 11 0 12 1)
                  (mkToken token_type.Number "99999999999" 1 1) eq_refl eq_refl)).
Defined.

Lemma stringLiteral_kind (lx : Lexer.t) :
  producible (type (fst (Lexer.stringLiteral lx))) = true.
Proof.
  unfold Lexer.stringLiteral. cbv zeta.
  destruct (Lexer.isAtEnd _); reflexivity.
Qed.

Lemma one_or_two_kind (e : ascii) (ty2 ty1 : token_type.t) (lx : Lexer.t)
      (tk : Token) (lx' : Lexer.t) :
  producible ty2 = true -> producible ty1 = true ->
  Lexer.one_or_two e ty2 ty1 lx = Some (tk, lx') -> producible (type tk) = true.
Proof.
  intros H2 H1. unfold Lexer.one_or_two.
  destruct (Lexer.match_ e lx) as [[] l']; intros [= <- _]; assumption.
Qed.

Lemma nextToken_producible (fuel : nat) (lx lx' : Lexer.t) (tk : Token) :
  Lexer.nextToken fuel lx = Some (tk, lx') -> producible (type tk) = true.
Proof.
  revert lx. induction fuel as [|fuel IH]; intros lx; [discriminate|].
  cbn [Lexer.nextToken]. unfold Lexer.nextToken_body. cbv zeta.
  assert (Hfst : forall r : Token * Lexer.t, Some r = Some (tk, lx') -> tk = fst r)
    by (intros r [= ->]; reflexivity).
  destruct (Lexer.isAtEnd _); [intros E; rewrite (Hfst _ E); reflexivity|].
  destruct (Lexer.advance _) as [c lx1].
  destruct (Lexer.isAlpha c).
  { intros E. rewrite (Hfst _ E).
    destruct (identifier_kind lx1) as [->|Hk]; [reflexivity|].
    revert Hk. generalize (type (Lexer.identifier lx1).1). intros ty Hk.
    cbn in Hk. repeat (destruct Hk as [<-|Hk]; [reflexivity|]). contradiction. }
  destruct (isdigit c); [intros E; rewrite (Hfst _ E); reflexivity|].
  destruct (Ascii.eqb c DQUOTE);
    [intros E; rewrite (Hfst _ E); apply stringLiteral_kind|].
  rewrite !char_int_not_multichar by (vm_compute; discriminate).
  repeat match goal with
  | |- (if ?b then _ else _) = _ -> _ => destruct b
  end;
  try (intros E; rewrite (Hfst _ E); reflexivity);
  try (apply one_or_two_kind; reflexivity).
  unfold Lexer.handleSemicolon.
  destruct (_ && _); [apply IH | intros E; rewrite (Hfst _ E); reflexivity].
Qed.

(** Property X6.  The kinds of token that [nextToken] hands out are all
    kinds of [token_type] except [BangEqual], [LessEqual] and
    [GreaterEqual]: no call returns one of these three, and for each of the
    other kinds there is a source text whose first token has it. *)
Theorem lexer_token_kinds :
  (forall (fuel : nat) (lx lx' : Lexer.t) (tk : Token),
      Lexer.nextToken fuel lx = Some (tk, lx') ->
      producible (type tk) = true /\ type tk <> token_type.BangEqual)
  /\ (forall ty : token_type.t, producible ty = true -> In ty (map fst kind_samples))
  /\ forallb (fun s => first_token_is s.1 s.2) kind_samples = true.
Proof.
  split; [|split].
  - intros fuel lx lx' tk H. pose proof (nextToken_producible _ _ _ _ H) as Hp.
    split; [exact Hp|]. intros E. rewrite E in Hp. discriminate Hp.
  - intros ty H. destruct ty; try discriminate H; cbn; tauto.
  - vm_compute. reflexivity.
Qed.

Lemma other_kind_by_table (tk : Token) :
  type tk <> token_type.Identifier -> keyword_kind (type tk) = false -> kind_by_table tk.
Proof. intros H1 H2. split; [contradiction | congruence]. Qed.

Lemma identifier_kind_by_table (lx : Lexer.t) : kind_by_table (fst (Lexer.identifier lx)).
Proof.
  unfold Lexer.identifier. cbv zeta.
  destruct (Lexer.keywords_find _ _) as [ty|] eqn:E; cbn [fst]; split; cbn.
  - intros ->. apply keywords_find_kind in E. cbn in E.
    repeat (destruct E as [E|E]; [discriminate E|]). contradiction.
  - intros _. exact E.
  - intros _. exact E.
  - discriminate.
Qed.

Lemma one_or_two_kind_by_table (e : ascii) (ty2 ty1 : token_type.t) (lx lx' : Lexer.t)
      (tk : Token) :
  ty2 <> token_type.Identifier -> keyword_kind ty2 = false ->
  ty1 <> token_type.Identifier -> keyword_kind ty1 = false ->
  Lexer.one_or_two e ty2 ty1 lx = Some (tk, lx') -> kind_by_table tk.
Proof.
  intros A2 B2 A1 B1. unfold Lexer.one_or_two.
  destruct (Lexer.match_ e lx) as [[] l']; intros [= <- _];
    apply other_kind_by_table; assumption.
Qed.

Lemma nextToken_kind_by_table (fuel : nat) :
  forall (lx lx' : Lexer.t) (tk : Token),
    Lexer.nextToken fuel lx = Some (tk, lx') -> kind_by_table tk.
Proof.
  induction fuel as [|fuel IH]; intros lx lx' tk; [discriminate|].
  cbn [Lexer.nextToken]. unfold Lexer.nextToken_body. cbv zeta.
  assert (Hfst : forall r : Token * Lexer.t, Some r = Some (tk, lx') -> tk = fst r)
    by (intros r [= ->]; reflexivity).
  assert (Hother : forall (ty : token_type.t) (l : Lexer.t),
             ty <> token_type.Identifier -> keyword_kind ty = false ->
             Some (Lexer.makeToken ty l, l) = Some (tk, lx') -> kind_by_table tk).
  { intros ty l H1 H2 [= <- _]. apply other_kind_by_table; assumption. }
  destruct (Lexer.isAtEnd _); [apply Hother; [discriminate | reflexivity]|].
  destruct (Lexer.advance _) as [c lx1].
  destruct (Lexer.isAlpha c);
    [intros E; rewrite (Hfst _ E); apply identifier_kind_by_table|].
  destruct (isdigit c).
  { intros E. rewrite (Hfst _ E). apply other_kind_by_table; [discriminate | reflexivity]. }
  destruct (Ascii.eqb c DQUOTE).
  { intros E. rewrite (Hfst _ E). unfold Lexer.stringLiteral. cbv zeta.
    destruct (Lexer.isAtEnd _); apply other_kind_by_table; solve [discriminate | reflexivity]. }
  repeat match goal with
  | |- (if ?b then _ else _) = _ -> _ => destruct b
  end;
  try (apply Hother; [discriminate | reflexivity]);
  try (apply one_or_two_kind_by_table; solve [discriminate | reflexivity]).
  - unfold Lexer.handleSemicolon.
    destruct (_ && _); [apply IH | apply Hother; [discriminate | reflexivity]].
  - intros [= <- _]. apply other_kind_by_table; [discriminate | reflexivity].
Qed.

(** Property X7.  The keywords are reserved: no [Identifier] token that
    [nextToken] returns has a keyword as its lexeme, and every token of a
    keyword kind has as its lexeme the keyword that the table gives for
    that kind. *)
Theorem keywords_are_reserved :
  forall (fuel : nat) (lx lx' : Lexer.t) (tk : Token),
    Lexer.nextToken fuel lx = Some (tk, lx') ->
    (type tk = token_type.Identifier ->
     forall kw : string, In kw (map fst Lexer.keywords) -> lexeme tk <> kw)
    /\ (keyword_kind (type tk) = true -> In (lexeme tk, type tk) Lexer.keywords).
Proof.
  intros fuel lx lx' tk H.
  destruct (nextToken_kind_by_table fuel lx lx' tk H) as [H1 H2].
  split.
  - intros Hty kw Hkw Heq. specialize (H1 Hty). rewrite Heq in H1.
    cbn in Hkw. repeat (destruct Hkw as [<-|Hkw]; [discriminate H1|]). contradiction.
  - intros Hk. specialize (H2 Hk). revert H2. generalize (type tk) (lexeme tk).
    intros ty text. unfold Lexer.keywords.
    cbn [Lexer.keywords_find In].
    repeat match goal with
    | |- (if String.eqb ?k text then _ else _) = _ -> _ =>
        destruct (String.eqb_spec k text) as [E|_];
          [intros [= <-]; rewrite <- E; repeat (first [left; reflexivity | right])|]
    end.
    discriminate.
Qed.

Lemma keywords_are_reserved_witness :
  Lexer.nextToken 1 (Lexer.new "while (x)")
  = Some (mkToken token_type.While "while" 1 1, lexer_at "while (x)" 5 0 6 1)
  /\ In ("while", token_type.While) Lexer.keywords.
Proof.
  split; [reflexivity|].
  exact (proj2 (keywords_are_reserved 1 (Lexer.new "while (x)")
                  (lexer_at "while (x)" 5 0 6 1) (mkToken token_type.While "while" 1 1)
                  eq_refl) eq_refl).
Defined.

(** ** The interpreter: what execution can and cannot change *)

Lemma execStatement_S (fuel : nat) (stmt : option ASTNode) (st : Interpreter.t) :
  Interpreter.execStatement (S fuel) stmt st
  = match stmt with
    | None => Interpreter.Throw "Unsupported statement at top level" st
    | Some node =>
        match Interpreter.execCommon fuel node st with
        | Some r => r
        | None =>
            match node with
            | ReturnStmt _ _ expression =>
                Interpreter.bind (Interpreter.evalExpr fuel expression st)
                                 (fun _ st1 => Interpreter.Ok tt st1)
            | _ => Interpreter.Throw "Unsupported statement at top level" st
            end
        end
    end.
Proof. reflexivity. Qed.

Lemma execCommon_S (fuel : nat) (node : ASTNode) (st : Interpreter.t) :
  Interpreter.execCommon (S fuel) node st
  = match node with
    | ForStmt _ _ init condition increment body =>
        Some (Interpreter.bind (Interpreter.execStatement fuel init st) (fun _ st1 =>
                Interpreter.for_loop fuel condition increment body st1))
    | WhileStmt _ _ condition body =>
        Some (Interpreter.while_loop fuel condition body st)
    | ForEachStmt _ _ varName _ iterable body =>
        Some (Interpreter.evalArray iterable st)
    | CallExpr _ _ funcName args =>
        Some (Interpreter.bind (Interpreter.evalArgs fuel args [] st) (fun argvals st1 =>
                Interpreter.bind (Interpreter.callFunction fuel funcName argvals st1)
                                 (fun _ st2 => Interpreter.Ok tt st2)))
    | PrintStmt _ _ expression =>
        Some (Interpreter.bind (Interpreter.evalExpr fuel expression st) (fun val st1 =>
                Interpreter.Ok tt (Interpreter.print_line val st1)))
    | VarDecl _ _ name _ initializer =>
        Some (Interpreter.bind (Interpreter.evalExpr fuel initializer st) (fun v st1 =>
                Interpreter.Ok tt (Interpreter.assign name v st1)))
    | AssignStmt _ _ name value =>
        Some (Interpreter.bind (Interpreter.evalExpr fuel value st) (fun v st1 =>
                Interpreter.Ok tt (Interpreter.assign name v st1)))
    | ExpressionStmt _ _ expr =>
        Some (Interpreter.bind (Interpreter.evalExpr fuel expr st) (fun _ st1 =>
                Interpreter.Ok tt st1))
    | _ => None
    end.
Proof. destruct node; reflexivity. Qed.

Lemma execStatements_S (fuel : nat) (body : list ASTNode) (st : Interpreter.t) :
  Interpreter.execStatements (S fuel) body st
  = match body with
    | [] => Interpreter.Ok tt st
    | s :: body' =>
        Interpreter.bind (Interpreter.execStatement fuel (Some s) st) (fun _ st1 =>
          Interpreter.execStatements fuel body' st1)
    end.
Proof. destruct body; reflexivity. Qed.

Lemma for_loop_S (fuel : nat) (condition increment : option ASTNode) (body : list ASTNode)
      (st : Interpreter.t) :
  Interpreter.for_loop (S fuel) condition increment body st
  = Interpreter.bind
      match condition with
      | Some e => Interpreter.evalExpr fuel e st
      | None => Interpreter.Throw "Unknown expression type" st
      end
      (fun c st1 =>
         if (c =? 0)%Z then Interpreter.Ok tt st1
         else
           Interpreter.bind (Interpreter.execStatements fuel body st1) (fun _ st2 =>
             Interpreter.bind (Interpreter.execStatement fuel increment st2) (fun _ st3 =>
               Interpreter.for_loop fuel condition increment body st3))).
Proof. reflexivity. Qed.

Lemma while_loop_S (fuel : nat) (condition : ASTNode) (body : list ASTNode)
      (st : Interpreter.t) :
  Interpreter.while_loop (S fuel) condition body st
  = Interpreter.bind (Interpreter.evalExpr fuel condition st) (fun c st1 =>
      if (c =? 0)%Z then Interpreter.Ok tt st1
      else
        Interpreter.bind (Interpreter.execStatements fuel body st1) (fun _ st2 =>
          Interpreter.while_loop fuel condition body st2)).
Proof. reflexivity. Qed.

Lemma extends_refl (st : Interpreter.t) : extends st st.
Proof. repeat split; reflexivity. Qed.

Lemma extends_trans (a b c : Interpreter.t) : extends a b -> extends b c -> extends a c.
Proof.
  intros (F1 & P1 & D1) (F2 & P2 & D2).
  split; [congruence|]. split; etransitivity; eassumption.
Qed.

Lemma outcome_extends_trans {A : Type} (a b : Interpreter.t) (r : Interpreter.result A) :
  extends a b -> outcome_extends b r -> outcome_extends a r.
Proof. intros H. destruct r; cbn; eauto using extends_trans. Qed.

Lemma bind_extends_from {A B : Type} (st : Interpreter.t) (r : Interpreter.result A)
      (k : A -> Interpreter.t -> Interpreter.result B) :
  outcome_extends st r ->
  (forall (a : A) (st1 : Interpreter.t), extends st st1 -> outcome_extends st (k a st1)) ->
  outcome_extends st (Interpreter.bind r k).
Proof.
  intros Hr Hk. destruct r as [a st1| | |]; cbn in *; try assumption.
  exact (Hk a st1 Hr).
Qed.

Lemma bind_extends {A B : Type} (st : Interpreter.t) (r : Interpreter.result A)
      (k : A -> Interpreter.t -> Interpreter.result B) :
  outcome_extends st r ->
  (forall (a : A) (st1 : Interpreter.t), outcome_extends st1 (k a st1)) ->
  outcome_extends st (Interpreter.bind r k).
Proof.
  intros Hr Hk. apply bind_extends_from; [exact Hr|].
  intros a st1 H. exact (outcome_extends_trans _ _ _ H (Hk a st1)).
Qed.

Lemma assign_extends (name : string) (v : Z) (st : Interpreter.t) :
  extends st (Interpreter.assign name v st).
Proof.
  split; [reflexivity|]. split; [reflexivity|].
  cbn. rewrite dom_insert_L. set_solver.
Qed.

Lemma print_line_extends (v : Z) (st : Interpreter.t) :
  extends st (Interpreter.print_line v st).
Proof.
  split; [reflexivity|]. split; [|reflexivity].
  cbn. unfold push_back. apply prefix_app_r. reflexivity.
Qed.

Lemma restore_extends (st st2 : Interpreter.t) :
  extends st st2 -> extends st (Interpreter.set_variables (Interpreter.variables st) st2).
Proof. intros (F & P & _). split; [exact F|]. split; [exact P | reflexivity]. Qed.

Lemma binary_op_extends (op : string) (a b : Z) (st : Interpreter.t) :
  outcome_extends st (Interpreter.binary_op op a b st).
Proof.
  unfold Interpreter.binary_op.
  repeat match goal with
  | |- context [if ?c then _ else _] => destruct c
  end; apply extends_refl.
Qed.

Lemma bind_params_extends (params : list (string * string)) :
  forall (i : nat) (args : list Z) (st : Interpreter.t),
    outcome_extends st (Interpreter.bind_params params i args st).
Proof.
  induction params as [|[name ty] params IH]; intros i args st; cbn [Interpreter.bind_params].
  - apply extends_refl.
  - destruct (args !! i); [|apply extends_refl].
    exact (outcome_extends_trans _ _ _ (assign_extends name z st) (IH _ _ _)).
Qed.

Lemma evalArray_extends {A : Type} (node : ASTNode) (st : Interpreter.t) :
  outcome_extends st (@Interpreter.evalArray A node st).
Proof. destruct node; apply extends_refl. Qed.

(** Every member function keeps the function table, only appends to the
    output and unbinds no variable, whether it returns, throws or runs into
    undefined behaviour. *)
Lemma interpreter_extends (fuel : nat) :
  (forall node st, outcome_extends st (Interpreter.evalExpr fuel node st))
  /\ (forall args acc st, outcome_extends st (Interpreter.evalArgs fuel args acc st))
  /\ (forall name args st, outcome_extends st (Interpreter.callFunction fuel name args st))
  /\ (forall stmt st, outcome_extends st (Interpreter.execStatement fuel stmt st))
  /\ (forall node st r, Interpreter.execCommon fuel node st = Some r -> outcome_extends st r)
  /\ (forall body st, outcome_extends st (Interpreter.execStatements fuel body st))
  /\ (forall c i body st, outcome_extends st (Interpreter.for_loop fuel c i body st))
  /\ (forall c body st, outcome_extends st (Interpreter.while_loop fuel c body st))
  /\ (forall body rv st, outcome_extends st (Interpreter.function_body fuel body rv st))
  /\ (forall func args st, outcome_extends st (Interpreter.execFunction fuel func args st)).
Proof.
  induction fuel as [|fuel (IHe & IHa & IHc & IHs & IHm & IHss & IHf & IHw & IHb & IHx)].
  { repeat split; intros; try exact I.
    match goal with H : _ = Some _ |- _ => injection H as <- end. exact I. }
  repeat split.
  - intros node st. rewrite evalExpr_S. destruct node; try apply extends_refl.
    + apply bind_extends; [apply IHe|]. intros a st1.
      apply bind_extends; [apply IHe|]. intros b st2. apply binary_op_extends.
    + destruct (Interpreter.variables st !! name); apply extends_refl.
    + apply bind_extends; [apply IHa|]. intros vs st1. apply IHc.
  - intros args acc st. rewrite evalArgs_S. destruct args; [apply extends_refl|].
    apply bind_extends; [apply IHe|]. intros v st1. apply IHa.
  - intros name args st. rewrite callFunction_S.
    destruct (Interpreter.functions st !! name); [apply IHx | apply extends_refl].
  - intros stmt st. rewrite execStatement_S. destruct stmt as [node|]; [|apply extends_refl].
    destruct (Interpreter.execCommon fuel node st) as [r|] eqn:E; [exact (IHm _ _ _ E)|].
    destruct node; try apply extends_refl.
    apply bind_extends; [apply IHe|]. intros _ st1. apply extends_refl.
  - intros node st r. rewrite execCommon_S.
    destruct node; try discriminate; intros [= <-].
    + apply bind_extends; [apply IHe|]. intros v st1. apply print_line_extends.
    + apply bind_extends; [apply IHe|]. intros v st1. apply assign_extends.
    + apply bind_extends; [apply IHe|]. intros v st1. apply assign_extends.
    + apply bind_extends; [apply IHe|]. intros v st1. apply extends_refl.
    + apply bind_extends; [apply IHs|]. intros _ st1. apply IHf.
    + apply evalArray_extends.
    + apply IHw.
    + apply bind_extends; [apply IHa|]. intros vs st1.
      apply bind_extends; [apply IHc|]. intros _ st2. apply extends_refl.
  - intros body st. rewrite execStatements_S. destruct body; [apply extends_refl|].
    apply bind_extends; [apply IHs|]. intros _ st1. apply IHss.
  - intros c i body st. rewrite for_loop_S.
    apply bind_extends; [destruct c; [apply IHe | apply extends_refl]|].
    intros v st1. destruct (v =? 0)%Z; [apply extends_refl|].
    apply bind_extends; [apply IHss|]. intros _ st2.
    apply bind_extends; [apply IHs|]. intros _ st3. apply IHf.
  - intros c body st. rewrite while_loop_S.
    apply bind_extends; [apply IHe|].
    intros v st1. destruct (v =? 0)%Z; [apply extends_refl|].
    apply bind_extends; [apply IHss|]. intros _ st2. apply IHw.
  - intros body rv st. rewrite function_body_S. destruct body as [|s body]; [apply extends_refl|].
    destruct s; try apply IHe;
      (destruct (Interpreter.execCommon fuel _ st) as [r|] eqn:E; [|apply IHb];
       apply bind_extends; [exact (IHm _ _ _ E)|]; intros _ st1; apply IHb).
  - intros func args st. rewrite execFunction_S.
    apply bind_extends_from; [apply bind_params_extends|]. intros _ st1 H1.
    apply bind_extends_from; [exact (outcome_extends_trans _ _ _ H1 (IHb _ _ _))|].
    intros rv st2 H2. apply restore_extends. exact H2.
Qed.

(** Property X8.  Whatever a call, a statement or an expression does and
    however it ends (normally, by an exception or in undefined behaviour),
    it leaves the function table as it was, only appends to the output
    written so far, and leaves every variable that was bound bound. *)
Theorem execution_keeps_functions_output_and_bindings :
  forall (fuel : nat) (st : Interpreter.t),
    (forall (name : string) (args : list Z),
        outcome_extends st (Interpreter.callFunction fuel name args st))
    /\ (forall stmt : option ASTNode,
          outcome_extends st (Interpreter.execStatement fuel stmt st))
    /\ (forall node : ASTNode, outcome_extends st (Interpreter.evalExpr fuel node st)).
Proof.
  intros fuel st.
  destruct (interpreter_extends fuel) as (He & _ & Hc & Hs & _).
  split; [|split]; intros; [apply Hc | apply Hs | apply He].
Qed.



(** *** Values *)

Lemma wrap32_in_range (z : Z) : (INT_MIN <= z <= INT_MAX)%Z -> wrap32 z = z.
Proof.
  unfold INT_MIN, INT_MAX, wrap32. intros H.
  rewrite Z.mod_small by lia. lia.
Qed.

Lemma binary_op_in_range (op : string) (a b v : Z) (st st' : Interpreter.t) :
  (INT_MIN <= a <= INT_MAX)%Z -> (INT_MIN <= b <= INT_MAX)%Z ->
  Interpreter.binary_op op a b st = Interpreter.Ok v st' ->
  (INT_MIN <= v <= INT_MAX)%Z /\ st' = st.
Proof.
  intros Ha Hb H.
  split; [|exact (binary_op_state _ _ _ _ _ _ H)].
  assert (Hwrap : forall z : Z, (INT_MIN <= wrap32 z <= INT_MAX)%Z).
  { intros z. unfold wrap32, INT_MIN, INT_MAX.
    pose proof (Z.mod_pos_bound (z + 2 ^ 31) (2 ^ 32) ltac:(lia)). lia. }
  assert (Hbool : forall c : bool, (INT_MIN <= Interpreter.bool_int c <= INT_MAX)%Z).
  { intros []; vm_compute; split; discriminate. }
  unfold Interpreter.binary_op in H.
  repeat match type of H with
  | (if ?c then _ else _) = _ => destruct c eqn:?
  end; try discriminate H; injection H as <- _; auto.
  match goal with
  | E1 : (b =? 0)%Z = false, E2 : (_ && _) = false |- _ =>
      apply Z.eqb_neq in E1; apply andb_false_iff in E2;
      rename E1 into Hb0; rename E2 into Hov
  end.
  unfold INT_MIN, INT_MAX in *.
  assert (Habs : (Z.abs (a ÷ b) <= Z.abs a)%Z).
  { rewrite <- Z.quot_abs by lia.
    apply Z.quot_le_upper_bound; [lia|]. nia. }
  destruct (Z.eq_dec a (-2147483648)%Z) as [->|Ha'].
  - assert (Hb1 : b <> (-1)%Z).
    { intros ->. destruct Hov as [E|E]; apply Z.eqb_neq in E; lia. }
    destruct (Z.eq_dec b 1%Z) as [->|Hb2].
    + rewrite Z.quot_1_r. lia.
    + assert (Hq : (Z.abs (-2147483648 ÷ b) <= 1073741824)%Z).
      { rewrite <- Z.quot_abs by lia.
        apply Z.quot_le_upper_bound; [lia|].
        change (Z.abs (-2147483648)) with 2147483648%Z. lia. }
      lia.
  - lia.
Qed.

(** Property X10.  On operands in the range of [int], an operator that
    yields a value yields one in the range of [int] and changes nothing
    else.  [+], [-] and [*] yield the exact sum, difference and product
    whenever that lies in the range, and [/] yields the quotient truncated
    towards zero, its divisor being non-zero. *)
Theorem binary_op_stays_in_int_range :
  forall (op : string) (a b v : Z) (st st' : Interpreter.t),
    (INT_MIN <= a <= INT_MAX)%Z -> (INT_MIN <= b <= INT_MAX)%Z ->
    Interpreter.binary_op op a b st = Interpreter.Ok v st' ->
    (INT_MIN <= v <= INT_MAX)%Z /\ st' = st
    /\ (op = "+" -> (INT_MIN <= a + b <= INT_MAX)%Z -> v = (a + b)%Z)
    /\ (op = "-" -> (INT_MIN <= a - b <= INT_MAX)%Z -> v = (a - b)%Z)
    /\ (op = "*" -> (INT_MIN <= a * b <= INT_MAX)%Z -> v = (a * b)%Z)
    /\ (op = "/" -> b <> 0%Z /\ v = (a ÷ b)%Z).
Proof.
  intros op a b v st st' Ha Hb H.
  destruct (binary_op_in_range op a b v st st' Ha Hb H) as [Hv Hst].
  split; [exact Hv|]. split; [exact Hst|].
  split; [|split; [|split]]; intros ->; cbn in H.
  - intros Hr. rewrite wrap32_in_range in H by exact Hr. congruence.
  - intros Hr. rewrite wrap32_in_range in H by exact Hr. congruence.
  - intros Hr. rewrite wrap32_in_range in H by exact Hr. congruence.
  - destruct (b =? 0)%Z eqn:E; [discriminate H|]. apply Z.eqb_neq in E.
    split; [exact E|].
    destruct (_ && _); [discriminate H|]. congruence.
Qed.

Lemma binary_op_stays_in_int_range_witness :
  (INT_MIN <= 7 <= INT_MAX)%Z /\ (INT_MIN <= -2 <= INT_MAX)%Z
  /\ Interpreter.binary_op "/" 7 (-2) Interpreter.new = Interpreter.Ok (-3)%Z Interpreter.new
  /\ (INT_MIN <= -3 <= INT_MAX)%Z.
Proof.
  assert (Ha : (INT_MIN <= 7 <= INT_MAX)%Z) by (unfold INT_MIN, INT_MAX; lia).
  assert (Hb : (INT_MIN <= -2 <= INT_MAX)%Z) by (unfold INT_MIN, INT_MAX; lia).
  split; [exact Ha|]. split; [exact Hb|]. split; [reflexivity|].
  exact (proj1 (binary_op_stays_in_int_range "/" 7 (-2) (-3) Interpreter.new Interpreter.new
                  Ha Hb eq_refl)).
Defined.

(** *** Calls *)

Lemma bind_all_cons (n : string) (names : list string) (v : Z) (vals : list Z)
      (st : Interpreter.t) :
  bind_all (n :: names) (v :: vals) st = bind_all names vals (Interpreter.assign n v st).
Proof. reflexivity. Qed.

Lemma bind_all_other (names : list string) :
  forall (vals : list Z) (st : Interpreter.t) (x : string),
    x ∉ names ->
    Interpreter.variables (bind_all names vals st) !! x = Interpreter.variables st !! x.
Proof.
  induction names as [|n names IH]; intros vals st x Hx; [reflexivity|].
  destruct vals as [|v vals]; [reflexivity|].
  rewrite bind_all_cons, IH by set_solver.
  cbn. apply lookup_insert_ne. set_solver.
Qed.

Lemma bind_all_last (names : list string) :
  forall (vals : list Z) (st : Interpreter.t) (j : nat) (x : string),
    names !! j = Some x ->
    (forall j' : nat, j < j' -> names !! j' <> Some x) ->
    j < length vals ->
    Interpreter.variables (bind_all names vals st) !! x = vals !! j.
Proof.
  induction names as [|n names IH]; intros vals st j x Hj Hlast Hlen; [discriminate|].
  destruct vals as [|v vals]; [cbn in Hlen; lia|].
  rewrite bind_all_cons.
  destruct j as [|j].
  - injection Hj as ->.
    rewrite bind_all_other.
    + cbn. apply lookup_insert_eq.
    + intros Hin. apply list_elem_of_lookup in Hin as [i Hi].
      apply (Hlast (S i)); [lia | exact Hi].
  - cbn in Hj, Hlen. change ((v :: vals) !! S j) with (vals !! j).
    apply IH; [exact Hj | | lia].
    intros j' Hlt. apply (Hlast (S j')). lia.
Qed.

Lemma bind_all_restore (names : list string) :
  forall (vals : list Z) (saved : gmap string Z) (st : Interpreter.t),
    Interpreter.set_variables saved (bind_all names vals st)
    = Interpreter.set_variables saved st.
Proof.
  induction names as [|n names IH]; intros vals saved st; [reflexivity|].
  destruct vals as [|v vals]; [reflexivity|].
  rewrite bind_all_cons, IH. reflexivity.
Qed.

Lemma bind_params_Ok (params : list (string * string)) (args : list Z)
      (st st1 : Interpreter.t) :
  Interpreter.bind_params params 0 args st = Interpreter.Ok tt st1 ->
  length params <= length args /\ st1 = bind_all params.*1 args st.
Proof.
  intros H.
  destruct (Nat.le_gt_cases (length params) (length args)) as [Hle|Hgt].
  - split; [exact Hle|].
    rewrite bind_params_enough in H by (cbn; lia). rewrite drop_0 in H. congruence.
  - destruct (bind_params_short params 0 args st) as [st' E]; [lia | cbn; lia|].
    congruence.
Qed.

(** Property X11.  An expression that evaluates to a value leaves the
    variables and the function table exactly as they were; its only
    effect is the lines that the functions it calls have printed, which
    are appended to the output. *)
Theorem successful_expression_only_prints :
  forall (fuel : nat) (node : ASTNode) (st st' : Interpreter.t) (v : Z),
    Interpreter.evalExpr fuel node st = Interpreter.Ok v st' ->
    exists printed : list string,
      st' = {| Interpreter.variables := Interpreter.variables st;
               Interpreter.functions := Interpreter.functions st;
               Interpreter.cout := (Interpreter.cout st ++ printed)%list |}.
Proof.
  intros fuel node st st' v H.
  pose proof (proj1 (expressions_keep_environment fuel) _ _ _ _ H) as Hv.
  destruct (interpreter_extends fuel) as (He & _).
  specialize (He node st). rewrite H in He. destruct He as (Hf & [printed Hp] & _).
  exists printed. destruct st' as [vs fs out]. cbn in *. congruence.
Qed.

Lemma successful_expression_only_prints_witness :
  Interpreter.evalExpr 12 (CallExpr 1 1 "f" [NumberLiteral 1 3 2]) (demo_interp ∅ ["0"])
  = Interpreter.Ok 7%Z (demo_interp ∅ ["0"; "5"])
  /\ exists printed : list string,
      demo_interp ∅ ["0"; "5"]
      = {| Interpreter.variables := Interpreter.variables (demo_interp ∅ ["0"]);
           Interpreter.functions := Interpreter.functions (demo_interp ∅ ["0"]);
           Interpreter.cout := (Interpreter.cout (demo_interp ∅ ["0"]) ++ printed)%list |}.
Proof.
  assert (H : Interpreter.evalExpr 12 (CallExpr 1 1 "f" [NumberLiteral 1 3 2])
                (demo_interp ∅ ["0"])
              = Interpreter.Ok 7%Z (demo_interp ∅ ["0"; "5"]))
    by (vm_compute; reflexivity).
  split; [exact H|].
  exact (successful_expression_only_prints 12 _ _ _ 7%Z H).
Defined.

(** Property X12.  When the parameters of a call have been bound, each
    parameter name holds the argument at the position of its last
    occurrence in the parameter list, and every other variable of the
    caller is still visible with its value: a function whose body returns
    a variable that is not one of its parameters returns the caller's
    value of it. *)
Theorem parameters_shadow_and_the_rest_stays_visible :
  forall (params : list (string * string)) (args : list Z) (st st1 : Interpreter.t),
    Interpreter.bind_params params 0 args st = Interpreter.Ok tt st1 ->
    (forall (j : nat) (x : string),
        params.*1 !! j = Some x ->
        (forall j' : nat, j < j' -> params.*1 !! j' <> Some x) ->
        exists v : Z, args !! j = Some v /\ Interpreter.variables st1 !! x = Some v)
    /\ (forall x : string,
          x ∉ params.*1 ->
          Interpreter.variables st1 !! x = Interpreter.variables st !! x)
    /\ (forall (fuel : nat) (l c : Z) (name returnType x : string) (at_return at_x : Z * Z)
               (v : Z),
          Interpreter.functions st !! name
          = Some (reader l c name params returnType at_return at_x x) ->
          x ∉ params.*1 ->
          Interpreter.variables st !! x = Some v ->
          Interpreter.callFunction (4 + fuel) name args st = Interpreter.Ok v st).
Proof.
  intros params args st st1 H.
  destruct (bind_params_Ok _ _ _ _ H) as [Hlen ->].
  split; [|split].
  - intros j x Hj Hlast.
    assert (Hjl : j < length args).
    { apply lookup_lt_Some in Hj. rewrite length_fmap in Hj. lia. }
    destruct (lookup_lt_is_Some_2 args j Hjl) as [v Hv].
    exists v. split; [exact Hv|].
    rewrite <- Hv. apply bind_all_last; assumption.
  - intros x Hx. apply bind_all_other. exact Hx.
  - intros fuel l c name returnType x at_return at_x v Hf Hx Hv.
    change (4 + fuel) with (S (S (S (S fuel)))).
    rewrite callFunction_S, Hf, execFunction_S.
    cbn [fd_params fd_body reader]. rewrite H. cbn [Interpreter.bind].
    rewrite function_body_return, evalExpr_S.
    rewrite bind_all_other by exact Hx. rewrite Hv. cbn [Interpreter.bind].
    rewrite bind_all_restore. destruct st; reflexivity.
Qed.

Lemma parameters_shadow_and_the_rest_stays_visible_witness :
  Interpreter.bind_params [("a", "int"); ("b", "int")] 0 [3%Z; 4%Z; 5%Z]
    (Interpreter.assign "a" 1 (Interpreter.assign "x" 2 Interpreter.new))
  = Interpreter.Ok tt
      (Interpreter.assign "b" 4
         (Interpreter.assign "a" 3
            (Interpreter.assign "a" 1 (Interpreter.assign "x" 2 Interpreter.new))))
  /\ (exists v : Z,
         [3%Z; 4%Z; 5%Z] !! 0 = Some v
         /\ Interpreter.variables
              (Interpreter.assign "b" 4
                 (Interpreter.assign "a" 3
                    (Interpreter.assign "a" 1 (Interpreter.assign "x" 2 Interpreter.new))))
            !! "a" = Some v).
Proof.
  assert (H : Interpreter.bind_params [("a", "int"); ("b", "int")] 0 [3%Z; 4%Z; 5%Z]
                (Interpreter.assign "a" 1 (Interpreter.assign "x" 2 Interpreter.new))
              = Interpreter.Ok tt
                  (Interpreter.assign "b" 4
                     (Interpreter.assign "a" 3
                        (Interpreter.assign "a" 1 (Interpreter.assign "x" 2 Interpreter.new)))))
    by reflexivity.
  split; [exact H|].
  refine (proj1 (parameters_shadow_and_the_rest_stays_visible _ _ _ _ H) 0 "a" eq_refl _).
  intros [|[|j']] Hlt; [lia | discriminate | discriminate].
Defined.

(** Property X13.  A call of a name that is not in the function table,
    as an expression or as a statement, first evaluates its arguments (so
    what they print is printed) and then throws [Function not found:]
    followed by the name; the variables are as before the call. *)
Theorem call_of_unknown_function_throws_after_its_arguments :
  forall (fuel : nat) (l c : Z) (name : string) (args : list ASTNode) (vs : list Z)
         (st st1 : Interpreter.t),
    Interpreter.functions st !! name = None ->
    Interpreter.evalArgs fuel args [] st = Interpreter.Ok vs st1 ->
    Interpreter.evalExpr (S fuel) (CallExpr l c name args) st
    = Interpreter.Throw ("Function not found: " ++ name) st1
    /\ Interpreter.execStatement (S (S fuel)) (Some (CallExpr l c name args)) st
       = Interpreter.Throw ("Function not found: " ++ name) st1
    /\ Interpreter.variables st1 = Interpreter.variables st.
Proof.
  intros fuel l c name args vs st st1 Hf Ha.
  destruct fuel as [|fuel]; [discriminate Ha|].
  assert (Hf1 : Interpreter.functions st1 !! name = None).
  { destruct (interpreter_extends (S fuel)) as (_ & Hargs & _).
    specialize (Hargs args [] st). rewrite Ha in Hargs.
    destruct Hargs as (-> & _). exact Hf. }
  split; [|split].
  - rewrite evalExpr_S, Ha. cbn [Interpreter.bind]. rewrite callFunction_S, Hf1. reflexivity.
  - rewrite execStatement_S, execCommon_S, Ha. cbn [Interpreter.bind].
    rewrite callFunction_S, Hf1. reflexivity.
  - exact (proj2 (expressions_keep_environment (S fuel)) _ _ _ _ _ Ha).
Qed.

Lemma call_of_unknown_function_throws_after_its_arguments_witness :
  Interpreter.functions (demo_interp ∅ []) !! "h" = None
  /\ Interpreter.evalArgs 12 [CallExpr 1 3 "f" [NumberLiteral 1 5 2]] [] (demo_interp ∅ [])
     = Interpreter.Ok [7%Z] (demo_interp ∅ ["5"])
  /\ Interpreter.evalExpr 13 (CallExpr 1 1 "h" [CallExpr 1 3 "f" [NumberLiteral 1 5 2]])
       (demo_interp ∅ [])
     = Interpreter.Throw "Function not found: h" (demo_interp ∅ ["5"]).
Proof.
  assert (Hf : Interpreter.functions (demo_interp ∅ []) !! "h" = None)
    by (vm_compute; reflexivity).
  assert (Ha : Interpreter.evalArgs 12 [CallExpr 1 3 "f" [NumberLiteral 1 5 2]] []
                 (demo_interp ∅ [])
               = Interpreter.Ok [7%Z] (demo_interp ∅ ["5"]))
    by (vm_compute; reflexivity).
  split; [exact Hf|]. split; [exact Ha|].
  exact (proj1 (call_of_unknown_function_throws_after_its_arguments 12 1 1 "h"
                  [CallExpr 1 3 "f" [NumberLiteral 1 5 2]] [7%Z]
                  (demo_interp ∅ []) (demo_interp ∅ ["5"]) Hf Ha)).
Defined.

(** *** A counting loop *)

Lemma eval_counting_condition (k : nat) (p : loop_positions) (i : string) (b v : Z)
      (st : Interpreter.t) :
  Interpreter.variables st !! i = Some v ->
  Interpreter.evalExpr (S (S k)) (counting_condition p i b) st
  = Interpreter.Ok (Interpreter.bool_int (v <? b)%Z) st.
Proof.
  intros Hv. unfold counting_condition.
  rewrite evalExpr_S, !evalExpr_S, Hv. reflexivity.
Qed.

Lemma exec_counting_body (k : nat) (p : loop_positions) (i : string) (v : Z)
      (st : Interpreter.t) :
  Interpreter.variables st !! i = Some v ->
  Interpreter.execStatements (S (S (S (S (S k))))) (counting_body p i) st
  = Interpreter.Ok tt (Interpreter.print_line v st).
Proof.
  intros Hv. unfold counting_body.
  rewrite execStatements_S, execStatement_S, execCommon_S, evalExpr_S, Hv.
  cbn [Interpreter.bind]. rewrite execStatements_S. reflexivity.
Qed.

Lemma exec_counting_increment (k : nat) (p : loop_positions) (i : string) (v : Z)
      (st : Interpreter.t) :
  Interpreter.variables st !! i = Some v ->
  Interpreter.execStatement (S (S (S (S k)))) (Some (counting_increment p i)) st
  = Interpreter.Ok tt (Interpreter.assign i (wrap32 (v + 1)) st).
Proof.
  intros Hv. unfold counting_increment.
  rewrite execStatement_S, execCommon_S, !evalExpr_S, Hv. reflexivity.
Qed.

Lemma counted_zero (i : string) (a : Z) (st : Interpreter.t) :
  Interpreter.variables st !! i = Some a -> counted i a 0 st = st.
Proof.
  intros Hv. destruct st as [vars funs out]. unfold counted. cbn in *.
  rewrite Z.add_0_r, (insert_id _ _ _ Hv), app_nil_r. reflexivity.
Qed.

Lemma counted_succ (i : string) (a : Z) (n : nat) (st : Interpreter.t) :
  counted i (a + 1) n (Interpreter.assign i (a + 1) (Interpreter.print_line a st))
  = counted i a (S n) st.
Proof.
  unfold counted. cbn. unfold push_back.
  rewrite insert_insert_eq, <- app_assoc.
  replace (a + 1 + Z.of_nat n)%Z with (a + Z.pos (Pos.of_succ_nat n))%Z by lia.
  f_equal. f_equal. cbn. rewrite Z.add_0_r. f_equal.
  rewrite <- seq_shift, map_map. apply map_ext. intros j. f_equal. lia.
Qed.

Lemma counting_loop_runs (p : loop_positions) (i : string) (n : nat) :
  forall (a : Z) (k : nat) (st : Interpreter.t),
    Interpreter.variables st !! i = Some a ->
    (INT_MIN <= a)%Z -> (a + Z.of_nat n <= INT_MAX)%Z ->
    Interpreter.for_loop (5 + (k + n))
      (Some (counting_condition p i (a + Z.of_nat n))) (Some (counting_increment p i))
      (counting_body p i) st
    = Interpreter.Ok tt (counted i a n st).
Proof.
  induction n as [|n IH]; intros a k st Hv Hlo Hhi.
  - change (5 + (k + 0)) with (S (S (S (S (S (k + 0)))))).
    rewrite for_loop_S, (eval_counting_condition _ p i _ a st Hv).
    cbn [Interpreter.bind]. rewrite Z.add_0_r, Z.ltb_irrefl. cbn.
    rewrite counted_zero by exact Hv. reflexivity.
  - replace (5 + (k + S n)) with (S (5 + (k + n))) by lia.
    rewrite for_loop_S.
    change (5 + (k + n)) with (S (S (S (S (S (k + n)))))).
    rewrite (eval_counting_condition _ p i _ a st Hv). cbn [Interpreter.bind].
    replace (a <? a + Z.of_nat (S n))%Z with true by (symmetry; apply Z.ltb_lt; lia).
    cbn [Interpreter.bool_int Z.eqb].
    rewrite (exec_counting_body _ p i a st Hv). cbn [Interpreter.bind].
    rewrite (exec_counting_increment _ p i a (Interpreter.print_line a st) Hv).
    cbn [Interpreter.bind].
    rewrite wrap32_in_range by lia.
    change (S (S (S (S (S (k + n)))))) with (5 + (k + n)).
    replace (a + Z.of_nat (S n))%Z with (a + 1 + Z.of_nat n)%Z by lia.
    rewrite IH; [| cbn; apply lookup_insert_eq | lia | lia].
    rewrite counted_succ. reflexivity.
Qed.

(** Property X14.  The loop [for (let i: int = a; i < b; i++) { print(i); }]
    with [INT_MIN <= a <= b <= INT_MAX], run from any state, prints the
    values [a], [a + 1], ..., [b - 1] in this order, one per line, ends
    normally and leaves [i] bound to [b]; it needs a recursion depth that
    grows with [b - a] only. *)
Theorem counting_for_prints_each_value :
  forall (p : loop_positions) (l c : Z) (decl : Z * Z * string) (i : string) (a b : Z)
         (st : Interpreter.t) (k : nat),
    (INT_MIN <= a)%Z -> (a <= b)%Z -> (b <= INT_MAX)%Z ->
    Interpreter.execStatement (7 + (k + Z.to_nat (b - a)))
      (Some (counting_for p l c decl i a b)) st
    = Interpreter.Ok tt
        {| Interpreter.variables := <[i := b]> (Interpreter.variables st);
           Interpreter.functions := Interpreter.functions st;
           Interpreter.cout := (Interpreter.cout st ++ map to_string (seqZ a (b - a)))%list |}.
Proof.
  intros p l c decl i a b st k Hlo Hab Hhi.
  set (n := Z.to_nat (b - a)).
  assert (Hb : b = (a + Z.of_nat n)%Z) by (unfold n; lia).
  change (7 + (k + n)) with (S (S (5 + (k + n)))).
  unfold counting_for.
  rewrite execStatement_S, execCommon_S.
  change (5 + (k + n)) with (S (S (S (S (S (k + n)))))).
  rewrite execStatement_S, execCommon_S, evalExpr_S. cbn [Interpreter.bind].
  change (S (S (S (S (S (k + n)))))) with (5 + (k + n)).
  rewrite Hb at 1.
  rewrite (counting_loop_runs p i n a k (Interpreter.assign i a st));
    [| cbn; apply lookup_insert_eq | exact Hlo | lia].
  f_equal. unfold counted. cbn.
  rewrite insert_insert_eq, <- Hb. f_equal. f_equal.
  unfold seqZ. fold n. rewrite <- list_fmap_compose. apply map_ext.
  intros j. cbn. f_equal. lia.
Qed.

Lemma counting_for_prints_each_value_witness :
  (INT_MIN <= 0)%Z /\ (0 <= 10)%Z /\ (10 <= INT_MAX)%Z
  /\ Interpreter.execStatement 17
       (Some (ForStmt 1 24
                (Some (VarDecl 1 29 "i" "int" (NumberLiteral 1 42 0)))
                (Some (BinaryExpr 1 47 "<" (Identifier 1 45 "i") (NumberLiteral 1 49 10)))
                (Some (AssignStmt 1 54 "i"
                         (BinaryExpr 1 54 "+" (Identifier 1 53 "i") (NumberLiteral 1 54 1))))
                [PrintStmt 1 60 (Identifier 1 66 "i")]))
       Interpreter.new
     = Interpreter.Ok tt
         {| Interpreter.variables := <["i" := 10%Z]> ∅;
            Interpreter.functions := ∅;
            Interpreter.cout := ["0"; "1"; "2"; "3"; "4"; "5"; "6"; "7"; "8"; "9"] |}.
Proof.
  assert (H1 : (INT_MIN <= 0)%Z) by (vm_compute; discriminate).
  assert (H2 : (0 <= 10)%Z) by lia.
  assert (H3 : (10 <= INT_MAX)%Z) by (vm_compute; discriminate).
  split; [exact H1|]. split; [exact H2|]. split; [exact H3|].
  exact (counting_for_prints_each_value
           {| at_init := (1, 42); at_less := (1, 47); at_less_var := (1, 45); at_bound := (1, 49);
              at_incr := (1, 54); at_incr_var := (1, 53);
              at_print := (1, 60); at_print_var := (1, 66) |}%Z
           1 24 (1, 29, "int")%Z "i" 0 10 Interpreter.new 0 H1 H2 H3).
Defined.

(** *** Loops with omitted parts *)

(** Property X15.  A [for] statement with an omitted part, which the parser
    accepts, does not run as a loop without that part.  Without an
    initializer it throws [Unsupported statement at top level] at once;
    without a condition it throws [Unknown expression type] once the
    initializer has run; without an increment it throws
    [Unsupported statement at top level] after the first round of the
    body, if the condition holds at first.  The text [for (;;) { }] parses
    to the loop with no part, and running it ends with status 1. *)
Theorem for_with_omitted_part_throws :
  forall (l c : Z) (body : list ASTNode),
    (forall (fuel : nat) (condition increment : option ASTNode) (st : Interpreter.t),
        Interpreter.execStatement (3 + fuel)
          (Some (ForStmt l c None condition increment body)) st
        = Interpreter.Throw "Unsupported statement at top level" st)
    /\ (forall (fuel : nat) (init : ASTNode) (increment : option ASTNode)
               (st st1 : Interpreter.t),
          Interpreter.execStatement fuel (Some init) st = Interpreter.Ok tt st1 ->
          Interpreter.execStatement (S (S fuel))
            (Some (ForStmt l c (Some init) None increment body)) st
          = Interpreter.Throw "Unknown expression type" st1)
    /\ (forall (fuel : nat) (init condition : ASTNode) (v : Z) (st st1 st2 st3 : Interpreter.t),
          Interpreter.execStatement (S fuel) (Some init) st = Interpreter.Ok tt st1 ->
          Interpreter.evalExpr fuel condition st1 = Interpreter.Ok v st2 ->
          v <> 0%Z ->
          Interpreter.execStatements fuel body st2 = Interpreter.Ok tt st3 ->
          Interpreter.execStatement (S (S (S fuel)))
            (Some (ForStmt l c (Some init) (Some condition) None body)) st
          = Interpreter.Throw "Unsupported statement at top level" st3)
    /\ (forall k : nat,
          parsed (parse_top_level (8 + k) "for (;;) { }")
          = Some (ForStmt 1 1 None None None [])
          /\ entry_main (8 + k) "for (;;) { }"
             = Exited 1 [] ["Error: Unsupported statement at top level"]).
Proof.
  intros l c body. split; [|split; [|split]].
  - intros fuel condition increment st. reflexivity.
  - intros fuel init increment st st1 Hinit.
    destruct fuel as [|fuel]; [discriminate Hinit|].
    rewrite execStatement_S, execCommon_S, Hinit. reflexivity.
  - intros fuel init condition v st st1 st2 st3 Hinit Hc Hv Hbody.
    destruct fuel as [|fuel]; [discriminate Hc|].
    rewrite execStatement_S, execCommon_S, Hinit. cbn [Interpreter.bind].
    rewrite for_loop_S, Hc. cbn [Interpreter.bind].
    apply Z.eqb_neq in Hv. rewrite Hv, Hbody. reflexivity.
  - intros k. split; vm_compute; reflexivity.
Qed.

Lemma for_with_omitted_part_throws_witness :
  Interpreter.execStatement 3 (Some (VarDecl 1 6 "i" "int" (NumberLiteral 1 19 0)))
    Interpreter.new
  = Interpreter.Ok tt (Interpreter.assign "i" 0 Interpreter.new)
  /\ Interpreter.execStatement 5
       (Some (ForStmt 1 1 (Some (VarDecl 1 6 "i" "int" (NumberLiteral 1 19 0))) None None
                [PrintStmt 1 28 (Identifier 1 34 "i")]))
       Interpreter.new
     = Interpreter.Throw "Unknown expression type" (Interpreter.assign "i" 0 Interpreter.new).
Proof.
  assert (H : Interpreter.execStatement 3
                (Some (VarDecl 1 6 "i" "int" (NumberLiteral 1 19 0))) Interpreter.new
              = Interpreter.Ok tt (Interpreter.assign "i" 0 Interpreter.new))
    by reflexivity.
  split; [exact H|].
  exact (proj1 (proj2 (for_with_omitted_part_throws 1 1 [PrintStmt 1 28 (Identifier 1 34 "i")]))
           3 (VarDecl 1 6 "i" "int" (NumberLiteral 1 19 0)) None
           Interpreter.new (Interpreter.assign "i" 0 Interpreter.new) H).
Defined.

(** ** The parser *)

Section Increment.

Context {L : Type}.

Variable nextToken : nat -> L -> option (Token * L).

Lemma parse_step (var tk nxt : Token) (op : string) (l0 l1 l2 : L) (k : nat) :
  type var = token_type.Identifier ->
  (type tk = token_type.PlusPlus /\ op = "+") \/ (type tk = token_type.MinusMinus /\ op = "-") ->
  yields nextToken l0 tk l1 ->
  yields nextToken l1 nxt l2 ->
  Parser.parseExpression nextToken (4 + k) (Parser.mk l0 var)
  = Parser.Ok (step_assignment var tk op) (Parser.mk l2 nxt).
Proof.
  intros Hvar Hop Y1 Y2.
  change (4 + k) with (S (S (S (S k)))).
  rewrite parseExpression_S. unfold Parser.parseExpression_body.
  assert (Hprim : primary_node var
                  = Some (Identifier (line var) (column var) (lexeme var))).
  { unfold primary_node. rewrite Hvar. reflexivity. }
  rewrite (parseBinaryExpression_primary nextToken _ l0 l1 var tk _ Hprim Y1)
    by (destruct Hop as [[-> _]|[-> _]]; discriminate).
  rewrite binop_loop_done
    by (cbn; destruct Hop as [[-> _]|[-> _]]; reflexivity).
  cbn [Parser.bind Parser.currentToken].
  destruct Hop as [[Ht ->]|[Ht ->]]; rewrite Ht; cbn [bool_decide decide_rel];
    rewrite (advance_yields nextToken _ l1 l2 tk nxt Y2); reflexivity.
Qed.

End Increment.

(** Property X16.  Over any token source, an identifier followed by [++]
    or [--] parses to the assignment of the identifier plus or minus 1 to
    itself, and executing that assignment adds 1 to (subtracts 1 from) the
    variable, in 32-bit arithmetic, or throws [Undefined variable:] when
    the variable is unbound. *)
Theorem increment_adds_one :
  forall (L : Type) (nextToken : nat -> L -> option (Token * L))
         (var tk nxt : Token) (delta : Z) (op : string) (l0 l1 l2 : L),
    type var = token_type.Identifier ->
    (type tk = token_type.PlusPlus /\ op = "+" /\ delta = 1%Z)
    \/ (type tk = token_type.MinusMinus /\ op = "-" /\ delta = (-1)%Z) ->
    yields nextToken l0 tk l1 ->
    yields nextToken l1 nxt l2 ->
    (forall k : nat,
        Parser.parseExpression nextToken (4 + k) (Parser.mk l0 var)
        = Parser.Ok (step_assignment var tk op) (Parser.mk l2 nxt))
    /\ (forall (k : nat) (st : Interpreter.t),
          Interpreter.execStatement (4 + k) (Some (step_assignment var tk op)) st
          = match Interpreter.variables st !! lexeme var with
            | Some v => Interpreter.Ok tt (Interpreter.assign (lexeme var) (wrap32 (v + delta)) st)
            | None => Interpreter.Throw ("Undefined variable: " ++ lexeme var) st
            end).
Proof.
  intros L nextToken var tk nxt delta op l0 l1 l2 Hvar Hop Y1 Y2. split.
  - intros k. apply (parse_step nextToken var tk nxt op l0 l1 l2 k Hvar); [|exact Y1|exact Y2].
    destruct Hop as [(H1 & H2 & _)|(H1 & H2 & _)]; [left|right]; split; assumption.
  - intros k st. change (4 + k) with (S (S (S (S k)))). unfold step_assignment.
    rewrite execStatement_S, execCommon_S, !evalExpr_S.
    destruct (Interpreter.variables st !! lexeme var) as [v|]; [|reflexivity].
    destruct Hop as [(_ & -> & ->)|(_ & -> & ->)]; reflexivity.
Qed.

Lemma increment_adds_one_witness :
  type (mkToken token_type.Identifier "i" 1 1) = token_type.Identifier
  /\ yields Lexer.nextToken (lexer_at "i++" 1 0 2 1) (mkToken token_type.PlusPlus "++" 1 2)
            (lexer_at "i++" 3 1 4 2)
  /\ yields Lexer.nextToken (lexer_at "i++" 3 1 4 2) (mkToken token_type.End_ "" 1 4)
            (lexer_at "i++" 3 3 4 4)
  /\ Parser.parseExpression Lexer.nextToken 4
       (Parser.mk (lexer_at "i++" 1 0 2 1) (mkToken token_type.Identifier "i" 1 1))
     = Parser.Ok (AssignStmt 1 2 "i"
                    (BinaryExpr 1 2 "+" (Identifier 1 1 "i") (NumberLiteral 1 2 1)))
                 (Parser.mk (lexer_at "i++" 3 3 4 4) (mkToken token_type.End_ "" 1 4)).
Proof.
  assert (Y1 : yields Lexer.nextToken (lexer_at "i++" 1 0 2 1)
                 (mkToken token_type.PlusPlus "++" 1 2) (lexer_at "i++" 3 1 4 2))
    by (intros n; reflexivity).
  assert (Y2 : yields Lexer.nextToken (lexer_at "i++" 3 1 4 2)
                 (mkToken token_type.End_ "" 1 4) (lexer_at "i++" 3 3 4 4))
    by (intros n; reflexivity).
  split; [reflexivity|]. split; [exact Y1|]. split; [exact Y2|].
  exact (proj1 (increment_adds_one Lexer.t Lexer.nextToken
                  (mkToken token_type.Identifier "i" 1 1)
                  (mkToken token_type.PlusPlus "++" 1 2) (mkToken token_type.End_ "" 1 4)
                  1 "+" _ _ _ eq_refl (or_introl (conj eq_refl (conj eq_refl eq_refl)))
                  Y1 Y2) 0).
Defined.

(** Property X17.  Over any token source, a sequence of one operand
    followed by any number of (operator, operand) pairs, the operands
    being single number or identifier tokens and the operators any tokens
    of the operator loop, parses to the tree nested to the right: all
    operators have the same precedence and group from the right. *)
Theorem operator_chain_nests_to_the_right :
  forall (L : Type) (nextToken : nat -> L -> option (Token * L))
         (rest : list (Token * (Token * ASTNode))) (l l' : L) (first stop : Token)
         (a : ASTNode) (k : nat),
    primary_node first = Some a ->
    well_formed_chain rest ->
    yields_chain nextToken l rest stop l' ->
    ends_expression (type stop) = true ->
    Parser.parseExpression nextToken (3 + 3 * length rest + k) (Parser.mk l first)
    = Parser.Ok (right_nested a (map (fun x => (x.1, x.2.2)) rest)) (Parser.mk l' stop).
Proof.
  intros L nextToken rest l l' first stop a k Ha Hwf Hy Hs.
  exact (parseExpression_chain nextToken rest l l' first stop a k Ha Hwf Hy Hs).
Qed.

Lemma operator_chain_nests_to_the_right_witness :
  Parser.parseExpression replay 12
    (Parser.mk [ mkToken token_type.Star "*" 1 3; mkToken token_type.Identifier "b" 1 5;
                 mkToken token_type.Plus "+" 1 7; mkToken token_type.Identifier "c" 1 9;
                 mkToken token_type.Minus "-" 1 11; mkToken token_type.Number "4" 1 13;
                 mkToken token_type.Semicolon ";" 1 14 ]
               (mkToken token_type.Identifier "a" 1 1))
  = Parser.Ok
      (BinaryExpr 1 3 "*" (Identifier 1 1 "a")
         (BinaryExpr 1 7 "+" (Identifier 1 5 "b")
            (BinaryExpr 1 11 "-" (Identifier 1 9 "c") (NumberLiteral 1 13 4))))
      (Parser.mk [] (mkToken token_type.Semicolon ";" 1 14)).
Proof.
  apply (operator_chain_nests_to_the_right (list Token) replay sample_chain
           _ [] (mkToken token_type.Identifier "a" 1 1)
           (mkToken token_type.Semicolon ";" 1 14) (Identifier 1 1 "a") 0 eq_refl).
  - repeat constructor.
  - cbn. eexists _, _. split; [intros n; reflexivity|]. split; [intros n; reflexivity|].
    eexists _, _. split; [intros n; reflexivity|]. split; [intros n; reflexivity|].
    eexists _, _. split; [intros n; reflexivity|]. split; [intros n; reflexivity|].
    intros n; reflexivity.
  - reflexivity.
Defined.

(** *** The trees the parser can build *)

Section Shapes.

Context {L : Type}.

Variable nextToken : nat -> L -> option (Token * L).

Local Notation "'do' ( x , p ) <- r ; k" := (Parser.bind r (fun x p => k))
  (at level 10, x name, p name, r at level 100, k at level 200).

Lemma parseBlock_S (fuel : nat) (p : Parser.t L) :
  Parser.parseBlock nextToken (S fuel) p
  =
      do (_, p) <- Parser.expect nextToken fuel token_type.LBrace "Expected '{' to start block" p;
      do (body, p) <- Parser.block_loop nextToken fuel [] p;
      do (_, p) <- Parser.expect nextToken fuel token_type.RBrace "Expected '}' to end block" p;
      Parser.Ok body p.
Proof. reflexivity. Qed.

Lemma block_loop_S (fuel : nat) (body : list ASTNode) (p : Parser.t L) :
  Parser.block_loop nextToken (S fuel) body p
  =
      let cur := Parser.currentToken p in
      match type cur with
      | token_type.RBrace | token_type.End_ => Parser.Ok body p
      | token_type.Return =>
          do (returnNode, p) <- Parser.parseReturn nextToken fuel p;
          Parser.block_loop nextToken fuel (push_back body returnNode) p
      | token_type.For =>
          do (forStmt, p) <- Parser.parseStatement nextToken fuel p;
          Parser.block_loop nextToken fuel (push_back body forStmt) p
      | token_type.While =>
          do (whileStmt, p) <- Parser.parseStatement nextToken fuel p;
          Parser.block_loop nextToken fuel (push_back body whileStmt) p
      | token_type.Print =>
          do (printNode, p) <- Parser.parsePrint nextToken fuel p;
          Parser.block_loop nextToken fuel (push_back body printNode) p
      | token_type.Let =>
          do (varDecl, p) <- Parser.parseLet nextToken false fuel p;
          do (_, p) <- Parser.expect nextToken fuel token_type.Semicolon
                         "Expected ';' after variable declaration" p;
          Parser.block_loop nextToken fuel (push_back body varDecl) p
      | token_type.Identifier =>
          let name := lexeme cur in
          do (_, p) <- Parser.advance nextToken fuel p;
          match type (Parser.currentToken p) with
          | token_type.Equal =>
              do (_, p) <- Parser.advance nextToken fuel p;
              do (value, p) <- Parser.parseExpression nextToken fuel p;
              do (_, p) <- Parser.expect nextToken fuel token_type.Semicolon
                             "Expected ';' after assignment" p;
              Parser.block_loop nextToken fuel (push_back body (AssignStmt (line cur) (column cur) name value)) p
          | _ =>
              do (expr, p) <- Parser.parseExpression nextToken fuel p;
              do (_, p) <- Parser.expect nextToken fuel token_type.Semicolon
                             "Expected ';' after expression" p;
              Parser.block_loop nextToken fuel (push_back body (ExpressionStmt (line cur) (column cur) expr)) p
          end
      | _ =>
          Parser.Throw ("Unsupported statement in block: " ++ tokenTypeToString (type cur)
                   ++ " ('" ++ lexeme cur ++ "') at line " ++ to_string (line cur)
                   ++ ":" ++ to_string (column cur))
      end.
Proof. reflexivity. Qed.

Lemma parseStatement_S (fuel : nat) (p : Parser.t L) :
  Parser.parseStatement nextToken (S fuel) p
  =
      let cur := Parser.currentToken p in
      match type cur with
      | token_type.Return => Parser.parseReturn nextToken fuel p
      | token_type.Print => Parser.parsePrint nextToken fuel p
      | token_type.Let =>
          do (varDecl, p) <- Parser.parseLet nextToken true fuel p;
          do (_, p) <- Parser.expect nextToken fuel token_type.Semicolon
                         "Expected ';' after variable declaration" p;
          Parser.Ok varDecl p
      | token_type.Identifier =>
          let name := lexeme cur in
          do (_, p) <- Parser.advance nextToken fuel p;
          match type (Parser.currentToken p) with
          | token_type.Equal =>
              do (_, p) <- Parser.advance nextToken fuel p;
              do (value, p) <- Parser.parseExpression nextToken fuel p;
              do (_, p) <- Parser.expect nextToken fuel token_type.Semicolon
                             "Expected ';' after assignment" p;
              Parser.Ok (AssignStmt (line cur) (column cur) name value) p
          | token_type.LParen =>
              do (_, p) <- Parser.advance nextToken fuel p;
              do (args, p) <-
                match type (Parser.currentToken p) with
                | token_type.RParen => Parser.Ok [] p
                | _ => Parser.parseExprList nextToken fuel [] p
                end;
              do (_, p) <- Parser.expect nextToken fuel token_type.RParen
                             "Expected ')' after function call" p;
              do (_, p) <- Parser.expect nextToken fuel token_type.Semicolon
                             "Expected ';' after function call" p;
              Parser.Ok (CallExpr (line cur) (column cur) name args) p
          | _ =>
              let exprStmt :=
                ExpressionStmt (line cur) (column cur)
                               (Identifier (line cur) (column cur) name) in
              do (_, p) <- Parser.expect nextToken fuel token_type.Semicolon
                             "Expected ';' after expression" p;
              Parser.Ok exprStmt p
          end
      | token_type.For =>
          do (_, p) <- Parser.advance nextToken fuel p;
          do (_, p) <- Parser.expect nextToken fuel token_type.LParen "Expected '(' after for" p;
          do (init, p) <-
            match type (Parser.currentToken p) with
            | token_type.Semicolon =>
                do (_, p) <- Parser.advance nextToken fuel p; Parser.Ok None p
            | token_type.Let =>
                do (varDecl, p) <- Parser.parseLet nextToken true fuel p;
                do (_, p) <- Parser.expect nextToken fuel token_type.Semicolon
                               "Expected ';' after for initializer" p;
                Parser.Ok (Some varDecl) p
            | token_type.Identifier =>
                let first := Parser.currentToken p in
                do (_, p) <- Parser.advance nextToken fuel p;
                do (_, p) <- Parser.expect nextToken fuel token_type.Equal
                               "Expected '=' after variable name" p;
                do (value, p) <- Parser.parseExpression nextToken fuel p;
                do (_, p) <- Parser.expect nextToken fuel token_type.Semicolon
                               "Expected ';' after for initializer" p;
                Parser.Ok (Some (AssignStmt (line first) (column first) (lexeme first) value)) p
            | _ => Parser.Throw "Unsupported for-loop initializer"
            end;
          do (condition, p) <-
            match type (Parser.currentToken p) with
            | token_type.Semicolon => Parser.Ok None p
            | _ => do (e, p) <- Parser.parseExpression nextToken fuel p; Parser.Ok (Some e) p
            end;
          do (_, p) <- Parser.expect nextToken fuel token_type.Semicolon
                         "Expected ';' after for condition" p;
          do (increment, p) <-
            match type (Parser.currentToken p) with
            | token_type.RParen => Parser.Ok None p
            | _ => do (e, p) <- Parser.parseExpression nextToken fuel p; Parser.Ok (Some e) p
            end;
          do (_, p) <- Parser.expect nextToken fuel token_type.RParen "Expected ')' after for increment" p;
          do (body, p) <- Parser.parseBlock nextToken fuel p;
          Parser.Ok (ForStmt (line cur) (column cur) init condition increment body) p
      | token_type.While =>
          do (_, p) <- Parser.advance nextToken fuel p;
          do (_, p) <- Parser.expect nextToken fuel token_type.LParen "Expected '(' after while" p;
          do (condition, p) <- Parser.parseExpression nextToken fuel p;
          do (_, p) <- Parser.expect nextToken fuel token_type.RParen "Expected ')' after while" p;
          do (body, p) <- Parser.parseBlock nextToken fuel p;
          Parser.Ok (WhileStmt (line cur) (column cur) condition body) p
      | _ => Parser.Throw "Unsupported statement at top level"
      end.
Proof. reflexivity. Qed.

Lemma parseExprList_S (n : nat) (acc : list ASTNode) (p : Parser.t L) :
  Parser.parseExprList nextToken (S n) acc p
  = Parser.parseExprList_body nextToken n (Parser.parseExpression nextToken n)
      (Parser.parseExprList nextToken n) acc p.
Proof. reflexivity. Qed.

Lemma builds_bind {A B : Type} (P : A -> Prop) (Q : B -> Prop) (r : Parser.result L A)
      (k : A -> Parser.t L -> Parser.result L B) :
  builds P r -> (forall a p, P a -> builds Q (k a p)) -> builds Q (Parser.bind r k).
Proof. destruct r; cbn; auto. Qed.

Lemma builds_any {A : Type} (r : Parser.result L A) : builds (fun _ => True) r.
Proof. destruct r; exact I. Qed.

Lemma forallb_push_back (f : ASTNode -> bool) (acc : list ASTNode) (e : ASTNode) :
  forallb f acc = true -> f e = true -> forallb f (push_back acc e) = true.
Proof.
  intros Ha He. unfold push_back. rewrite forallb_app, Ha. cbn. rewrite He. reflexivity.
Qed.

Ltac step :=
  match goal with
  | |- builds _ (Parser.bind (Parser.advance _ _ _) _) =>
      apply (builds_bind (fun _ => True)); [apply builds_any | intros [] ? _]
  | |- builds _ (Parser.bind (Parser.expect _ _ _ _ _) _) =>
      apply (builds_bind (fun _ => True)); [apply builds_any | intros [] ? _]
  | |- builds _ (Parser.bind (Parser.parseType _ _ _) _) =>
      apply (builds_bind (fun _ => True)); [apply builds_any | intros ? ? _]
  | |- builds _ (Parser.Throw _) => exact I
  | |- builds _ Parser.Crash => exact I
  | |- builds _ Parser.Hang => exact I
  end.

Lemma expressions_are_expression_trees (fuel : nat) :
  (forall p, builds (fun e => expression_tree e = true)
               (Parser.parseExpression nextToken fuel p))
  /\ (forall p, builds (fun e => expression_tree e = true)
                  (Parser.parseBinaryExpression nextToken fuel p))
  /\ (forall left p, expression_tree left = true ->
                     builds (fun e => expression_tree e = true)
                       (Parser.postfix_loop nextToken fuel left p))
  /\ (forall acc p, forallb expression_tree acc = true ->
                    builds (fun es => forallb expression_tree es = true)
                      (Parser.parseExprList nextToken fuel acc p))
  /\ (forall left p, expression_tree left = true ->
                     builds (fun e => expression_tree e = true)
                       (Parser.binop_loop nextToken fuel left p)).
Proof.
  induction fuel as [|fuel (IHe & IHb & IHp & IHl & IHo)];
    [repeat split; intros; exact I|].
  assert (Hlist : forall p : Parser.t L,
             builds (fun es => forallb expression_tree es = true)
               (match type (Parser.currentToken p) with
                | token_type.RParen => Parser.Ok [] p
                | _ => Parser.parseExprList nextToken fuel [] p
                end)
             /\ builds (fun es => forallb expression_tree es = true)
                  (match type (Parser.currentToken p) with
                   | token_type.RBracket => Parser.Ok [] p
                   | _ => Parser.parseExprList nextToken fuel [] p
                   end)).
  { intros p. split; destruct (type (Parser.currentToken p));
      try (apply IHl; reflexivity); reflexivity. }
  split; [|split; [|split; [|split]]].
  - intros p. rewrite parseExpression_S. unfold Parser.parseExpression_body.
    apply (builds_bind (fun e => expression_tree e = true)); [apply IHb|].
    intros left p1 Hleft.
    destruct (type (Parser.currentToken p1)); try exact Hleft.
    + destruct left; try exact I. step.
      apply (builds_bind (fun e => expression_tree e = true)); [apply IHe|].
      intros value p3 Hv. exact Hv.
    + destruct left; try exact I. step. reflexivity.
    + destruct left; try exact I. step. reflexivity.
  - intros p. rewrite parseBinaryExpression_S. unfold Parser.parseBinaryExpression_body.
    cbv zeta.
    apply (builds_bind (fun e => expression_tree e = true)); [|intros; apply IHo; assumption].
    destruct (type (Parser.currentToken p)); try exact I.
    + step. apply IHp. reflexivity.
    + destruct (stoi _); [|exact I]. step. reflexivity.
    + step. apply (builds_bind (fun e => expression_tree e = true)); [apply IHe|].
      intros left p2 Hleft. step. exact Hleft.
    + step.
      apply (builds_bind (fun es => forallb expression_tree es = true));
        [apply (proj2 (Hlist _))|].
      intros els p2 Hels. step. exact Hels.
  - intros left p Hleft. rewrite postfix_loop_S. unfold Parser.postfix_loop_body.
    cbv zeta.
    destruct (type (Parser.currentToken p)); try exact Hleft.
    + step.
      apply (builds_bind (fun es => forallb expression_tree es = true));
        [apply (proj1 (Hlist _))|].
      intros args p2 Hargs. step.
      destruct left; try exact I. apply IHp. exact Hargs.
    + step. apply (builds_bind (fun e => expression_tree e = true)); [apply IHe|].
      intros index p2 Hi. step. apply IHp. cbn. rewrite Hleft, Hi. reflexivity.
  - intros acc p Hacc. rewrite parseExprList_S. unfold Parser.parseExprList_body.
    apply (builds_bind (fun e => expression_tree e = true)); [apply IHe|].
    intros e p1 He.
    destruct (type (Parser.currentToken p1));
      try (apply forallb_push_back; assumption).
    step. apply IHl. apply forallb_push_back; assumption.
  - intros left p Hleft. rewrite binop_loop_S. unfold Parser.binop_loop_body.
    cbv zeta.
    destruct (Parser.is_binary_operator _); [|exact Hleft].
    step. apply (builds_bind (fun e => expression_tree e = true)); [apply IHe|].
    intros right p2 Hr. apply IHo. cbn. rewrite Hleft, Hr. reflexivity.
Qed.

Ltac expression :=
  apply (builds_bind (fun e => expression_tree e = true));
    [apply (proj1 (expressions_are_expression_trees _)) | intros ? ? ?].

Lemma parseReturn_statement (fuel : nat) (p : Parser.t L) :
  builds (fun s => statement_tree s = true) (Parser.parseReturn nextToken fuel p).
Proof.
  unfold Parser.parseReturn. cbv zeta. step. expression. step. assumption.
Qed.

Lemma parsePrint_statement (fuel : nat) (p : Parser.t L) :
  builds (fun s => statement_tree s = true) (Parser.parsePrint nextToken fuel p).
Proof.
  unfold Parser.parsePrint. cbv zeta. step. step. expression. step. step. assumption.
Qed.

Lemma parseLet_declaration (check_name : bool) (fuel : nat) (p : Parser.t L) :
  builds (fun s => statement_tree s = true /\ for_initializer (Some s) = true)
         (Parser.parseLet nextToken check_name fuel p).
Proof.
  unfold Parser.parseLet. cbv zeta. step.
  destruct (_ && _); [exact I|].
  step. step. step. step. expression. split; assumption.
Qed.

Lemma parseExprList_arguments (fuel : nat) (p : Parser.t L) :
  builds (fun es => forallb expression_tree es = true)
    (match type (Parser.currentToken p) with
     | token_type.RParen => Parser.Ok [] p
     | _ => Parser.parseExprList nextToken fuel [] p
     end).
Proof.
  destruct (type (Parser.currentToken p));
    try (apply (expressions_are_expression_trees fuel); reflexivity); reflexivity.
Qed.

Lemma statements_are_statement_trees (fuel : nat) :
  (forall p, builds (fun ss => forallb statement_tree ss = true)
               (Parser.parseBlock nextToken fuel p))
  /\ (forall body p, forallb statement_tree body = true ->
                     builds (fun ss => forallb statement_tree ss = true)
                       (Parser.block_loop nextToken fuel body p))
  /\ (forall p, builds (fun s => statement_tree s = true)
                  (Parser.parseStatement nextToken fuel p)).
Proof.
  induction fuel as [|fuel (IHb & IHl & IHs)]; [repeat split; intros; exact I|].
  split; [|split].
  - intros p. rewrite parseBlock_S. step.
    apply (builds_bind (fun ss => forallb statement_tree ss = true));
      [apply IHl; reflexivity|].
    intros body p2 Hbody. step. exact Hbody.
  - intros body p Hbody. rewrite block_loop_S. cbv zeta.
    destruct (type (Parser.currentToken p)); try exact I; try exact Hbody.
    + step. destruct (type (Parser.currentToken _)).
      all: try (expression; step; apply IHl; apply forallb_push_back; assumption).
      step. expression. step. apply IHl. apply forallb_push_back; assumption.
    + apply (builds_bind (fun s => statement_tree s = true /\ for_initializer (Some s) = true));
        [apply parseLet_declaration|].
      intros s p1 [Hs _]. step. apply IHl. apply forallb_push_back; assumption.
    + apply (builds_bind (fun s => statement_tree s = true)); [apply parseReturn_statement|].
      intros s p1 Hs. apply IHl. apply forallb_push_back; assumption.
    + apply (builds_bind (fun s => statement_tree s = true)); [apply parsePrint_statement|].
      intros s p1 Hs. apply IHl. apply forallb_push_back; assumption.
    + apply (builds_bind (fun s => statement_tree s = true)); [apply IHs|].
      intros s p1 Hs. apply IHl. apply forallb_push_back; assumption.
    + apply (builds_bind (fun s => statement_tree s = true)); [apply IHs|].
      intros s p1 Hs. apply IHl. apply forallb_push_back; assumption.
  - intros p. rewrite parseStatement_S. cbv zeta.
    destruct (type (Parser.currentToken p)); try exact I.
    + step. destruct (type (Parser.currentToken _)).
      all: try (step; reflexivity).
      * step. expression. step. assumption.
      * step.
        apply (builds_bind (fun es => forallb expression_tree es = true));
          [apply parseExprList_arguments|].
        intros args p3 Hargs. step. step. exact Hargs.
    + apply (builds_bind (fun s => statement_tree s = true /\ for_initializer (Some s) = true));
        [apply parseLet_declaration|].
      intros s p1 [Hs _]. step. exact Hs.
    + apply parseReturn_statement.
    + apply parsePrint_statement.
    + step. step.
      apply (builds_bind (fun init => for_initializer init = true)).
      { destruct (type (Parser.currentToken _)); try exact I.
        - step. step. expression. step. assumption.
        - apply (builds_bind (fun s => statement_tree s = true
                                       /\ for_initializer (Some s) = true));
            [apply parseLet_declaration|].
          intros s p3 [_ Hs]. step. exact Hs.
        - step. reflexivity. }
      intros init p3 Hinit.
      apply (builds_bind (fun c => optional expression_tree c = true)).
      { destruct (type (Parser.currentToken _)); try reflexivity;
          (expression; assumption). }
      intros condition p4 Hc. step.
      apply (builds_bind (fun c => optional expression_tree c = true)).
      { destruct (type (Parser.currentToken _)); try reflexivity;
          (expression; assumption). }
      intros increment p6 Hi. step.
      apply (builds_bind (fun ss => forallb statement_tree ss = true)); [apply IHb|].
      intros body p8 Hbody. cbn [builds statement_tree].
      rewrite Hinit, Hc, Hi, Hbody. reflexivity.
    + step. step. expression. step.
      apply (builds_bind (fun ss => forallb statement_tree ss = true)); [apply IHb|].
      intros body p5 Hbody. cbn [builds statement_tree].
      match goal with H : expression_tree _ = true |- _ => rewrite H end. exact Hbody.
Qed.

Lemma parseFunction_declaration (fuel : nat) (p : Parser.t L) :
  builds (fun n => top_level_tree n = true /\ is_Some (as_FunctionDecl n))
         (Parser.parseFunction nextToken fuel p).
Proof.
  unfold Parser.parseFunction. step.
  cbv zeta. destruct (type (Parser.currentToken _)); try exact I.
  step. step.
  apply (builds_bind (fun _ => True)); [apply builds_any | intros params ? _].
  step.
  apply (builds_bind (fun _ => True)); [apply builds_any | intros returnType ? _].
  apply (builds_bind (fun ss => forallb statement_tree ss = true));
    [apply (proj1 (statements_are_statement_trees _))|].
  intros body p7 Hbody. split; [exact Hbody | eexists; reflexivity].
Qed.

End Shapes.



(** ** The driver *)




(** Property X20.  A source text that holds only whitespace and comments
    runs nothing: the process exits with status 0 and no output. *)
Theorem blank_source_runs_nothing :
  forall (code : string) (k : nat),
    Lexer.isAtEnd (Lexer.skipWhitespace (Lexer.new code)) = true ->
    entry_main (S k) code = Exited 0 [] [].
Proof.
  intros code k He. unfold entry_main, Parser.new.
  cbn [Lexer.nextToken]. unfold Lexer.nextToken_body. cbv zeta.
  change (Lexer.isAtEnd (Lexer.mark_start (Lexer.skipWhitespace (Lexer.new code))))
    with (Lexer.isAtEnd (Lexer.skipWhitespace (Lexer.new code))).
  rewrite He. reflexivity.
Qed.

Lemma blank_source_runs_nothing_witness :
  Lexer.isAtEnd (Lexer.skipWhitespace (Lexer.new "  // nothing here")) = true
  /\ entry_main 1 "  // nothing here" = Exited 0 [] [].
Proof.
  split; [reflexivity|].
  exact (blank_source_runs_nothing "  // nothing here" 0 eq_refl).
Defined.



(** ** From source text to outcome: the array errors *)

Section Messages.

Context {L : Type}.

Variable nextToken : nat -> L -> option (Token * L).

Lemma parser_quiet_bind {A B : Type} (r : Parser.result L A)
      (k : A -> Parser.t L -> Parser.result L B) :
  parser_quiet r -> (forall a p, parser_quiet (k a p)) -> parser_quiet (Parser.bind r k).
Proof. destruct r; cbn; auto. Qed.

Lemma advance_quiet (fuel : nat) (p : Parser.t L) :
  parser_quiet (Parser.advance nextToken fuel p).
Proof. unfold Parser.advance. destruct (nextToken fuel _) as [[tk l]|]; exact I. Qed.

Lemma expect_quiet (fuel : nat) (ty : token_type.t) (msg : string) (p : Parser.t L) :
  (forall rest : string, array_error (msg ++ rest) = false) ->
  parser_quiet (Parser.expect nextToken fuel ty msg p).
Proof.
  intros H. unfold Parser.expect. cbv zeta.
  destruct (bool_decide _); [apply advance_quiet | apply H].
Qed.

Ltac quiet_step :=
  match goal with
  | |- parser_quiet (Parser.Ok _ _) => exact I
  | |- parser_quiet Parser.Crash => exact I
  | |- parser_quiet Parser.Hang => exact I
  | |- parser_quiet (Parser.Throw _) => reflexivity
  | |- parser_quiet (Parser.advance _ _ _) => apply advance_quiet
  | |- parser_quiet (Parser.expect _ _ _ _ _) => apply expect_quiet; intros rest; reflexivity
  | |- parser_quiet (Parser.bind _ _) => apply parser_quiet_bind; [|intros ? ?]
  | H : context [Parser.parseType] |- parser_quiet (Parser.parseType _ _ _) => apply H
  | H : context [Parser.parseParam] |- parser_quiet (Parser.parseParam _ _ _) => apply H
  | H : context [Parser.parseParams] |- parser_quiet (Parser.parseParams _ _ _ _ _) => apply H
  | H : context [Parser.parseExpression] |- parser_quiet (Parser.parseExpression _ _ _) =>
      apply H
  | H : context [Parser.parseBinaryExpression]
    |- parser_quiet (Parser.parseBinaryExpression _ _ _) => apply H
  | H : context [Parser.postfix_loop] |- parser_quiet (Parser.postfix_loop _ _ _ _) => apply H
  | H : context [Parser.parseExprList] |- parser_quiet (Parser.parseExprList _ _ _ _) =>
      apply H
  | H : context [Parser.binop_loop] |- parser_quiet (Parser.binop_loop _ _ _ _) => apply H
  | H : context [Parser.parseLet] |- parser_quiet (Parser.parseLet _ _ _ _) => apply H
  | H : context [Parser.parseReturn] |- parser_quiet (Parser.parseReturn _ _ _) => apply H
  | H : context [Parser.parsePrint] |- parser_quiet (Parser.parsePrint _ _ _) => apply H
  | H : context [Parser.parseBlock] |- parser_quiet (Parser.parseBlock _ _ _) => apply H
  | H : context [Parser.block_loop] |- parser_quiet (Parser.block_loop _ _ _ _) => apply H
  | H : context [Parser.parseStatement] |- parser_quiet (Parser.parseStatement _ _ _) =>
      apply H
  | |- parser_quiet (match ?x with _ => _ end) => destruct x
  end.

Lemma parseType_quiet (fuel : nat) (p : Parser.t L) :
  parser_quiet (Parser.parseType nextToken fuel p).
Proof. unfold Parser.parseType. cbv zeta. repeat quiet_step. Qed.

Lemma parseParam_quiet (fuel : nat) (p : Parser.t L) :
  parser_quiet (Parser.parseParam nextToken fuel p).
Proof.
  pose proof (parseType_quiet fuel).
  unfold Parser.parseParam. cbv zeta. repeat quiet_step.
Qed.

Lemma parseParams_quiet (k fuel : nat) :
  forall (params : list (string * string)) (p : Parser.t L),
    parser_quiet (Parser.parseParams nextToken k fuel params p).
Proof.
  pose proof (parseParam_quiet fuel).
  induction k as [|k IH]; intros params p; [exact I|].
  cbn [Parser.parseParams]. repeat quiet_step.
Qed.

Lemma stoi_quiet (s : string) (what : string) : stoi s = inr what -> array_error what = false.
Proof.
  unfold stoi. destruct s as [|c s]; [intros [= <-]; reflexivity|].
  destruct (isdigit c); [|intros [= <-]; reflexivity].
  cbv zeta. destruct (_ <=? _)%Z; [discriminate | intros [= <-]; reflexivity].
Qed.

Lemma expressions_quiet (fuel : nat) :
  (forall p, parser_quiet (Parser.parseExpression nextToken fuel p))
  /\ (forall p, parser_quiet (Parser.parseBinaryExpression nextToken fuel p))
  /\ (forall left p, parser_quiet (Parser.postfix_loop nextToken fuel left p))
  /\ (forall acc p, parser_quiet (Parser.parseExprList nextToken fuel acc p))
  /\ (forall left p, parser_quiet (Parser.binop_loop nextToken fuel left p)).
Proof.
  induction fuel as [|fuel (IHe & IHb & IHp & IHl & IHo)];
    [repeat split; intros; exact I|].
  split; [|split; [|split; [|split]]].
  - intros p. rewrite parseExpression_S. unfold Parser.parseExpression_body. cbv zeta.
    repeat quiet_step.
  - intros p. rewrite parseBinaryExpression_S. unfold Parser.parseBinaryExpression_body.
    cbv zeta. apply parser_quiet_bind; [|intros; apply IHo].
    destruct (type (Parser.currentToken p)); try reflexivity.
    + repeat quiet_step.
    + destruct (stoi _) eqn:E; [repeat quiet_step | exact (stoi_quiet _ _ E)].
    + repeat quiet_step.
    + repeat quiet_step.
  - intros left p. rewrite postfix_loop_S. unfold Parser.postfix_loop_body. cbv zeta.
    repeat quiet_step.
  - intros acc p. rewrite (parseExprList_S nextToken). unfold Parser.parseExprList_body.
    repeat quiet_step.
  - intros left p. rewrite binop_loop_S. unfold Parser.binop_loop_body. cbv zeta.
    destruct (Parser.is_binary_operator _); repeat quiet_step.
Qed.

Lemma parseLet_quiet (check_name : bool) (fuel : nat) (p : Parser.t L) :
  parser_quiet (Parser.parseLet nextToken check_name fuel p).
Proof.
  pose proof (parseType_quiet fuel).
  pose proof (proj1 (expressions_quiet fuel)).
  unfold Parser.parseLet. cbv zeta.
  apply parser_quiet_bind; [apply advance_quiet|]. intros ? ?.
  destruct (_ && _); repeat quiet_step.
Qed.

Lemma parseReturn_quiet (fuel : nat) (p : Parser.t L) :
  parser_quiet (Parser.parseReturn nextToken fuel p).
Proof.
  pose proof (proj1 (expressions_quiet fuel)).
  unfold Parser.parseReturn. cbv zeta. repeat quiet_step.
Qed.

Lemma parsePrint_quiet (fuel : nat) (p : Parser.t L) :
  parser_quiet (Parser.parsePrint nextToken fuel p).
Proof.
  pose proof (proj1 (expressions_quiet fuel)).
  unfold Parser.parsePrint. cbv zeta. repeat quiet_step.
Qed.

Lemma statements_quiet (fuel : nat) :
  (forall p, parser_quiet (Parser.parseBlock nextToken fuel p))
  /\ (forall body p, parser_quiet (Parser.block_loop nextToken fuel body p))
  /\ (forall p, parser_quiet (Parser.parseStatement nextToken fuel p)).
Proof.
  induction fuel as [|fuel (IHb & IHl & IHs)]; [repeat split; intros; exact I|].
  pose proof (proj1 (expressions_quiet fuel)) as He.
  pose proof (proj1 (proj2 (proj2 (proj2 (expressions_quiet fuel))))) as Hl.
  pose proof (parseLet_quiet true fuel) as Hlet1.
  pose proof (parseLet_quiet false fuel) as Hlet2.
  pose proof (parseReturn_quiet fuel) as Hret.
  pose proof (parsePrint_quiet fuel) as Hprint.
  split; [|split].
  - intros p. rewrite (parseBlock_S nextToken). repeat quiet_step.
  - intros body p. rewrite (block_loop_S nextToken). cbv zeta. repeat quiet_step.
  - intros p. rewrite (parseStatement_S nextToken). cbv zeta. repeat quiet_step.
Qed.

Lemma parseTopLevel_quiet (fuel : nat) (p : Parser.t L) :
  parser_quiet (Parser.parseTopLevel nextToken fuel p).
Proof.
  pose proof (parseType_quiet fuel).
  pose proof (parseParams_quiet fuel fuel).
  pose proof (proj1 (statements_quiet fuel)).
  pose proof (proj2 (proj2 (statements_quiet fuel))).
  unfold Parser.parseTopLevel, Parser.parseFunction. cbv zeta.
  destruct (type (Parser.currentToken p)); repeat quiet_step.
Qed.

End Messages.

Lemma table_of_statements_same (st st1 : Interpreter.t) :
  Interpreter.functions st1 = Interpreter.functions st ->
  table_of_statements st -> table_of_statements st1.
Proof. intros E H name func. rewrite E. apply H. Qed.

Lemma quiet_bind {A B : Type} (st : Interpreter.t) (r : Interpreter.result A)
      (k : A -> Interpreter.t -> Interpreter.result B) :
  table_of_statements st ->
  outcome_extends st r ->
  quiet r ->
  (forall (a : A) (st1 : Interpreter.t), table_of_statements st1 -> quiet (k a st1)) ->
  quiet (Interpreter.bind r k).
Proof.
  intros Ht He Hq Hk. destruct r as [a st1| | |]; cbn in *; try assumption.
  apply Hk. exact (table_of_statements_same _ _ (proj1 He) Ht).
Qed.

Lemma binary_op_quiet (op : string) (a b : Z) (st : Interpreter.t) :
  quiet (Interpreter.binary_op op a b st).
Proof.
  unfold Interpreter.binary_op.
  repeat match goal with
  | |- context [if ?c then _ else _] => destruct c
  end; try exact I. reflexivity.
Qed.

Lemma bind_params_quiet (params : list (string * string)) :
  forall (i : nat) (args : list Z) (st : Interpreter.t),
    quiet (Interpreter.bind_params params i args st).
Proof.
  induction params as [|[name ty] params IH]; intros i args st; cbn [Interpreter.bind_params].
  - exact I.
  - destruct (args !! i); [apply IH | exact I].
Qed.

Lemma for_initializer_runnable (init : option ASTNode) :
  for_initializer init = true -> optional runnable init = true.
Proof.
  destruct init as [[]|]; cbn; try discriminate; try reflexivity;
    unfold runnable; cbn; intros ->; reflexivity.
Qed.

Lemma expression_runnable (e : option ASTNode) :
  optional expression_tree e = true -> optional runnable e = true.
Proof.
  destruct e as [e|]; [|reflexivity]. unfold runnable. cbn. intros ->.
  apply orb_true_r.
Qed.

Lemma statement_runnable (s : ASTNode) : statement_tree s = true -> runnable s = true.
Proof. unfold runnable. intros ->. reflexivity. Qed.

(** Run on statements, with a table of statements, no member function
    ends in one of the messages of [evalArray]. *)
Lemma interpreter_quiet (fuel : nat) :
  (forall node st, table_of_statements st -> quiet (Interpreter.evalExpr fuel node st))
  /\ (forall args acc st, table_of_statements st ->
                          quiet (Interpreter.evalArgs fuel args acc st))
  /\ (forall name args st, table_of_statements st ->
                           quiet (Interpreter.callFunction fuel name args st))
  /\ (forall stmt st, table_of_statements st -> optional runnable stmt = true ->
                      quiet (Interpreter.execStatement fuel stmt st))
  /\ (forall node st r, table_of_statements st -> runnable node = true ->
                        Interpreter.execCommon fuel node st = Some r -> quiet r)
  /\ (forall body st, table_of_statements st -> forallb statement_tree body = true ->
                      quiet (Interpreter.execStatements fuel body st))
  /\ (forall c i body st, table_of_statements st -> optional expression_tree i = true ->
                          forallb statement_tree body = true ->
                          quiet (Interpreter.for_loop fuel c i body st))
  /\ (forall c body st, table_of_statements st -> forallb statement_tree body = true ->
                        quiet (Interpreter.while_loop fuel c body st))
  /\ (forall body rv st, table_of_statements st -> forallb statement_tree body = true ->
                         quiet (Interpreter.function_body fuel body rv st))
  /\ (forall func args st, table_of_statements st ->
                           forallb statement_tree (fd_body func) = true ->
                           quiet (Interpreter.execFunction fuel func args st)).
Proof.
  induction fuel as [|fuel (IHe & IHa & IHc & IHs & IHm & IHss & IHf & IHw & IHb & IHx)].
  { repeat split; intros; try exact I.
    match goal with H : _ = Some _ |- _ => injection H as <- end. exact I. }
  destruct (interpreter_extends fuel)
    as (Ee & Ea & Ec & Es & Em & Ess & Ef & Ew & Eb & Ex).
  split; [|split; [|split; [|split; [|split; [|split; [|split; [|split; [|split]]]]]]]].
  - intros node st Ht. rewrite evalExpr_S. destruct node; try reflexivity.
    + apply (quiet_bind st); [exact Ht | apply Ee | apply IHe, Ht|]. intros a st1 Ht1.
      apply (quiet_bind st1); [exact Ht1 | apply Ee | apply IHe, Ht1|]. intros b st2 Ht2.
      apply binary_op_quiet.
    + destruct (Interpreter.variables st !! name); [exact I | reflexivity].
    + apply (quiet_bind st); [exact Ht | apply Ea | apply IHa, Ht|]. intros vs st1 Ht1.
      apply IHc, Ht1.
  - intros args acc st Ht. rewrite evalArgs_S. destruct args; [exact I|].
    apply (quiet_bind st); [exact Ht | apply Ee | apply IHe, Ht|]. intros v st1 Ht1.
    apply IHa, Ht1.
  - intros name args st Ht. rewrite callFunction_S.
    destruct (Interpreter.functions st !! name) as [func|] eqn:E; [|reflexivity].
    apply IHx; [exact Ht | exact (Ht _ _ E)].
  - intros stmt st Ht Hr. rewrite execStatement_S. destruct stmt as [node|]; [|reflexivity].
    destruct (Interpreter.execCommon fuel node st) as [r|] eqn:E;
      [exact (IHm _ _ _ Ht Hr E)|].
    destruct node; try reflexivity.
    apply (quiet_bind st); [exact Ht | apply Ee | apply IHe, Ht|]. intros _ st1 _. exact I.
  - intros node st r Ht Hr. rewrite execCommon_S.
    destruct node; try discriminate; intros [= <-].
    + apply (quiet_bind st); [exact Ht | apply Ee | apply IHe, Ht|]. intros; exact I.
    + apply (quiet_bind st); [exact Ht | apply Ee | apply IHe, Ht|]. intros; exact I.
    + apply (quiet_bind st); [exact Ht | apply Ee | apply IHe, Ht|]. intros; exact I.
    + apply (quiet_bind st); [exact Ht | apply Ee | apply IHe, Ht|]. intros; exact I.
    + unfold runnable in Hr. cbn in Hr. rewrite orb_false_r in Hr.
      apply andb_prop in Hr as [Hr Hbody]. apply andb_prop in Hr as [Hr Hincr].
      apply andb_prop in Hr as [Hinit _].
      apply (quiet_bind st);
        [exact Ht | apply Es | apply IHs; [exact Ht | apply for_initializer_runnable, Hinit]|].
      intros _ st1 Ht1. apply IHf; assumption.
    + unfold runnable in Hr. cbn in Hr. rewrite orb_false_r in Hr.
      apply andb_prop in Hr as [_ Hbody]. apply IHw; assumption.
    + apply (quiet_bind st); [exact Ht | apply Ea | apply IHa, Ht|]. intros vs st1 Ht1.
      apply (quiet_bind st1); [exact Ht1 | apply Ec | apply IHc, Ht1|]. intros; exact I.
  - intros body st Ht Hbody. rewrite execStatements_S. destruct body as [|s body]; [exact I|].
    cbn in Hbody. apply andb_prop in Hbody as [Hs Hbody].
    apply (quiet_bind st);
      [exact Ht | apply Es | apply IHs; [exact Ht | apply statement_runnable, Hs]|].
    intros _ st1 Ht1. apply IHss; assumption.
  - intros c i body st Ht Hi Hbody. rewrite for_loop_S.
    apply (quiet_bind st);
      [exact Ht | destruct c; [apply Ee | apply extends_refl]
       | destruct c; [apply IHe, Ht | reflexivity] |].
    intros v st1 Ht1. destruct (v =? 0)%Z; [exact I|].
    apply (quiet_bind st1); [exact Ht1 | apply Ess | apply IHss; assumption|].
    intros _ st2 Ht2.
    apply (quiet_bind st2);
      [exact Ht2 | apply Es | apply IHs; [exact Ht2 | apply expression_runnable, Hi]|].
    intros _ st3 Ht3. apply IHf; assumption.
  - intros c body st Ht Hbody. rewrite while_loop_S.
    apply (quiet_bind st); [exact Ht | apply Ee | apply IHe, Ht|].
    intros v st1 Ht1. destruct (v =? 0)%Z; [exact I|].
    apply (quiet_bind st1); [exact Ht1 | apply Ess | apply IHss; assumption|].
    intros _ st2 Ht2. apply IHw; assumption.
  - intros body rv st Ht Hbody. rewrite function_body_S.
    destruct body as [|s body]; [exact I|].
    cbn in Hbody. apply andb_prop in Hbody as [Hs Hbody].
    destruct s; try (apply IHe, Ht);
      (destruct (Interpreter.execCommon fuel _ st) as [r|] eqn:E;
       [|apply IHb; assumption];
       apply (quiet_bind st);
         [exact Ht | exact (Em _ _ _ E)
          | exact (IHm _ _ _ Ht (statement_runnable _ Hs) E) |];
       intros _ st1 Ht1; apply IHb; assumption).
  - intros func args st Ht Hbody. rewrite execFunction_S.
    apply (quiet_bind st); [exact Ht | apply bind_params_extends | apply bind_params_quiet|].
    intros _ st1 Ht1.
    apply (quiet_bind st1); [exact Ht1 | apply Eb | apply IHb; assumption|].
    intros; exact I.
Qed.

Lemma prefix_append (s x : string) : String.prefix s (s ++ x) = true.
Proof.
  induction s as [|c s IH]; [destruct x; reflexivity|].
  change (match ascii_dec c c with
          | left _ => String.prefix s (s ++ x)
          | right _ => false
          end = true).
  destruct (ascii_dec c c); [exact IH | contradiction].
Qed.

Lemma parseTopLevel_top_level_tree {L : Type} (nextToken : nat -> L -> option (Token * L))
      (fuel : nat) (p : Parser.t L) :
  builds (fun n => top_level_tree n = true) (Parser.parseTopLevel nextToken fuel p).
Proof.
  unfold Parser.parseTopLevel.
  assert (Hf : builds (fun n => top_level_tree n = true)
                 (Parser.parseFunction nextToken fuel p)).
  { pose proof (parseFunction_declaration nextToken fuel p) as H.
    destruct (Parser.parseFunction nextToken fuel p); try exact I. exact (proj1 H). }
  assert (Hs : builds (fun n => top_level_tree n = true)
                 (Parser.parseStatement nextToken fuel p)).
  { pose proof (proj2 (proj2 (statements_are_statement_trees nextToken fuel)) p) as H.
    destruct (Parser.parseStatement nextToken fuel p) as [n p'| | |]; try exact I.
    cbn in *. destruct n; try discriminate H; exact H. }
  destruct (type (Parser.currentToken p)); assumption.
Qed.

Lemma top_level_loop_quiet (k : nat) :
  forall (fuel : nat) (parser : Parser.t Lexer.t) (interp : Interpreter.t)
         (status : Z) (out err : list string),
    table_of_statements interp ->
    top_level_loop k fuel parser interp = Exited status out err ->
    err = [] \/ exists what : string, err = ["Error: " ++ what] /\ array_error what = false.
Proof.
  induction k as [|k IH]; intros fuel parser interp status out err Ht H; [discriminate H|].
  cbn [top_level_loop] in H.
  destruct (Parser.isAtEnd parser).
  { unfold run_main in H.
    destruct (Interpreter.functions interp !! "main"); [|injection H as _ _ <-; left; reflexivity].
    pose proof (proj1 (proj2 (proj2 (interpreter_quiet fuel))) "main" [] interp Ht) as Hq.
    destruct (Interpreter.callFunction fuel "main" [] interp); try discriminate H.
    - injection H as _ _ <-. left. reflexivity.
    - injection H as _ _ <-. right. eexists. split; [reflexivity | exact Hq]. }
  pose proof (parseTopLevel_top_level_tree Lexer.nextToken fuel parser) as Htree.
  pose proof (parseTopLevel_quiet Lexer.nextToken fuel parser) as Hquiet.
  destruct (Parser.parseTopLevel Lexer.nextToken fuel parser) as [node p'|what| |];
    try discriminate H.
  - cbn in Htree.
    destruct (as_FunctionDecl node) as [func|] eqn:E.
    + apply (IH _ _ _ _ _ _) in H; [exact H|].
      destruct node; try discriminate E. injection E as <-.
      intros name' func'. unfold Interpreter.addFunction. cbn.
      destruct (decide (name = name')) as [->|Hne].
      * rewrite lookup_insert_eq. intros [= <-]. exact Htree.
      * rewrite lookup_insert_ne by exact Hne. apply Ht.
    + assert (Hs : statement_tree node = true)
        by (destruct node; try discriminate E; exact Htree).
      pose proof (proj1 (proj2 (proj2 (proj2 (interpreter_quiet fuel))))
                    (Some node) interp Ht (statement_runnable _ Hs)) as Hq.
      pose proof (proj1 (proj2 (proj2 (proj2 (interpreter_extends fuel))))
                    (Some node) interp) as He.
      destruct (Interpreter.execStatement fuel (Some node) interp) as [[] st1| | |];
        try discriminate H.
      * apply (IH _ _ _ _ _ _) in H; [exact H|].
        exact (table_of_statements_same _ _ (proj1 He) Ht).
      * injection H as _ _ <-. right. eexists. split; [reflexivity | exact Hq].
  - injection H as _ _ <-. right. eexists. split; [reflexivity | exact Hquiet].
Qed.

(** Property X22.  No source text makes the process report one of the two
    errors of [evalArray]: the parser builds no [ForEachStmt], which is the
    only statement that calls [evalArray], neither at the top level nor
    inside a function body or a loop, and no other error of the parser or
    of the interpreter has one of these messages. *)
Theorem array_errors_are_unreachable :
  forall (fuel : nat) (code : string) (status : Z) (out err : list string),
    entry_main fuel code = Exited status out err ->
    err <> ["Error: Unsupported iterable type"]
    /\ forall x : string, err <> ["Error: Array support not implemented yet for: " ++ x].
Proof.
  intros fuel code status out err H.
  assert (Hq : err = []
               \/ exists what : string, err = ["Error: " ++ what] /\ array_error what = false).
  { unfold entry_main in H.
    destruct (Parser.new Lexer.nextToken fuel (Lexer.new code)) as [[] p|what| |] eqn:E;
      try discriminate H.
    - apply (top_level_loop_quiet _ _ _ _ _ _ _) in H; [exact H|].
      intros name func. cbn. rewrite lookup_empty. discriminate.
    - unfold Parser.new in E. destruct (Lexer.nextToken fuel _) as [[tk l]|]; discriminate E. }
  destruct Hq as [->|(what & -> & Hq)]; [split; [|intros x]; discriminate|].
  split; [|intros x]; intros [= Heq].
  - change (what = "Unsupported iterable type") in Heq.
    rewrite Heq in Hq. discriminate Hq.
  - change (what = "Array support not implemented yet for: " ++ x) in Heq.
    rewrite Heq in Hq. unfold array_error in Hq.
    rewrite prefix_append, orb_true_r in Hq. discriminate Hq.
Qed.

Lemma array_errors_are_unreachable_witness :
  entry_main 6 "print(1); print(x);" = Exited 1 ["1"] ["Error: Undefined variable: x"]
  /\ ["Error: Undefined variable: x"] <> ["Error: Unsupported iterable type"].
Proof.
  assert (H : entry_main 6 "print(1); print(x);"
              = Exited 1 ["1"] ["Error: Undefined variable: x"])
    by (vm_compute; reflexivity).
  split; [exact H|].
  exact (proj1 (array_errors_are_unreachable 6 "print(1); print(x);" 1 ["1"]
                  ["Error: Undefined variable: x"] H)).
Defined.
